(** * parse_oif: slices and metadata of an OIF container written to a
    directory tree

    A shallow embedding of [parse_oif.py].  Pure helpers ([z_to_string],
    [scale_bit_image]) are Rocq functions; the script itself runs in a
    state-and-exception monad over a [world] made of a file system, the
    operator's pending answers on standard input and a log of what the
    process did.

    Conventions:
    - Python [str] values are [string]s (byte sequences); string order is
      [String.compare], which is the code-point order of Python on UTF-8.
    - Indices and lengths that come from [range], [enumerate] and [len] are
      [nat]; other Python integers are [Z].
    - A Python [float] that is only stored and printed (a number of the
      descriptor or of the settings) is the rational it stands for ([Q]).
      The arithmetic of the rescale is binary64, as numpy and the
      interpreter do it: round to nearest, ties to even ([F64], over the
      Standard Library's [SpecFloat]). [scale_bit_image] is the same
      formula read in exact arithmetic, for the statements that ask for
      it. *)

From Stdlib Require Import ZArith QArith Qpower Ascii String List Lia SpecFloat.
From stdpp Require Import gmap strings list fin_maps sorting.

Set Warnings "-register-all".

(* ===================================================================== *)
(** * Strings *)
(* ===================================================================== *)

Module Str.

(** [s * n] on a Python string. *)
Fixpoint repeat (s : string) (n : nat) : string :=
  match n with
  | O => ""
  | S n' => s +:+ repeat s n'
  end.

(** One decimal digit; only called below ten. *)
Definition digit_char (d : nat) : ascii :=
  match d with
  | 0 => "0" | 1 => "1" | 2 => "2" | 3 => "3" | 4 => "4"
  | 5 => "5" | 6 => "6" | 7 => "7" | 8 => "8" | _ => "9"
  end%char.

Fixpoint decimal (fuel n : nat) : string :=
  match fuel with
  | O => ""
  | S fuel' =>
      if n <? 10 then String (digit_char n) ""
      else decimal fuel' (n / 10) +:+ String (digit_char (n mod 10)) ""
  end.

(** [str(n)] for a non-negative Python integer. *)
Definition str (n : nat) : string := decimal (S n) n.

(** [s.startswith(p)] and [s.endswith(p)]. *)
Definition startswith (s p : string) : bool := String.prefix p s.

Definition endswith (s p : string) : bool :=
  String.prefix (String.rev p) (String.rev s).

Definition lower_char (c : ascii) : ascii :=
  let n := nat_of_ascii c in
  if (65 <=? n) && (n <=? 90) then ascii_of_nat (n + 32) else c.

(** [s.lower()], on the ASCII letters. *)
Fixpoint lower (s : string) : string :=
  match s with
  | "" => ""
  | String c s' => String (lower_char c) (lower s')
  end.

(** [s1 < s2] on Python strings. *)
Definition lt (s1 s2 : string) : Prop := String.compare s1 s2 = Lt.

(** Position-independent split at the last ["/"]: [Some (head, tail)]
    with [s = head ++ "/" ++ tail] and no ["/"] in [tail]. *)
Fixpoint rsplit_sep (s : string) : option (string * string) :=
  match s with
  | "" => None
  | String c s' =>
      match rsplit_sep s' with
      | Some (h, t) => Some (String c h, t)
      | None => if Ascii.eqb c "/" then Some ("", s') else None
      end
  end.

(** Split at the last ["."]. *)
Fixpoint rsplit_dot (s : string) : option (string * string) :=
  match s with
  | "" => None
  | String c s' =>
      match rsplit_dot s' with
      | Some (h, t) => Some (String c h, t)
      | None => if Ascii.eqb c "." then Some ("", s') else None
      end
  end.

Fixpoint all_dots (s : string) : bool :=
  match s with
  | "" => true
  | String c s' => Ascii.eqb c "." && all_dots s'
  end.

End Str.

(* ===================================================================== *)
(** * [os.path] *)
(* ===================================================================== *)

Module path.

(** [posixpath.join(a, b)]. *)
Definition join (a b : string) : string :=
  if Str.startswith b "/" then b
  else if String.eqb a "" || Str.endswith a "/" then a +:+ b
  else a +:+ "/" +:+ b.

(** [posixpath.basename(p)]: what follows the last separator. *)
Definition basename (p : string) : string :=
  match Str.rsplit_sep p with
  | Some (_, t) => t
  | None => p
  end.

(** First component of [posixpath.splitext(p)] for a [p] without
    separator (the script applies it to a [basename]): the extension
    starts at the last dot, unless only dots precede it. *)
Definition splitext_root (p : string) : string :=
  match Str.rsplit_dot p with
  | Some (h, _) => if Str.all_dots h then p else h
  | None => p
  end.

(** Directory holding [p]; [""] stands for the working directory or the
    root. *)
Definition dirname (p : string) : string :=
  match Str.rsplit_sep p with
  | Some (h, _) => h
  | None => ""
  end.

End path.

(* ===================================================================== *)
(** * [z_to_string] *)
(* ===================================================================== *)

Definition z_to_string (value max_value : nat) : string :=
  let max_str := Str.str max_value in
  let val_str := Str.str value in
  let char_dif := (Z.of_nat (String.length max_str) - Z.of_nat (String.length val_str))%Z in
  let out_str := val_str in
  if (0 <? char_dif)%Z then Str.repeat "0" (Z.to_nat char_dif) +:+ val_str
  else out_str.

(* ===================================================================== *)
(** * Python values, exceptions and results *)
(* ===================================================================== *)

(** What [json.load] can return. A [dict] keeps its insertion order and is
    an association list with distinct keys. *)
Inductive pyval : Type :=
| PNone
| PBool (b : bool)
| PInt (z : Z)
| PFloat (q : Q)
| PStr (s : string)
| PList (l : list pyval)
| PDict (d : list (string * pyval)).

(** The exceptions the script can meet. [OSError] stands for its
    subclasses ([FileNotFoundError], [FileExistsError],
    [NotADirectoryError], ...); [Unmodelled] marks a run that leaves what
    the model can compute. *)
Inductive exn : Type :=
| KeyError (key : string)
| IndexError
| TypeError
| AttributeError
| ValueError (msg : string)
| ZeroDivisionError
| OverflowError
| EOFError
| OSError (filename : string)
| JSONDecodeError
| GetoptError (msg : string)
| SystemExit (code : option Z)
| Unmodelled (what : string).

Inductive result (A : Type) : Type :=
| Ok (a : A)
| Raise (e : exn).

Arguments Ok {A} a.
Arguments Raise {A} e.

Module Dict.

Definition t (V : Type) : Type := list (string * V).

(** [d[k]], [None] where Python raises [KeyError]. *)
Fixpoint get {V} (d : t V) (k : string) : option V :=
  match d with
  | [] => None
  | (k', v) :: d' => if String.eqb k' k then Some v else get d' k
  end.

(** [d[k] = v]: an existing key keeps its position. *)
Fixpoint set {V} (d : t V) (k : string) (v : V) : t V :=
  match d with
  | [] => [(k, v)]
  | (k', v') :: d' =>
      if String.eqb k' k then (k, v) :: d' else (k', v') :: set d' k v
  end.

Definition keys {V} (d : t V) : list string := map fst d.

Definition getitem {V} (d : t V) (k : string) : result V :=
  match get d k with
  | Some v => Ok v
  | None => Raise (KeyError k)
  end.

End Dict.

(** [v[k]] for a string subscript [k]. *)
Definition getitem (v : pyval) (k : string) : result pyval :=
  match v with
  | PDict d => Dict.getitem d k
  | _ => Raise TypeError
  end.

(** [v[k] = x] for a string subscript [k]. *)
Definition setitem (v : pyval) (k : string) (x : pyval) : result pyval :=
  match v with
  | PDict d => Ok (PDict (Dict.set d k x))
  | _ => Raise TypeError
  end.

(** [v.keys()]. *)
Definition keys (v : pyval) : result (list string) :=
  match v with
  | PDict d => Ok (Dict.keys d)
  | _ => Raise AttributeError
  end.

(** A value used where the script needs a [str] operand. *)
Definition as_str (v : pyval) : result string :=
  match v with
  | PStr s => Ok s
  | _ => Raise TypeError
  end.

(** [list.sort()] on strings: the sorted rearrangement, by a merge sort
    as in the interpreter. *)
Definition sort (l : list string) : list string := merge_sort String.le l.

(* ===================================================================== *)
(** * Arrays *)
(* ===================================================================== *)

(** A [numpy.ndarray] as nested sequences; a regular array has children of
    one shape. *)
Inductive ndarray (A : Type) : Type :=
| Scalar (a : A)
| Arr (l : list (ndarray A)).

Arguments Scalar {A} a.
Arguments Arr {A} l.

Module Nd.

Fixpoint map {A B} (f : A -> B) (a : ndarray A) : ndarray B :=
  match a with
  | Scalar x => Scalar (f x)
  | Arr l => Arr (List.map (map f) l)
  end.

Fixpoint forallb {A} (p : A -> bool) (a : ndarray A) : bool :=
  match a with
  | Scalar x => p x
  | Arr l => List.forallb (forallb p) l
  end.

(** [a.shape], read along the first child of each level. *)
Fixpoint shape {A} (a : ndarray A) : list nat :=
  match a with
  | Scalar _ => []
  | Arr l => length l :: match l with [] => [] | x :: _ => shape x end
  end.

(** [a[i]] for [0 <= i]. *)
Definition getitem {A} (a : ndarray A) (i : nat) : result (ndarray A) :=
  match a with
  | Scalar _ => Raise IndexError
  | Arr l => match nth_error l i with
             | Some x => Ok x
             | None => Raise IndexError
             end
  end.

End Nd.

(* ===================================================================== *)
(** * [scale_bit_image] *)
(* ===================================================================== *)

(** ** In exact arithmetic

    Lines 39-41 with every operation exact: what the function computes
    when nothing is rounded. The script itself runs [scale_bit_image_f64]
    below. *)

(** [2**bits] for an integer [bits]; a negative exponent gives the exact
    fraction, as Python's float does. *)
Definition pow2 (bits : Z) : Q := Qpower (2 # 1) bits.

(** The scalars are computed once and broadcast over [image]. Python raises
    [ZeroDivisionError] on a zero denominator. *)
Definition scale_bit_image (image : ndarray Z) (bits : Z)
    (img_min new_min new_max : Q) : result (ndarray Q) :=
  let img_max := (pow2 bits - 1)%Q in
  if Qeq_bool (img_max - img_min) 0 then Raise ZeroDivisionError
  else
    let scale_quotient := ((new_max - new_min) / (img_max - img_min))%Q in
    let scaled :=
      Nd.map (fun px => (scale_quotient * (inject_Z px - img_min) + new_min)%Q) image in
    Ok scaled.

(** [a.astype(int)] on a float: the fractional part is dropped. *)
Definition astype_int (q : Q) : Z := Z.quot (Qnum q) (Z.pos (Qden q)).

(** ** In binary64 *)

(** IEEE 754 binary64, round to nearest, ties to even. *)
Module F64.

Definition prec : Z := 53.
Definition emax : Z := 1024.

Definition add : spec_float -> spec_float -> spec_float := SFadd prec emax.
Definition sub : spec_float -> spec_float -> spec_float := SFsub prec emax.
Definition mul : spec_float -> spec_float -> spec_float := SFmul prec emax.
Definition div : spec_float -> spec_float -> spec_float := SFdiv prec emax.

(** The double nearest to an integer: what [float(z)] and the conversion
    of an integer array give. *)
Definition of_int (z : Z) : spec_float := binary_normalize prec emax z 0 false.

(** An integer as an operand that is not rounded. *)
Definition unrounded (z : Z) : spec_float :=
  match z with
  | Z0 => S754_zero false
  | Zpos p => S754_finite false p 0
  | Zneg p => S754_finite true p 0
  end.

(** The double nearest to [a / b], for [b <> 0]: [a / b] on two Python
    integers, which rounds the exact quotient once. *)
Definition int_div (a b : Z) : spec_float := div (unrounded a) (unrounded b).

Definition is_finite (f : spec_float) : bool :=
  match f with
  | S754_zero _ | S754_finite _ _ _ => true
  | _ => false
  end.

Definition is_zero (f : spec_float) : bool :=
  match f with
  | S754_zero _ => true
  | _ => false
  end.

(** The number a finite double stands for. *)
Definition to_Q (f : spec_float) : Q :=
  match f with
  | S754_finite s m e =>
      let n := cond_Zopp s (Z.pos m) in
      match e with
      | Zneg k => Qmake n (Pos.iter xO 1%positive k)
      | _ => inject_Z (n * 2 ^ e)
      end
  | _ => 0
  end.

(** The integer a double with no fractional part stands for. *)
Definition to_int (f : spec_float) : option Z :=
  match f with
  | S754_zero _ => Some 0%Z
  | S754_finite _ _ _ =>
      let q := to_Q f in
      if (Z.rem (Qnum q) (Z.pos (Qden q)) =? 0)%Z
      then Some (Z.quot (Qnum q) (Z.pos (Qden q))) else None
  | _ => None
  end.

(** The integer part of a finite double: the bits of the fraction are
    dropped, the sign is kept. *)
Definition trunc (f : spec_float) : Z :=
  match f with
  | S754_finite s m e =>
      cond_Zopp s (match e with
                   | Zneg k => Z.shiftr (Z.pos m) (Z.pos k)
                   | _ => Z.pos m * 2 ^ e
                   end)
  | _ => 0
  end.

(** Does the integer part fit a 64-bit signed integer? *)
Definition fits_int64 (f : spec_float) : bool :=
  is_finite f && (- 2 ^ 63 <=? trunc f)%Z && (trunc f <? 2 ^ 63)%Z.

End F64.

(** A Python number: [int] or [float]. *)
Inductive pynum : Type :=
| NInt (z : Z)
| NFloat (f : spec_float).

(** [float(n)]: an integer beyond the doubles raises [OverflowError]. *)
Definition py_float (n : pynum) : result spec_float :=
  match n with
  | NInt z =>
      let f := F64.of_int z in
      if F64.is_finite f then Ok f else Raise OverflowError
  | NFloat f => Ok f
  end.

(** [a - b]: exact on two integers, else in binary64. *)
Definition py_sub (a b : pynum) : result pynum :=
  match a, b with
  | NInt x, NInt y => Ok (NInt (x - y))
  | _, _ =>
      match py_float a with
      | Ok fa =>
          match py_float b with
          | Ok fb => Ok (NFloat (F64.sub fa fb))
          | Raise e => Raise e
          end
      | Raise e => Raise e
      end
  end.

(** [a / b]: a float. On two integers the exact quotient is rounded once
    and a quotient beyond the doubles raises [OverflowError]; a zero
    divisor raises [ZeroDivisionError]. *)
Definition py_truediv (a b : pynum) : result spec_float :=
  match a, b with
  | NInt x, NInt y =>
      if (y =? 0)%Z then Raise ZeroDivisionError
      else
        let f := F64.int_div x y in
        if F64.is_finite f then Ok f else Raise OverflowError
  | _, _ =>
      match py_float a with
      | Ok fa =>
          match py_float b with
          | Ok fb =>
              if F64.is_zero fb then Raise ZeroDivisionError else Ok (F64.div fa fb)
          | Raise e => Raise e
          end
      | Raise e => Raise e
      end
  end.

(** [2**bits]: an integer for an integer [bits >= 0], else a float, the
    power of two itself, rounded where it leaves the doubles below and
    raising [OverflowError] where it leaves them above. A [bits] with a
    fractional part has a power that the model does not compute. *)
Definition py_pow2 (bits : pynum) : result pynum :=
  match bits with
  | NInt b =>
      if (0 <=? b)%Z then Ok (NInt (2 ^ b))
      else
        match py_float bits with
        | Ok _ => Ok (NFloat (binary_normalize F64.prec F64.emax 1 b false))
        | Raise e => Raise e
        end
  | NFloat (S754_infinity false) => Ok (NFloat (S754_infinity false))
  | NFloat (S754_infinity true) => Ok (NFloat (S754_zero false))
  | NFloat S754_nan => Ok (NFloat S754_nan)
  | NFloat f =>
      match F64.to_int f with
      | Some b =>
          let p := binary_normalize F64.prec F64.emax 1 b false in
          if F64.is_finite p then Ok (NFloat p) else Raise OverflowError
      | None => Raise (Unmodelled "2**bits for a fractional bits")
      end
  end.

(** Lines 39-42 as numpy and the interpreter evaluate them. The scalars
    are Python numbers; [image] holds integers, which [image - img_min]
    keeps for an integer [img_min], and which the product with the float
    [scale_quotient] turns into doubles. The samples are integers without
    bound: the wrap-around of a fixed-width array is not modelled (with
    [img_min = 0], as the script calls it, there is none). *)
Definition scale_bit_image_f64 (image : ndarray Z) (bits img_min new_min new_max : pynum)
    : result (ndarray spec_float) :=
  match py_pow2 bits with
  | Raise e => Raise e
  | Ok p =>
  match py_sub p (NInt 1) with
  | Raise e => Raise e
  | Ok img_max =>
  match py_sub new_max new_min with
  | Raise e => Raise e
  | Ok num =>
  match py_sub img_max img_min with
  | Raise e => Raise e
  | Ok den =>
  match py_truediv num den with
  | Raise e => Raise e
  | Ok scale_quotient =>
  match py_float new_min with
  | Raise e => Raise e
  | Ok new_min_f =>
      let shifted (px : Z) : spec_float :=
        match img_min with
        | NInt m => F64.of_int (px - m)
        | NFloat f => F64.sub (F64.of_int px) f
        end in
      let scaled :=
        Nd.map (fun px => F64.add (F64.mul scale_quotient (shifted px)) new_min_f) image in
      Ok scaled
  end end end end end end.

(** [a.astype(int)] on an array of doubles: the fractional part of each
    is dropped. What numpy gives for nan, for an infinity and for a value
    beyond 64 bits is not defined. *)
Definition astype_int_f64 (a : ndarray spec_float) : result (ndarray Z) :=
  if Nd.forallb F64.fits_int64 a
  then Ok (Nd.map F64.trunc a)
  else Raise (Unmodelled "astype(int) of nan, of an infinity or beyond 64 bits").

(* ===================================================================== *)
(** * The world the script runs in *)
(* ===================================================================== *)

(** A value the decoder parsed out of the container's settings. *)
Inductive ini_value : Type :=
| IInt (z : Z)
| IFloat (q : Q)
| IStr (s : string).

(** What [oiffile.OifFile] exposes: [mainfile] (sections of key-value
    settings), [tiffs.axes] and [asarray()]. *)
Record oif_file : Type := {
  mainfile : Dict.t (Dict.t ini_value);
  tiffs_axes : string;
  asarray : ndarray Z
}.

Inductive content : Type :=
| Json (v : pyval)
| Png (img : ndarray Z)
| Oif (o : oif_file)
| Bytes (s : string).

Inductive node : Type :=
| Dir
| File (c : content).

(** What the process did, oldest first. [Print] is a line on standard
    output; the traceback of an uncaught exception, on standard error, is
    not recorded. *)
Inductive event : Type :=
| Print (line : string)
| Prompt (msg : string)
| Makedirs (p : string)
| Rmtree (p : string)
| Imsave (p : string) (img : ndarray Z)
| JsonDump (p : string) (v : pyval).

(** [fs] maps a path to what is there, [stdin] holds the lines the
    operator will type. The file system is well formed when what lies
    above an entry is a directory; the operations below keep intermediate
    directories implicit. *)
Record world : Type := {
  fs : gmap string node;
  stdin : list string;
  log : list event
}.

Definition emit (e : event) (w : world) : world :=
  {| fs := fs w; stdin := stdin w; log := log w ++ [e] |}.

Definition with_fs (m : gmap string node) (w : world) : world :=
  {| fs := m; stdin := stdin w; log := log w |}.

(** [q] is [d] or lies below it. *)
Definition inside (d q : string) : bool :=
  String.eqb q d || String.prefix (d +:+ "/") q.

(** Is [e] a change of the file system? *)
Definition is_side_effect (e : event) : bool :=
  match e with
  | Print _ | Prompt _ => false
  | _ => true
  end.

(* ===================================================================== *)
(** * State and exception monad *)
(* ===================================================================== *)

Definition M (A : Type) : Type := world -> result A * world.

Definition ret {A} (a : A) : M A := fun w => (Ok a, w).

Definition raise {A} (e : exn) : M A := fun w => (Raise e, w).

Definition bind {A B} (m : M A) (k : A -> M B) : M B :=
  fun w =>
    match m w with
    | (Ok a, w') => k a w'
    | (Raise e, w') => (Raise e, w')
    end.

Definition lift {A} (r : result A) : M A := fun w => (r, w).

(** Sequencing inside [result], for code without effects. *)
Definition rbind {A B} (r : result A) (k : A -> result B) : result B :=
  match r with
  | Ok a => k a
  | Raise e => Raise e
  end.

Declare Scope py_scope.
Delimit Scope py_scope with py.

Notation "x <- m ;; k" := (bind m (fun x => k))
  (at level 100, m at next level, right associativity) : py_scope.
Notation "m ;; k" := (bind m (fun _ => k))
  (at level 100, right associativity) : py_scope.
Notation "'let?' x := r 'in' k" := (rbind r (fun x => k))
  (at level 100, x name, r at next level, right associativity) : py_scope.

Local Open Scope py_scope.

(** [for x in l: body]. *)
Fixpoint for_ {A} (l : list A) (body : A -> M unit) : M unit :=
  match l with
  | [] => ret tt
  | x :: l' => body x ;; for_ l' body
  end.

(** ** Primitives *)

Definition print (line : string) : M unit :=
  fun w => (Ok tt, emit (Print line) w).

(** [input(msg)]: shows [msg] and takes the operator's next line. *)
Definition input (msg : string) : M string :=
  fun w =>
    match stdin w with
    | [] => (Raise EOFError, emit (Prompt msg) w)
    | line :: rest =>
        (Ok line, {| fs := fs w; stdin := rest; log := log w ++ [Prompt msg] |})
    end.

Definition sys_exit {A} (code : option Z) : M A := raise (SystemExit code).

Definition path_exists (p : string) : M bool :=
  fun w => (Ok (bool_decide (is_Some (fs w !! p))), w).

(** [os.makedirs(p)]: fails on an existing target. *)
Definition makedirs (p : string) : M unit :=
  fun w =>
    match fs w !! p with
    | Some _ => (Raise (OSError p), w)
    | None => (Ok tt, emit (Makedirs p) (with_fs (<[p := Dir]> (fs w)) w))
    end.

(** [shutil.rmtree(p)]: removes a directory and all that lies below. *)
Definition rmtree (p : string) : M unit :=
  fun w =>
    match fs w !! p with
    | Some Dir =>
        (Ok tt, emit (Rmtree p)
                  (with_fs (filter (fun kv => inside p kv.1 = false) (fs w)) w))
    | _ => (Raise (OSError p), w)
    end.

(** Can a file be created or replaced at [p]? Its directory must be
    there, and [p] must not be a directory. *)
Definition writable (m : gmap string node) (p : string) : bool :=
  match m !! p with
  | Some Dir => false
  | _ =>
      let d := path.dirname p in
      String.eqb d "" || match m !! d with Some Dir => true | _ => false end
  end.

(** [skimage.io.imsave(p, img)]. *)
Definition imsave (p : string) (img : ndarray Z) : M unit :=
  fun w =>
    if writable (fs w) p
    then (Ok tt, emit (Imsave p img) (with_fs (<[p := File (Png img)]> (fs w)) w))
    else (Raise (OSError p), w).

(** [with open(p, 'w') as f: json.dump(v, f, indent=2, sort_keys=True)]:
    the file holds the value; its text layout is not modelled. *)
Definition json_dump_to (p : string) (v : pyval) : M unit :=
  fun w =>
    if writable (fs w) p
    then (Ok tt, emit (JsonDump p v) (with_fs (<[p := File (Json v)]> (fs w)) w))
    else (Raise (OSError p), w).

(** [with open(p) as f: json.load(f)]. *)
Definition json_load_from (p : string) : M pyval :=
  fun w =>
    match fs w !! p with
    | Some (File (Json v)) => (Ok v, w)
    | Some (File _) => (Raise JSONDecodeError, w)
    | _ => (Raise (OSError p), w)
    end.

(** [oiffile.OifFile(in_file)]. *)
Definition OifFile (in_file : pyval) : M oif_file :=
  fun w =>
    match in_file with
    | PStr p =>
        match fs w !! p with
        | Some (File (Oif o)) => (Ok o, w)
        | Some (File _) => (Raise (ValueError "not an OIF file"), w)
        | _ => (Raise (OSError p), w)
        end
    | _ => (Raise TypeError, w)
    end.

(** Exit status of the process: an uncaught exception gives 1,
    [sys.exit()] without argument gives 0. *)
Definition exit_status {A} (r : result A) : option Z :=
  match r with
  | Ok _ => Some 0%Z
  | Raise (SystemExit None) => Some 0%Z
  | Raise (SystemExit (Some n)) => Some n
  | Raise (Unmodelled _) => None
  | Raise _ => Some 1%Z
  end.

(* ===================================================================== *)
(** * [getopt.getopt(args, "h", ["help"])] *)
(* ===================================================================== *)

Module getopt.

Definition opt : Type := (string * string)%type.

(** The letters after the dash of one argument; ["h"] is the only short
    option and takes no argument. *)
Fixpoint do_shorts (opts : list opt) (optstring : string) : result (list opt) :=
  match optstring with
  | "" => Ok opts
  | String c rest =>
      if Ascii.eqb c "h" then do_shorts (opts ++ [("-h", "")]) rest
      else Raise (GetoptError ("option -" +:+ String c "" +:+ " not recognized"))
  end.

(** Split at the first ["="]. *)
Fixpoint split_eq (s : string) : string * option string :=
  match s with
  | "" => ("", None)
  | String c rest =>
      if Ascii.eqb c "=" then ("", Some rest)
      else let '(name, optarg) := split_eq rest in (String c name, optarg)
  end.

(** What follows ["--"]: any prefix of ["help"] stands for it, and it
    takes no argument. *)
Definition do_longs (opts : list opt) (o : string) : result (list opt) :=
  let '(name, optarg) := split_eq o in
  if Str.startswith "help" name then
    match optarg with
    | Some _ => Raise (GetoptError "option --help must not have an argument")
    | None => Ok (opts ++ [("--help", "")])
    end
  else Raise (GetoptError ("option --" +:+ name +:+ " not recognized")).

Definition drop (n : nat) (s : string) : string :=
  String.substring n (String.length s - n) s.

(** Options are read up to the first argument that is not one, or up to
    ["--"]. *)
Fixpoint loop (opts : list opt) (args : list string) : result (list opt * list string) :=
  match args with
  | [] => Ok (opts, [])
  | a :: rest =>
      if Str.startswith a "-" && negb (String.eqb a "-") then
        if String.eqb a "--" then Ok (opts, rest)
        else if Str.startswith a "--" then
          let? opts' := do_longs opts (drop 2 a) in loop opts' rest
        else
          let? opts' := do_shorts opts (drop 1 a) in loop opts' rest
      else Ok (opts, args)
  end.

Definition getopt (args : list string) : result (list opt * list string) :=
  loop [] args.

End getopt.

(* ===================================================================== *)
(** * The script *)
(* ===================================================================== *)

Definition nl : string := String "010"%char "".
Definition dq : string := String "034"%char "".

Definition usage_msg : string :=
  String.concat "" [
    "Parse an oif file to extract channel images and relevant metadata.";
    "    "; nl; nl;
    "This script takes a .json file as input with the following format:"; nl; nl;
    "    {"; nl;
    "    "; dq; "oif_file"; dq; ": <location to oif file>,"; nl;
    "    "; dq; "stains"; dq; ": {"; dq; "1"; dq; ": <stain used in first channel>,"; nl;
    "               "; dq; "2"; dq; ": <stain used in second channel>,"; nl;
    "               "; dq; "3"; dq; ": <stain used in third channel>,"; nl;
    "               "; dq; "4"; dq; ": <stain used in fourth channel>},"; nl;
    "    "; dq; "person"; dq; ": <name of person who collected the data>,"; nl;
    "    "; dq; "hpf"; dq; ": <hours past fertilization>,"; nl;
    "    "; dq; "treatment"; dq; ": <treatment applied to embryo>,"; nl;
    "    "; dq; "out_dir"; dq; ": <desired location to write output directories>,"; nl;
    "    "; dq; "prefix"; dq; ": <optinal string to write in front of output files>"; nl;
    "    }"; nl; nl;
    "To run the script, issue the following command:"; nl;
    "    "; nl; nl;
    "python parse_oif.py <input_file.json>" ].

Definition usage : M unit := print usage_msg.

Definition expected_keys : list string :=
  ["oif_file"; "stains"; "person"; "hpf"; "treatment"; "out_dir"; "prefix"].

Definition mem (x : string) (l : list string) : bool :=
  existsb (String.eqb x) l.

(** [if d['out_dir'] is not None: if d['out_dir'] == '': d['out_dir'] = '.'] *)
Definition default_out_dir (input_data : pyval) : result pyval :=
  let? out_dir := getitem input_data "out_dir" in
  match out_dir with
  | PNone => Ok input_data
  | _ =>
      let? out_dir' := getitem input_data "out_dir" in
      match out_dir' with
      | PStr "" => setitem input_data "out_dir" (PStr ".")
      | _ => Ok input_data
      end
  end.

(** Lines 193-204. The script defines it and calls it nowhere. *)
Definition check_input_dict (input_data : pyval) : M pyval :=
  ks <- lift (keys input_data) ;;
  let key_check := map (fun x => mem x expected_keys) ks in
  (if negb (forallb id key_check) then usage else ret tt) ;;
  input_data <- lift (default_out_dir input_data) ;;
  prefix <- lift (getitem input_data "prefix") ;;
  match prefix with
  | PNone => lift (setitem input_data "prefix" (PStr ""))
  | _ => ret input_data
  end.

Definition enumerate {A} (l : list A) : list (nat * A) :=
  combine (seq 0 (length l)) l.

Definition str_Z (z : Z) : string :=
  if (z <? 0)%Z then "-" +:+ Str.str (Z.to_nat (- z)) else Str.str (Z.to_nat z).

Definition pyval_of_ini (v : ini_value) : pyval :=
  match v with
  | IInt z => PInt z
  | IFloat q => PFloat q
  | IStr s => PStr s
  end.

(** [confirm.lower() not in ['y', 'yes']] *)
Definition declines (confirm : string) : bool :=
  negb (mem (Str.lower confirm) ["y"; "yes"]).

(** [nbits] as the Python number that the decoder read. *)
Definition pynum_of_ini (nbits : ini_value) : result pynum :=
  match nbits with
  | IInt b => Ok (NInt b)
  | IFloat q => Ok (NFloat (F64.int_div (Qnum q) (Z.pos (Qden q))))
  | IStr _ => Raise TypeError
  end.

Section Script.

(** [str(x)] on a float, as the interpreter prints it. *)
Variable float_str : Q -> string.

(** ["{}".format(v)] *)
Definition format_ini (v : ini_value) : string :=
  match v with
  | IInt z => str_Z z
  | IFloat q => float_str q
  | IStr s => s
  end.

(** Lines 87-92: the record before the container is opened. *)
Definition initial_metadata (channel_stains : list pyval)
    (person hpf treatment : pyval) : Dict.t pyval :=
  let metadata := [] in
  let metadata := Dict.set metadata "Person" person in
  let metadata := Dict.set metadata "HPF" hpf in
  let metadata := Dict.set metadata "Treatment" treatment in
  fold_left
    (fun metadata '(i, each) =>
       Dict.set metadata ("Channel" +:+ Str.str (i + 1)) (PDict [("Stain", each)]))
    (enumerate channel_stains) metadata.

(** [[str(i) for i, x in enumerate(axis_order) if x == 'Z']] *)
Definition z_axis_of (axis_order : ini_value) : result (list string) :=
  match axis_order with
  | IStr s =>
      Ok (map (fun ix => Str.str ix.1)
            (List.filter (fun ix => Ascii.eqb ix.2 "Z")
               (enumerate (list_ascii_of_string s))))
  | _ => Raise TypeError
  end.

(** Lines 94-109: what the script reads from [oif.mainfile], giving the
    completed record and the bit depth. *)
Definition oif_metadata (mainfile : Dict.t (Dict.t ini_value))
    (metadata : Dict.t pyval) : result (Dict.t pyval * ini_value) :=
  let? acquisition := Dict.getitem mainfile "Acquisition Parameters Common" in
  let? datetime := Dict.getitem acquisition "ImageCaputreDate" in
  let metadata := Dict.set metadata "CaptureDateTime" (pyval_of_ini datetime) in
  let? reference := Dict.getitem mainfile "Reference Image Parameter" in
  let? height_value := Dict.getitem reference "HeightConvertValue" in
  let? height_unit := Dict.getitem reference "HeightUnit" in
  let metadata := Dict.set metadata "HeightConvert"
    (PStr (format_ini height_value +:+ " " +:+ format_ini height_unit)) in
  let? width_value := Dict.getitem reference "WidthConvertValue" in
  let? width_unit := Dict.getitem reference "WidthUnit" in
  let metadata := Dict.set metadata "WidthConvert"
    (PStr (format_ini width_value +:+ " " +:+ format_ini width_unit)) in
  let? nbits := Dict.getitem reference "ValidBitCounts" in
  let? axis_common := Dict.getitem mainfile "Axis Parameter Common" in
  let? axis_order := Dict.getitem axis_common "AxisOrder" in
  let? z_axis := z_axis_of axis_order in
  match z_axis with
  | [] => Raise IndexError
  | z0 :: _ =>
      let axis_key := "Axis " +:+ z0 +:+ " Parameters Common" in
      let? axis := Dict.getitem mainfile axis_key in
      let? interval := Dict.getitem axis "Interval" in
      let? axis' := Dict.getitem mainfile axis_key in
      let? unit_name := Dict.getitem axis' "UnitName" in
      let metadata := Dict.set metadata "DepthConvert"
        (PStr (format_ini interval +:+ " " +:+ format_ini unit_name)) in
      Ok (metadata, nbits)
  end.

(** [{axes[i]: i for i in range(len(axes))}] *)
Definition axes_dict_of (axes : string) : Dict.t nat :=
  fold_left (fun d '(i, c) => Dict.set d (String c "") i)
    (enumerate (list_ascii_of_string axes)) [].

(** [image.shape[i]] *)
Definition shape_at (image : ndarray Z) (i : nat) : result nat :=
  match nth_error (Nd.shape image) i with
  | Some n => Ok n
  | None => Raise IndexError
  end.

(** Lines 114-120, the parent directory: created, or kept as it is once
    the operator agrees. *)
Definition parent_dir_step (base_dir : string) : M unit :=
  e <- path_exists base_dir ;;
  if negb e then makedirs base_dir
  else
    let msg := "WARNING: " +:+ base_dir +:+ " already exists. Potentially overwrite contents?" in
    confirm <- input msg ;;
    if declines confirm then sys_exit None else ret tt.

(** Lines 139-147, a channel directory: created, or emptied once the
    operator agrees. *)
Definition channel_dir_step (channel_path : string) : M unit :=
  e <- path_exists channel_path ;;
  if negb e then makedirs channel_path
  else
    let msg := "WARNING: " +:+ channel_path +:+ " already exists. Overwrite contents?" in
    confirm <- input msg ;;
    (if declines confirm then sys_exit None else ret tt) ;;
    rmtree channel_path ;;
    makedirs channel_path.

(** Lines 151-153: [img_file] of one slice. *)
Definition img_file_of (base_name channel_path : string) (channel z z_len : nat) : string :=
  let z_string := "z" +:+ z_to_string z z_len in
  let file_name := base_name +:+ "c" +:+ Str.str (channel + 1) +:+ z_string in
  path.join channel_path (file_name +:+ ".png").

(** Lines 155-156:
    [scale_bit_image(image[channel][z], nbits, 0, 0, 255).astype(int)] *)
Definition slice_of (image : ndarray Z) (nbits : ini_value) (channel z : nat)
    : result (ndarray Z) :=
  let? by_channel := Nd.getitem image channel in
  let? plane := Nd.getitem by_channel z in
  let? bits := pynum_of_ini nbits in
  let? out_img := scale_bit_image_f64 plane bits (NInt 0) (NInt 0) (NInt 255) in
  astype_int_f64 out_img.

Definition write_slice (image : ndarray Z) (nbits : ini_value)
    (base_name channel_path : string) (channel z_len z : nat) : M unit :=
  let img_file := img_file_of base_name channel_path channel z z_len in
  out_img <- lift (slice_of image nbits channel z) ;;
  imsave img_file out_img.

(** Lines 136-156: body of the loop over channels. *)
Definition channel_step (image : ndarray Z) (nbits : ini_value)
    (base_name base_dir : string) (z_idx channel : nat) : M unit :=
  let channel_string := "Channel" +:+ Str.str (channel + 1) in
  let channel_path := path.join base_dir channel_string in
  channel_dir_step channel_path ;;
  z_len <- lift (shape_at image z_idx) ;;
  for_ (seq 0 z_len) (write_slice image nbits base_name channel_path channel z_len).

Definition oif_to_dir_tree (in_file : pyval) (channel_stains : list pyval)
    (person hpf treatment out_dir prefix : pyval) : M unit :=
  let metadata := initial_metadata channel_stains person hpf treatment in
  oif <- OifFile in_file ;;
  md_bits <- lift (oif_metadata (mainfile oif) metadata) ;;
  let metadata := md_bits.1 in
  let nbits := md_bits.2 in
  let axes := tiffs_axes oif in
  let image := asarray oif in
  prefix_s <- lift (as_str prefix) ;;
  in_file_s <- lift (as_str in_file) ;;
  let base_name := prefix_s +:+ path.splitext_root (path.basename in_file_s) in
  out_dir_s <- lift (as_str out_dir) ;;
  let base_dir := path.join out_dir_s base_name in
  parent_dir_step base_dir ;;
  let axes_dict := axes_dict_of axes in
  channel_idx <- lift (match Dict.get axes_dict "C" with
                       | Some i => Ok i
                       | None => Raise (ValueError "Error: No channel axis found.")
                       end) ;;
  z_idx <- lift (match Dict.get axes_dict "Z" with
                 | Some i => Ok i
                 | None => Raise (ValueError "Error: No z-axis found.")
                 end) ;;
  n_channels <- lift (shape_at image channel_idx) ;;
  for_ (seq 0 n_channels) (channel_step image nbits base_name base_dir z_idx) ;;
  json_dump_to (path.join base_dir "metadata.json") (PDict metadata).

(** [[input_data['stains'][i] for i in stain_keys]] *)
Fixpoint stains_of (stains : pyval) (stain_keys : list string) : result (list pyval) :=
  match stain_keys with
  | [] => Ok []
  | i :: rest =>
      let? s := getitem stains i in
      let? l := stains_of stains rest in
      Ok (s :: l)
  end.

(** Lines 219-230: the branch taken for one positional argument ending
    in [.json]. *)
Definition run_job (descriptor : string) : M unit :=
  input_data <- json_load_from descriptor ;;
  input_data <- lift (default_out_dir input_data) ;;
  stains <- lift (getitem input_data "stains") ;;
  stain_keys <- lift (keys stains) ;;
  let stain_keys := sort stain_keys in
  stains <- lift (stains_of stains stain_keys) ;;
  oif_file <- lift (getitem input_data "oif_file") ;;
  person <- lift (getitem input_data "person") ;;
  hpf <- lift (getitem input_data "hpf") ;;
  treatment <- lift (getitem input_data "treatment") ;;
  out_dir <- lift (getitem input_data "out_dir") ;;
  prefix <- lift (getitem input_data "prefix") ;;
  oif_to_dir_tree oif_file stains person hpf treatment out_dir prefix.

(** Lines 206-232: the [__main__] block, on [sys.argv[1:]]. The filter on
    warnings has no effect the model can see. *)
Definition main (argv : list string) : M unit :=
  match getopt.getopt argv with
  | Raise (GetoptError _) =>
      print "Failure retrieving parameters." ;;
      usage ;;
      sys_exit (Some 1%Z)
  | Raise e => raise e
  | Ok (opts, args) =>
      for_ opts (fun oa =>
        if mem oa.1 ["-h"; "--help"] then usage ;; sys_exit (Some 0%Z)
        else ret tt) ;;
      match args with
      | [a] => if Str.endswith a ".json" then run_job a else usage
      | _ => usage
      end
  end.

(** Exit status and final world of the process started with [argv]. *)
Definition run (argv : list string) (w : world) : option Z * world :=
  let '(r, w') := main argv w in (exit_status r, w').

End Script.

(* ===================================================================== *)
(** * Notions used in the statements *)
(* ===================================================================== *)

(** ** Decimal strings *)

Definition digit_val (c : ascii) : nat := nat_of_ascii c - 48.

Definition is_digit (c : ascii) : Prop := 48 <= nat_of_ascii c <= 57.

Fixpoint digits (s : string) : Prop :=
  match s with
  | "" => True
  | String c s' => is_digit c /\ digits s'
  end.

(** The number a digit string writes, most significant digit first. *)
Fixpoint value (s : string) : nat :=
  match s with
  | "" => 0
  | String c s' => digit_val c * 10 ^ String.length s' + value s'
  end.

(** [s] filled with zeros on the left up to [width] characters. *)
Definition zero_padded (width : nat) (s : string) : string :=
  Str.repeat "0" (width - String.length s) +:+ s.

(** ** Samples *)

(** The value [scale_bit_image(px, B, 0, 0, 255)] gives one sample. *)
Definition scaled (B px : Z) : Q :=
  ((255 - 0) / (pow2 B - 1 - 0) * (inject_Z px - 0) + 0)%Q.

(** The integer part of [a / b], towards zero. *)
Definition trunc_div (a b : Z) : Z := Z.quot a b.

(** [t] is [v] with its fractional part dropped. *)
Definition truncates (v : Q) (t : Z) : Prop :=
  ((0 <= v)%Q -> (inject_Z t <= v)%Q /\ (v < inject_Z t + 1)%Q)
  /\ ((v <= 0)%Q -> (inject_Z t - 1 < v)%Q /\ (v <= inject_Z t)%Q).

(** The double that [scale_bit_image(px, B, 0, 0, 255)] gives one sample. *)
Definition scaled_f64 (B px : Z) : spec_float :=
  F64.add (F64.mul (F64.int_div (255 - 0) (2 ^ B - 1 - 0)) (F64.of_int (px - 0)))
    (F64.of_int 0).

(** [p] on [x], [x + 1], ..., [fuel] numbers in all. *)
Fixpoint all_from (fuel : nat) (x : Z) (p : Z -> bool) : bool :=
  match fuel with
  | O => true
  | S k => p x && all_from k (x + 1) p
  end.

(** At depth [B] every sample from 0 to the full scale is rescaled to a
    double whose integer part is that of the exact quotient. *)
Definition rescale_agrees (B : Z) : bool :=
  let d := (2 ^ B - 1)%Z in
  let q := F64.int_div (255 - 0) (d - 0) in
  F64.is_finite q
  && all_from (Z.to_nat (2 ^ B)) 0
       (fun px =>
          let v := F64.add (F64.mul q (F64.of_int (px - 0))) (F64.of_int 0) in
          F64.is_finite v && (F64.trunc v =? trunc_div (255 * px) d)%Z).

(** At depth [B] the multiples of the full scale, up to 256 times and
    down to -256 times, are rescaled to the multiples of 255. *)
Definition multiples_agree (B : Z) : bool :=
  let d := (2 ^ B - 1)%Z in
  let q := F64.int_div (255 - 0) (d - 0) in
  all_from 513 (-256)
    (fun k =>
       let v := F64.add (F64.mul q (F64.of_int (k * d - 0))) (F64.of_int 0) in
       F64.is_finite v && (F64.trunc v =? 255 * k)%Z).

(** A sample of depth [B]. *)
Definition in_depth (B px : Z) : bool := (0 <=? px)%Z && (px <=? 2 ^ B - 1)%Z.

(** A multiple of the full scale of depth [B], at most 256 times it. *)
Definition full_scale_multiple (B px : Z) : bool :=
  let d := (2 ^ B - 1)%Z in
  (px mod d =? 0)%Z && (-256 * d <=? px)%Z && (px <=? 256 * d)%Z.

(** ** Planes of a volume *)

(** [numpy.take(a, i, axis=k)]: index [i] along axis [k]. *)
Fixpoint take_axis {A} (k i : nat) (a : ndarray A) : option (ndarray A) :=
  match a with
  | Scalar _ => None
  | Arr l =>
      match k with
      | 0 => nth_error l i
      | S k' => Arr <$> mapM (take_axis k' i) l
      end
  end.

(** The plane at [channel] along axis [channel_idx] and [z] along axis
    [z_idx]. Taking along the lower axis moves the other one down. *)
Definition plane_at {A} (image : ndarray A) (channel_idx channel z_idx z : nat)
    : option (ndarray A) :=
  if channel_idx <? z_idx then
    by_channel ← take_axis channel_idx channel image;
    take_axis (z_idx - 1) z by_channel
  else
    by_z ← take_axis z_idx z image;
    take_axis (channel_idx - 1) channel by_z.

(** Nested induction on arrays. *)
Section NdInduction.

Context {A : Type} (P : ndarray A -> Prop).
Hypothesis Hscalar : forall a, P (Scalar a).
Hypothesis Harr : forall l, Forall P l -> P (Arr l).

Fixpoint ndarray_nested_ind (a : ndarray A) : P a :=
  match a with
  | Scalar x => Hscalar x
  | Arr l =>
      Harr l ((fix go (l : list (ndarray A)) : Forall P l :=
                 match l with
                 | [] => @List.Forall_nil _ P
                 | x :: l' => @List.Forall_cons _ P x l' (ndarray_nested_ind x) (go l')
                 end) l)
  end.

End NdInduction.

(** ** Prompts and directories *)

Definition overwrite_msg (p : string) : string :=
  "WARNING: " +:+ p +:+ " already exists. Overwrite contents?".

Definition potentially_msg (p : string) : string :=
  "WARNING: " +:+ p +:+ " already exists. Potentially overwrite contents?".

(** [w] once the operator has answered the prompt [msg]. *)
Definition answered (msg : string) (rest : list string) (w : world) : world :=
  {| fs := fs w; stdin := rest; log := log w ++ [Prompt msg] |}.

(** The file system with directory [p] emptied. *)
Definition emptied (p : string) (m : gmap string node) : gmap string node :=
  <[p := Dir]> (filter (fun kv => inside p kv.1 = false) m).

(** ** Command line *)

Definition is_help (o : getopt.opt) : Prop := mem o.1 ["-h"; "--help"] = true.

Definition is_getopt_error (e : exn) : Prop :=
  match e with
  | GetoptError _ => True
  | _ => False
  end.

(** An exception that ends the process with status 1. *)
Definition fatal (e : exn) : Prop := exit_status (@Raise unit e) = Some 1%Z.

(** ** Job descriptors *)

Definition is_str (v : pyval) : bool :=
  match v with
  | PStr _ => true
  | _ => false
  end.

Definition is_number (v : pyval) : bool :=
  match v with
  | PInt _ | PFloat _ => true
  | _ => false
  end.

Definition field_ok (d : Dict.t pyval) (k : string) (ok : pyval -> bool) : bool :=
  match Dict.get d k with
  | Some v => ok v
  | None => false
  end.

(** A descriptor as the script documents it: paths, names and labels are
    strings, [stains] maps channel positions to labels, [hpf] is a number. *)
Definition descriptor_ok (v : pyval) : bool :=
  match v with
  | PDict d =>
      field_ok d "oif_file" is_str
      && field_ok d "stains"
           (fun s => match s with
                     | PDict m => forallb (fun kv => is_str kv.2) m
                     | _ => false
                     end)
      && field_ok d "person" is_str
      && field_ok d "hpf" is_number
      && field_ok d "treatment" is_str
      && field_ok d "out_dir" is_str
      && field_ok d "prefix" is_str
  | _ => false
  end.

(** ** Sample inputs *)

Definition const_float_str (q : Q) : string := "0.5".

(** A plane of one sample. *)
Definition px (v : Z) : ndarray Z := Arr [Arr [Scalar v]].

Definition settings (bits : Z) : Dict.t (Dict.t ini_value) :=
  [ ("Acquisition Parameters Common", [("ImageCaputreDate", IStr "2017-03-01 10:00:00")]);
    ("Reference Image Parameter",
       [("HeightConvertValue", IFloat (1 # 2)); ("HeightUnit", IStr "um");
        ("WidthConvertValue", IFloat (1 # 2)); ("WidthUnit", IStr "um");
        ("ValidBitCounts", IInt bits)]);
    ("Axis Parameter Common", [("AxisOrder", IStr "XYCZT")]);
    ("Axis 3 Parameters Common", [("Interval", IInt 2); ("UnitName", IStr "um")]) ].

(** Two channels of three depths, channels first. *)
Definition cz_volume : ndarray Z :=
  Arr [ Arr [px 0; px 100; px 255]; Arr [px 10; px 200; px 254] ].

Definition cz_oif : oif_file :=
  {| mainfile := settings 8; tiffs_axes := "CZYX"; asarray := cz_volume |}.

(** Two depths of two channels, depths first: the sample at depth [z] and
    channel [c] is [10 * (z + 1) + c]. *)
Definition zc_volume : ndarray Z :=
  Arr [ Arr [px 10; px 11]; Arr [px 20; px 21] ].

Definition zc_oif : oif_file :=
  {| mainfile := settings 8; tiffs_axes := "ZCYX"; asarray := zc_volume |}.

(** Three depths of two channels, depths first. *)
Definition zc_volume_3x2 : ndarray Z :=
  Arr [ Arr [px 10; px 11]; Arr [px 20; px 21]; Arr [px 30; px 31] ].

Definition zc_oif_3x2 : oif_file :=
  {| mainfile := settings 8; tiffs_axes := "ZCYX"; asarray := zc_volume_3x2 |}.

Definition job_fields (hpf : pyval) : Dict.t pyval :=
  [ ("oif_file", PStr "/data/emb.oif");
    ("stains", PDict [("2", PStr "gfp"); ("1", PStr "dapi")]);
    ("person", PStr "A"); ("hpf", hpf); ("treatment", PStr "none");
    ("out_dir", PStr "/tmp/out"); ("prefix", PStr "") ].

Definition job (hpf : pyval) : pyval := PDict (job_fields hpf).

(** [job] without its [treatment]. *)
Definition job_fields_no_treatment : Dict.t pyval :=
  [ ("oif_file", PStr "/data/emb.oif");
    ("stains", PDict [("2", PStr "gfp"); ("1", PStr "dapi")]);
    ("person", PStr "A"); ("hpf", PFloat (13 # 2));
    ("out_dir", PStr "/tmp/out"); ("prefix", PStr "") ].


(** The descriptor at [job.json], the container at [/data/emb.oif], the
    directories [dirs], and [answers] waiting on standard input. *)
Definition world_with (o : oif_file) (j : pyval) (dirs answers : list string) : world :=
  {| fs := foldr (fun p m => <[p := Dir]> m)
             (<["job.json" := File (Json j)]> (<["/data/emb.oif" := File (Oif o)]> ∅))
             dirs;
     stdin := answers;
     log := [] |}.

(* ===================================================================== *)
(** * Notions used in further statements *)
(* ===================================================================== *)

(** Position of the first [c] in [l]. *)
Fixpoint first_index (c : ascii) (l : list ascii) : option nat :=
  match l with
  | [] => None
  | x :: l' => if Ascii.eqb x c then Some 0 else option_map S (first_index c l')
  end.

(** Position of the last [c] in [l]. *)
Fixpoint last_index (c : ascii) (l : list ascii) : option nat :=
  match l with
  | [] => None
  | x :: l' =>
      match last_index c l' with
      | Some i => Some (S i)
      | None => if Ascii.eqb x c then Some 0 else None
      end
  end.

(** The settings hold [key] in [section]. *)
Definition has_setting {V} (mf : Dict.t (Dict.t V)) (section key : string) : Prop :=
  exists sec v, Dict.get mf section = Some sec /\ Dict.get sec key = Some v.

(** The key and the entry of the record for the stain at position [i]
    (counted from 0). *)
Definition channel_key (i : nat) : string := "Channel" +:+ Str.str (i + 1).

Definition channel_entry (ie : nat * pyval) : string * pyval :=
  (channel_key ie.1, PDict [("Stain", ie.2)]).

(** [d] after [if d['out_dir'] == '': d['out_dir'] = '.'] and after
    [if d['prefix'] is None: d['prefix'] = '']. *)
Definition normalized_out_dir (d : Dict.t pyval) : Dict.t pyval :=
  match Dict.get d "out_dir" with
  | Some (PStr "") => Dict.set d "out_dir" (PStr ".")
  | _ => d
  end.

Definition normalized_prefix (d : Dict.t pyval) : Dict.t pyval :=
  match Dict.get d "prefix" with
  | Some PNone => Dict.set d "prefix" (PStr "")
  | _ => d
  end.

(** Are all keys of [d] among the expected ones? *)
Definition known_keys (d : Dict.t pyval) : bool :=
  forallb (fun k => mem k expected_keys) (Dict.keys d).

(** The world after the key check of [check_input_dict]: the usage is
    printed when a key is not expected. *)
Definition after_key_check (d : Dict.t pyval) (w : world) : world :=
  if known_keys d then w else emit (Print usage_msg) w.

(** Settings whose axis order has no [Z]. *)
Definition settings_no_z : Dict.t (Dict.t ini_value) :=
  [ ("Acquisition Parameters Common", [("ImageCaputreDate", IStr "2017-03-01 10:00:00")]);
    ("Reference Image Parameter",
       [("HeightConvertValue", IFloat (1 # 2)); ("HeightUnit", IStr "um");
        ("WidthConvertValue", IFloat (1 # 2)); ("WidthUnit", IStr "um");
        ("ValidBitCounts", IInt 8)]);
    ("Axis Parameter Common", [("AxisOrder", IStr "XYCT")]) ].

Definition no_z_oif : oif_file :=
  {| mainfile := settings_no_z; tiffs_axes := "CYX"; asarray := cz_volume |}.

(** A volume without channel axis. *)
Definition no_c_oif : oif_file :=
  {| mainfile := settings 8; tiffs_axes := "ZYX"; asarray := cz_volume |}.

(** ** The output tree *)

(** [s] holds no separator. *)
Fixpoint no_sep (s : string) : bool :=
  match s with
  | "" => true
  | String c s' => negb (Ascii.eqb c "/") && no_sep s'
  end.

(** What one operation of the log does to the file system, as the
    primitives above do it. *)
Definition apply_event (m : gmap string node) (e : event) : gmap string node :=
  match e with
  | Makedirs p => <[p := Dir]> m
  | Rmtree p => filter (fun kv => inside p kv.1 = false) m
  | Imsave p img => <[p := File (Png img)]> m
  | JsonDump p v => <[p := File (Json v)]> m
  | Print _ | Prompt _ => m
  end.

(** The operations of [l] done in order. *)
Definition replay (l : list event) (m : gmap string node) : gmap string node :=
  fold_left apply_event l m.

(** [w] once the operations of [l] are done and logged; nothing is read
    from the operator. *)
Definition after (l : list event) (w : world) : world :=
  {| fs := replay l (fs w); stdin := stdin w; log := log w ++ l |}.

(** Lines 136-137: [channel_path] of a channel. *)
Definition channel_path_of (base_dir : string) (channel : nat) : string :=
  path.join base_dir ("Channel" +:+ Str.str (channel + 1)).

(** Line 136: [channel_string]. *)
Definition channel_string_of (channel : nat) : string :=
  "Channel" +:+ Str.str (channel + 1).

(** Lines 151-153: [file_name + '.png']. *)
Definition png_name_of (base_name : string) (channel z z_len : nat) : string :=
  (base_name +:+ "c" +:+ Str.str (channel + 1) +:+ "z" +:+ z_to_string z z_len) +:+ ".png".

(** No directory of the output tree of [base_dir] is there yet but
    [base_dir] and channel directories, and no channel directory from
    [channel] on. *)
Definition tree_inv (base_dir : string) (channel : nat) (m : gmap string node) : Prop :=
  m !! base_dir = Some Dir
  /\ (forall q, m !! q = Some Dir -> String.prefix base_dir q = true ->
        q = base_dir \/ exists c, q = channel_path_of base_dir c)
  /\ (forall c, channel <= c -> m !! channel_path_of base_dir c = None).

(** What lies outside of [base_dir] is in [w'] as it was in [w]. *)
Definition outside_kept (base_dir : string) (w w' : world) : Prop :=
  forall q, String.prefix base_dir q = false -> fs w' !! q = fs w !! q.

(** [m] changes the file system under [base_dir] only, whatever its
    outcome. *)
Definition stays_in (base_dir : string) {A} (m : M A) : Prop :=
  forall w, outside_kept base_dir w (m w).2.

(** The images of the depths [zs] of one channel, saved in order. *)
Definition slices_log (base_name channel_path : string) (z_len : nat)
    (img : nat -> ndarray Z) (channel : nat) (zs : list nat) : list event :=
  map (fun z => Imsave (img_file_of base_name channel_path channel z z_len) (img z)) zs.

(** One channel of a new tree: its directory, then one image per depth. *)
Definition channel_log (base_name base_dir : string) (z_len : nat)
    (img : nat -> nat -> ndarray Z) (channel : nat) : list event :=
  Makedirs (channel_path_of base_dir channel)
  :: slices_log base_name (channel_path_of base_dir channel) z_len (img channel) channel
       (seq 0 z_len).

(** A new tree: the parent directory, the channels in order, the
    record. *)
Definition tree_log (base_name base_dir : string) (n_channels z_len : nat)
    (img : nat -> nat -> ndarray Z) (md : Dict.t pyval) : list event :=
  Makedirs base_dir
  :: concat (map (channel_log base_name base_dir z_len img) (seq 0 n_channels))
  ++ [JsonDump (path.join base_dir "metadata.json") (PDict md)].

(** The slices of [cz_volume] as they are written, and the record that
    goes with [cz_oif]. *)
Definition cz_slice (c z : nat) : ndarray Z :=
  match slice_of cz_volume (IInt 8) c z with
  | Ok out_img => out_img
  | Raise _ => Scalar 0%Z
  end.

Definition cz_record : Dict.t pyval :=
  match oif_metadata const_float_str (settings 8)
          (initial_metadata [PStr "dapi"; PStr "gfp"] (PStr "A") (PFloat (13 # 2))
             (PStr "none")) with
  | Ok md_bits => md_bits.1
  | Raise _ => []
  end.

(** ** Runs and descriptors *)

(** Every image that [m] saves goes to a path of [P]. *)
Definition saves_only (P : string -> Prop) {A} (m : M A) : Prop :=
  forall w p out,
    In (Imsave p out) (log (m w).2) -> In (Imsave p out) (log w) \/ P p.

(** Ten depths of one channel. *)
Definition ten_deep : ndarray Z := Arr [Arr (replicate 10 (px 0))].

(** [out_dir] after [if out_dir == '': out_dir = '.']. *)
Definition defaulted (out_dir : pyval) : pyval :=
  match out_dir with
  | PStr "" => PStr "."
  | _ => out_dir
  end.



(* ===================================================================== *)
(** * Facts on strings *)
(* ===================================================================== *)

Section StringFacts.

Lemma app_cons (c : ascii) (s t : string) : String c s +:+ t = String c (s +:+ t).
Proof. reflexivity. Qed.

Lemma str_app_nil_l (s : string) : "" +:+ s = s.
Proof. reflexivity. Qed.

Lemma str_app_assoc (s t u : string) : (s +:+ t) +:+ u = s +:+ (t +:+ u).
Proof.
  induction s as [|c s IH]; [reflexivity|].
  rewrite !app_cons, IH. reflexivity.
Qed.

Lemma length_app (s t : string) :
  String.length (s +:+ t) = String.length s + String.length t.
Proof.
  induction s as [|c s IH]; [reflexivity|].
  rewrite app_cons. cbn [String.length]. rewrite IH. reflexivity.
Qed.

Lemma length_repeat_char (c : ascii) (n : nat) :
  String.length (Str.repeat (String c "") n) = n.
Proof.
  induction n as [|n IH]; [reflexivity|].
  cbn [Str.repeat]. rewrite length_app, IH. reflexivity.
Qed.

Lemma ascii_compare_nat (a b : ascii) :
  Ascii.compare a b = (nat_of_ascii a ?= nat_of_ascii b).
Proof. unfold Ascii.compare, nat_of_ascii. rewrite N2Nat.inj_compare. reflexivity. Qed.

Lemma ascii_compare_refl (a : ascii) : Ascii.compare a a = Eq.
Proof. rewrite ascii_compare_nat. apply Nat.compare_refl. Qed.

(** A common beginning does not change the order. *)
Lemma compare_app_l (p a b : string) :
  String.compare (p +:+ a) (p +:+ b) = String.compare a b.
Proof.
  induction p as [|c p IH]; [reflexivity|].
  rewrite !app_cons. cbn [String.compare]. rewrite ascii_compare_refl. exact IH.
Qed.

(** Two strings of one length are ordered before what follows them is
    looked at. *)
Lemma compare_app_r_lt (a b s t : string) :
  String.length a = String.length b ->
  String.compare a b = Lt ->
  String.compare (a +:+ s) (b +:+ t) = Lt.
Proof.
  revert b. induction a as [|c a IH]; intros [|d b] Hlen Hcmp; try discriminate.
  rewrite !app_cons. cbn [String.compare String.length] in *.
  destruct (Ascii.compare c d); try discriminate; [|reflexivity].
  apply IH; [lia | exact Hcmp].
Qed.

Lemma prefix_nil (s : string) : String.prefix "" s = true.
Proof. destruct s; reflexivity. Qed.

Lemma startswith_sep (c : ascii) (s : string) :
  Str.startswith (String c s) "/" = Ascii.eqb c "/".
Proof.
  unfold Str.startswith. cbn [String.prefix]. rewrite prefix_nil.
  destruct (ascii_dec "/" c) as [E|E].
  - subst c. reflexivity.
  - symmetry. apply Ascii.eqb_neq. congruence.
Qed.

End StringFacts.

(* ===================================================================== *)
(** * Decimal notation *)
(* ===================================================================== *)

Section Decimal.

Lemma digit_char_spec (d : nat) :
  d < 10 -> is_digit (Str.digit_char d) /\ digit_val (Str.digit_char d) = d.
Proof.
  intros H. unfold is_digit, digit_val.
  do 10 (destruct d as [|d]; [vm_compute; lia|]). lia.
Qed.

Lemma digits_app (s t : string) : digits s -> digits t -> digits (s +:+ t).
Proof.
  induction s as [|c s IH]; [intros _ H; exact H|].
  intros [Hc Hs] Ht. rewrite app_cons. split; [exact Hc | apply IH; assumption].
Qed.

Lemma value_app (s t : string) :
  value (s +:+ t) = value s * 10 ^ String.length t + value t.
Proof.
  induction s as [|c s IH]; [reflexivity|].
  rewrite app_cons. cbn [value]. rewrite IH, length_app, Nat.pow_add_r. lia.
Qed.

Lemma value_bound (s : string) : digits s -> value s < 10 ^ String.length s.
Proof.
  induction s as [|c s IH]; [simpl; lia|].
  intros [Hc Hs]. specialize (IH Hs). cbn [value String.length].
  unfold is_digit in Hc. unfold digit_val.
  rewrite Nat.pow_succ_r'. nia.
Qed.

(** With enough fuel [decimal] writes [n], in at least one digit. *)
Lemma decimal_spec (fuel n : nat) :
  n < fuel ->
  digits (Str.decimal fuel n) /\ value (Str.decimal fuel n) = n
  /\ 0 < String.length (Str.decimal fuel n).
Proof.
  revert n. induction fuel as [|fuel IH]; intros n Hn; [lia|].
  cbn [Str.decimal]. destruct (n <? 10) eqn:Hlt.
  - apply Nat.ltb_lt in Hlt. destruct (digit_char_spec n Hlt) as [Hd Hv].
    cbn [digits value String.length]. rewrite Hv.
    split; [split; [exact Hd | exact I] | split; simpl; lia].
  - apply Nat.ltb_ge in Hlt.
    assert (Hq : n / 10 < fuel).
    { pose proof (Nat.div_lt n 10). lia. }
    destruct (IH _ Hq) as (Hd & Hv & Hl).
    assert (Hm : n mod 10 < 10) by (apply Nat.mod_upper_bound; lia).
    destruct (digit_char_spec _ Hm) as [Hdm Hvm].
    split; [|split].
    + apply digits_app; [exact Hd | split; [exact Hdm | exact I]].
    + rewrite value_app, Hv. cbn [value String.length Nat.pow]. rewrite Hvm.
      pose proof (Nat.div_mod_eq n 10). lia.
    + rewrite length_app. cbn [String.length]. lia.
Qed.

(** A larger number is not written shorter. *)
Lemma decimal_length_mono (f1 f2 n m : nat) :
  n < f1 -> m < f2 -> n <= m ->
  String.length (Str.decimal f1 n) <= String.length (Str.decimal f2 m).
Proof.
  revert f2 n m. induction f1 as [|f1 IH]; intros f2 n m Hn Hm Hle; [lia|].
  destruct f2 as [|f2]; [lia|]. cbn [Str.decimal].
  destruct (n <? 10) eqn:Hn10; destruct (m <? 10) eqn:Hm10.
  - cbn [String.length]. lia.
  - rewrite length_app. cbn [String.length]. lia.
  - apply Nat.ltb_lt in Hm10. apply Nat.ltb_ge in Hn10. lia.
  - apply Nat.ltb_ge in Hn10. apply Nat.ltb_ge in Hm10.
    rewrite !length_app. cbn [String.length].
    assert (String.length (Str.decimal f1 (n / 10))
            <= String.length (Str.decimal f2 (m / 10))).
    { apply IH.
      - pose proof (Nat.div_lt n 10). lia.
      - pose proof (Nat.div_lt m 10). lia.
      - apply Nat.Div0.div_le_mono. exact Hle. }
    lia.
Qed.

Lemma str_digits (n : nat) : digits (Str.str n).
Proof. apply decimal_spec. lia. Qed.

Lemma str_value (n : nat) : value (Str.str n) = n.
Proof. apply decimal_spec. lia. Qed.

Lemma str_length_mono (n m : nat) :
  n <= m -> String.length (Str.str n) <= String.length (Str.str m).
Proof. intros H. apply decimal_length_mono; lia. Qed.

Lemma zeros_digits (k : nat) : digits (Str.repeat "0" k).
Proof.
  induction k as [|k IH]; [exact I|].
  cbn [Str.repeat]. rewrite app_cons. split; [unfold is_digit; vm_compute; lia | exact IH].
Qed.

Lemma zeros_value (k : nat) (s : string) : value (Str.repeat "0" k +:+ s) = value s.
Proof.
  induction k as [|k IH]; [reflexivity|].
  cbn [Str.repeat]. rewrite !app_cons, str_app_nil_l. cbn [value].
  rewrite IH. reflexivity.
Qed.

(** On digit strings of one length, the order of the strings is the
    order of the numbers. *)
Lemma value_lt_compare (s t : string) :
  digits s -> digits t -> String.length s = String.length t ->
  value s < value t -> String.compare s t = Lt.
Proof.
  revert t. induction s as [|c s IH]; intros [|d t] Hs Ht Hlen Hv;
    cbn [String.length value digits String.compare] in *; try lia.
  destruct Hs as [Hc Hs], Ht as [Hd Ht].
  injection Hlen as Hlen.
  pose proof (value_bound s Hs) as Bs. pose proof (value_bound t Ht) as Bt.
  rewrite Hlen in Bs, Hv.
  rewrite ascii_compare_nat.
  unfold is_digit in Hc, Hd. unfold digit_val in Hv.
  set (p := 10 ^ String.length t) in *.
  destruct (Nat.compare_spec (nat_of_ascii c) (nat_of_ascii d)) as [E|L|G].
  - rewrite E in Hv. apply IH; [assumption | assumption | exact Hlen | lia].
  - reflexivity.
  - exfalso.
    assert (nat_of_ascii d - 48 + 1 <= nat_of_ascii c - 48) by lia.
    nia.
Qed.

End Decimal.

(* ===================================================================== *)
(** * Depth suffixes and file names *)
(* ===================================================================== *)

Section ZToString.

Lemma z_to_string_padded (z L : nat) :
  z_to_string z L = zero_padded (String.length (Str.str L)) (Str.str z).
Proof.
  unfold z_to_string, zero_padded.
  destruct (0 <? _)%Z eqn:Hd.
  - apply Z.ltb_lt in Hd. f_equal. f_equal. lia.
  - apply Z.ltb_ge in Hd.
    replace (String.length (Str.str L) - String.length (Str.str z)) with 0 by lia.
    reflexivity.
Qed.

Lemma z_to_string_length (z L : nat) :
  z <= L -> String.length (z_to_string z L) = String.length (Str.str L).
Proof.
  intros Hle. rewrite z_to_string_padded. unfold zero_padded.
  rewrite length_app, length_repeat_char.
  pose proof (str_length_mono z L Hle). lia.
Qed.

Lemma z_to_string_digits (z L : nat) : digits (z_to_string z L).
Proof.
  rewrite z_to_string_padded. apply digits_app; [apply zeros_digits | apply str_digits].
Qed.

Lemma z_to_string_value (z L : nat) : value (z_to_string z L) = z.
Proof.
  rewrite z_to_string_padded. unfold zero_padded. rewrite zeros_value. apply str_value.
Qed.

Lemma z_to_string_lt (z1 z2 L : nat) :
  z1 < z2 -> z2 <= L -> Str.lt (z_to_string z1 L) (z_to_string z2 L).
Proof.
  intros H12 H2. apply value_lt_compare.
  - apply z_to_string_digits.
  - apply z_to_string_digits.
  - rewrite !z_to_string_length by lia. reflexivity.
  - rewrite !z_to_string_value. exact H12.
Qed.

(** [path.join] looks at the first character of its second argument
    only: names that start the same way are joined the same way. *)
Lemma join_common_prefix (a : string) (c : ascii) (b : string) :
  exists pre, forall t, path.join a (String c b +:+ t) = pre +:+ t.
Proof.
  unfold path.join.
  destruct (Ascii.eqb c "/") eqn:Hc.
  - exists (String c b). intros t. rewrite app_cons, startswith_sep, Hc. reflexivity.
  - destruct (String.eqb a "" || Str.endswith a "/") eqn:Hsep.
    + exists (a +:+ String c b). intros t.
      rewrite app_cons, startswith_sep, Hc, str_app_assoc. reflexivity.
    + exists (a +:+ "/" +:+ String c b). intros t.
      rewrite app_cons, startswith_sep, Hc, !str_app_assoc. reflexivity.
Qed.

(** The files of one channel differ in the depth suffix only. *)
Lemma img_file_shape (base_name channel_path : string) (channel L : nat) :
  exists pre, forall z,
    img_file_of base_name channel_path channel z L = pre +:+ z_to_string z L +:+ ".png".
Proof.
  unfold img_file_of.
  set (head := base_name +:+ "c" +:+ Str.str (channel + 1) +:+ "z").
  assert (Hhead : exists c b, head = String c b).
  { unfold head. destruct base_name as [|c b]; [exists "c"%char | exists c];
      eexists; reflexivity. }
  destruct Hhead as (c & b & Hcb).
  destruct (join_common_prefix channel_path c b) as [pre Hpre].
  exists pre. intros z.
  replace ((base_name +:+ "c" +:+ Str.str (channel + 1) +:+ "z" +:+ z_to_string z L)
           +:+ ".png")
    with (head +:+ z_to_string z L +:+ ".png").
  - rewrite Hcb. apply Hpre.
  - unfold head. rewrite !str_app_assoc. reflexivity.
Qed.

End ZToString.

Section Saves.

Variable P : string -> Prop.

Lemma saves_unlogged {A} (m : M A) :
  (forall w, log (m w).2 = log w) -> saves_only P m.
Proof. intros H w p out Hin. left. rewrite H in Hin. exact Hin. Qed.

Lemma saves_other {A} (m : M A) :
  (forall w, log (m w).2 = log w
             \/ exists e, log (m w).2 = log w ++ [e] /\ forall p out, e <> Imsave p out) ->
  saves_only P m.
Proof.
  intros H w p out Hin. left. destruct (H w) as [E | (e & E & Hne)].
  - rewrite E in Hin. exact Hin.
  - rewrite E in Hin. apply in_app_or in Hin. destruct Hin as [Hin|[Hin|[]]].
    + exact Hin.
    + exfalso. exact (Hne p out Hin).
Qed.

Lemma saves_lift {A} (r : result A) : saves_only P (lift r).
Proof. apply saves_unlogged. reflexivity. Qed.

Lemma saves_ret {A} (a : A) : saves_only P (ret a).
Proof. apply saves_unlogged. reflexivity. Qed.

Lemma saves_sys_exit {A} (code : option Z) : saves_only P (@sys_exit A code).
Proof. apply saves_unlogged. reflexivity. Qed.

Lemma saves_path_exists (p : string) : saves_only P (path_exists p).
Proof. apply saves_unlogged. reflexivity. Qed.

Lemma saves_input (msg : string) : saves_only P (input msg).
Proof.
  apply saves_other. intros w. right. exists (Prompt msg). unfold input.
  destruct (stdin w); (split; [reflexivity | discriminate]).
Qed.

Lemma saves_makedirs (p : string) : saves_only P (makedirs p).
Proof.
  apply saves_other. intros w. unfold makedirs. destruct (fs w !! p).
  - left. reflexivity.
  - right. exists (Makedirs p). split; [reflexivity | discriminate].
Qed.

Lemma saves_rmtree (p : string) : saves_only P (rmtree p).
Proof.
  apply saves_other. intros w. unfold rmtree.
  destruct (fs w !! p) as [[|c]|]; try (left; reflexivity).
  right. exists (Rmtree p). split; [reflexivity | discriminate].
Qed.

Lemma saves_imsave (p : string) (img : ndarray Z) : P p -> saves_only P (imsave p img).
Proof.
  intros Hp w q out Hin. unfold imsave in Hin.
  destruct (writable (fs w) p); [|left; exact Hin].
  cbn [snd emit with_fs log] in Hin. apply in_app_or in Hin.
  destruct Hin as [Hin|[Hin|[]]]; [left; exact Hin|].
  right. injection Hin as <- _. exact Hp.
Qed.

Lemma saves_bind {A B} (m : M A) (k : A -> M B) :
  saves_only P m -> (forall a, saves_only P (k a)) -> saves_only P (bind m k).
Proof.
  intros Hm Hk w p out Hin. unfold bind in Hin.
  specialize (Hm w p out).
  destruct (m w) as [[a|e] w1]; cbn [snd] in Hm; [|apply Hm; exact Hin].
  destruct (Hk a w1 p out Hin) as [H|H]; [apply Hm; exact H | right; exact H].
Qed.

Lemma saves_for {A} (l : list A) (body : A -> M unit) :
  (forall x, In x l -> saves_only P (body x)) -> saves_only P (for_ l body).
Proof.
  induction l as [|x l IH]; intros Hbody; [apply saves_ret|].
  cbn [for_]. apply saves_bind.
  - apply Hbody. left. reflexivity.
  - intros _. apply IH. intros y Hy. apply Hbody. right. exact Hy.
Qed.

Lemma saves_channel_dir_step (p : string) : saves_only P (channel_dir_step p).
Proof.
  unfold channel_dir_step.
  apply saves_bind; [apply saves_path_exists|]. intros e.
  destruct (negb e); [apply saves_makedirs|].
  apply saves_bind; [apply saves_input|]. intros confirm.
  apply saves_bind.
  - destruct (declines confirm); [apply saves_sys_exit | apply saves_ret].
  - intros _. apply saves_bind; [apply saves_rmtree|]. intros _. apply saves_makedirs.
Qed.

End Saves.

Section DepthSuffix.

(** Where [join] puts a name that is not empty. *)
Lemma join_dir (a : string) (k : ascii) (b : string) :
  exists dir, forall t, path.join a (String k b +:+ t) = dir +:+ String k b +:+ t.
Proof.
  unfold path.join. destruct (Ascii.eqb k "/") eqn:Hk.
  - exists "". intros t. rewrite app_cons, startswith_sep, Hk. reflexivity.
  - destruct (String.eqb a "" || Str.endswith a "/") eqn:Hsep.
    + exists a. intros t. rewrite app_cons, startswith_sep, Hk. reflexivity.
    + exists (a +:+ "/"). intros t.
      rewrite app_cons, startswith_sep, Hk, !str_app_assoc. reflexivity.
Qed.

(** The images of a channel are those of the depths below the length of
    the Z axis, named with that length. *)
Lemma channel_step_saves (image : ndarray Z) (nbits : ini_value)
    (base_name base_dir : string) (z_idx channel L : nat) :
  shape_at image z_idx = Ok L ->
  saves_only
    (fun p => exists z, z < L
                        /\ p = img_file_of base_name (channel_path_of base_dir channel)
                                 channel z L)
    (channel_step image nbits base_name base_dir z_idx channel).
Proof.
  intros HL. unfold channel_step. fold (channel_path_of base_dir channel).
  apply saves_bind; [apply saves_channel_dir_step|]. intros _.
  rewrite HL. intros w. unfold bind at 1, lift at 1. revert w.
  apply saves_for. intros z Hz. apply in_seq in Hz. unfold write_slice.
  apply saves_bind; [apply saves_lift|]. intros out_img.
  apply saves_imsave. exists z. split; [lia | reflexivity].
Qed.

End DepthSuffix.

(** C4 (as amended): [channel_step] names the images of a channel with the
    length [L] of the Z axis, not with the last index. For [L >= 1] every
    image that it saves is the file of a depth [z <= L - 1], and the name
    of that file ends with [base_name], [c], the channel number, [z], the
    depth filled with zeros to the width of [str(L)], and [.png]; so all
    depth suffixes of a volume have the length of [str(L)]. *)
Theorem depth_suffix_width (image : ndarray Z) (nbits : ini_value)
    (base_name base_dir : string) (z_idx channel L : nat) (w : world) :
  shape_at image z_idx = Ok L ->
  1 <= L ->
  exists dir,
    (forall p out,
       In (Imsave p out)
          (log (channel_step image nbits base_name base_dir z_idx channel w).2) ->
       In (Imsave p out) (log w)
       \/ exists z, z <= L - 1
                    /\ p = img_file_of base_name (channel_path_of base_dir channel)
                             channel z L)
    /\ (forall z, z <= L - 1 ->
          img_file_of base_name (channel_path_of base_dir channel) channel z L
          = dir +:+ base_name +:+ "c" +:+ Str.str (channel + 1) +:+ "z"
              +:+ zero_padded (String.length (Str.str L)) (Str.str z) +:+ ".png"
          /\ String.length (zero_padded (String.length (Str.str L)) (Str.str z))
             = String.length (Str.str L)).
Proof.
  intros HL HL1.
  assert (Hhead : exists k b, base_name +:+ "c" = String k b).
  { destruct base_name as [|k b]; [exists "c"%char, "" | exists k, (b +:+ "c")];
      reflexivity. }
  destruct Hhead as (k & b & Hkb).
  destruct (join_dir (channel_path_of base_dir channel) k b) as [dir Hdir].
  exists dir. split.
  - intros p out Hin.
    destruct (channel_step_saves image nbits base_name base_dir z_idx channel L HL
                w p out Hin) as [H | (z & Hz & Hp)].
    + left. exact H.
    + right. exists z. split; [lia | exact Hp].
  - intros z Hz. split.
    + unfold img_file_of.
      replace ((base_name +:+ "c" +:+ Str.str (channel + 1) +:+ "z" +:+ z_to_string z L)
               +:+ ".png")
        with (String k b +:+ Str.str (channel + 1) +:+ "z" +:+ z_to_string z L +:+ ".png")
        by (rewrite <- Hkb, !str_app_assoc; reflexivity).
      rewrite Hdir, z_to_string_padded, <- Hkb, !str_app_assoc. reflexivity.
    + rewrite <- z_to_string_padded. apply z_to_string_length. lia.
Qed.

Lemma depth_suffix_width_witness :
  let w := world_with cz_oif (job (PFloat (13 # 2))) ["/tmp/out/emb"] [] in
  exists dir,
    (forall p out,
       In (Imsave p out)
          (log (channel_step ten_deep (IInt 8) "emb" "/tmp/out/emb" 1 0 w).2) ->
       In (Imsave p out) (log w)
       \/ exists z, z <= 10 - 1
                    /\ p = img_file_of "emb" (channel_path_of "/tmp/out/emb" 0) 0 z 10)
    /\ (forall z, z <= 10 - 1 ->
          img_file_of "emb" (channel_path_of "/tmp/out/emb" 0) 0 z 10
          = dir +:+ "emb" +:+ "c" +:+ Str.str (0 + 1) +:+ "z"
              +:+ zero_padded (String.length (Str.str 10)) (Str.str z) +:+ ".png"
          /\ String.length (zero_padded (String.length (Str.str 10)) (Str.str z))
             = String.length (Str.str 10)).
Proof.
  apply (depth_suffix_width ten_deep (IInt 8) "emb" "/tmp/out/emb" 1 0 10
           (world_with cz_oif (job (PFloat (13 # 2))) ["/tmp/out/emb"] [])).
  - reflexivity.
  - lia.
Defined.

(** C4 as stated fails on the script: for a Z axis of ten depths the
    image of depth 3 is saved as [embc1z03.png], with a suffix of two
    characters, and no image is saved as [embc1z3.png], the name that the
    width of [str(9)] would give. *)
Lemma depth_suffix_width_of_last_index_fails :
  let w := world_with cz_oif (job (PFloat (13 # 2))) ["/tmp/out/emb"] [] in
  let w' := (channel_step ten_deep (IInt 8) "emb" "/tmp/out/emb" 1 0 w).2 in
  shape_at ten_deep 1 = Ok 10
  /\ In (Imsave "/tmp/out/emb/Channel1/embc1z03.png" (px 0)) (log w')
  /\ (forall out, ~ In (Imsave "/tmp/out/emb/Channel1/embc1z3.png" out) (log w'))
  /\ String.length "03" <> String.length (Str.str (10 - 1)).
Proof.
  cbv zeta. split; [reflexivity|]. split; [vm_compute; auto 20|]. split.
  - intros out H. vm_compute in H.
    repeat (destruct H as [H|H]; [discriminate H|]). exact H.
  - vm_compute. discriminate.
Qed.

Example depth_suffixes :
  z_to_string 0 1 = "0" /\ z_to_string 8 9 = "8" /\ z_to_string 9 10 = "09"
  /\ z_to_string 98 99 = "98" /\ z_to_string 5 100 = "005".
Proof. repeat split. Qed.

(** C5: for a Z axis of length [L >= 1] and depth indices
    [z1 < z2 <= L - 1], the file written for [z1] comes before the file
    written for [z2] in the order of strings. *)
Theorem img_files_sorted (base_name channel_path : string) (channel L z1 z2 : nat) :
  1 <= L -> z1 < z2 -> z2 <= L - 1 ->
  Str.lt (img_file_of base_name channel_path channel z1 L)
         (img_file_of base_name channel_path channel z2 L).
Proof.
  intros HL H12 H2.
  destruct (img_file_shape base_name channel_path channel L) as [pre Hpre].
  rewrite !Hpre. unfold Str.lt. rewrite compare_app_l.
  apply compare_app_r_lt.
  - rewrite !z_to_string_length by lia. reflexivity.
  - apply z_to_string_lt; lia.
Qed.

Lemma img_files_sorted_witness :
  Str.lt (img_file_of "emb" "/tmp/out/emb/Channel1" 0 9 100)
         (img_file_of "emb" "/tmp/out/emb/Channel1" 0 10 100).
Proof. apply (img_files_sorted "emb" "/tmp/out/emb/Channel1" 0 100 9 10); lia. Defined.

(* ===================================================================== *)
(** * Rescaling *)
(* ===================================================================== *)

Lemma nd_map_ext {A B} (f g : A -> B) (a : ndarray A) :
  (forall x, f x = g x) -> Nd.map f a = Nd.map g a.
Proof.
  intros Hfg. induction a as [x|l IH] using ndarray_nested_ind.
  - cbn [Nd.map]. rewrite Hfg. reflexivity.
  - cbn [Nd.map]. f_equal. induction IH as [|x l Hx _ IHl]; [reflexivity|].
    cbn [List.map]. rewrite Hx, IHl. reflexivity.
Qed.

Lemma nd_map_map {A B C} (f : A -> B) (g : B -> C) (a : ndarray A) :
  Nd.map g (Nd.map f a) = Nd.map (fun x => g (f x)) a.
Proof.
  induction a as [x|l IH] using ndarray_nested_ind; [reflexivity|].
  cbn [Nd.map]. f_equal. induction IH as [|x l Hx _ IHl]; [reflexivity|].
  cbn [List.map]. rewrite Hx, IHl. reflexivity.
Qed.

Section Scale.

Local Open Scope Q_scope.

Variable B : Z.
Hypothesis HB : (1 <= B)%Z.

Lemma full_scale_pos : (0 < 2 ^ B - 1)%Z.
Proof.
  assert (2 ^ 1 <= 2 ^ B)%Z by (apply Z.pow_le_mono_r; lia).
  change (2 ^ 1)%Z with 2%Z in H. lia.
Qed.

Lemma pow2_inject : pow2 B == inject_Z (2 ^ B).
Proof. unfold pow2. rewrite Zpower_Qpower by lia. reflexivity. Qed.

Lemma denominator_full : pow2 B - 1 - 0 == inject_Z (2 ^ B - 1).
Proof.
  rewrite pow2_inject. unfold Z.sub. rewrite inject_Z_plus.
  change (inject_Z (- (1))) with (- (1))%Q. ring.
Qed.

Lemma denominator_pos : 0 < pow2 B - 1 - 0.
Proof.
  rewrite denominator_full. change 0 with (inject_Z 0).
  rewrite <- Zlt_Qlt. apply full_scale_pos.
Qed.

Lemma inject_full_nonzero : ~ inject_Z (2 ^ B - 1) == 0.
Proof.
  intros H. pose proof full_scale_pos as Hp.
  rewrite Zlt_Qlt in Hp. rewrite H in Hp. discriminate.
Qed.

(** No division by zero from one bit on: every sample is rescaled. *)
Lemma scale_bit_image_map (image : ndarray Z) :
  scale_bit_image image B 0 0 255 = Ok (Nd.map (scaled B) image).
Proof.
  unfold scale_bit_image.
  destruct (Qeq_bool (pow2 B - 1 - 0) 0) eqn:E; [|reflexivity].
  apply Qeq_bool_eq in E. pose proof denominator_pos as Hpos.
  rewrite E in Hpos. discriminate.
Qed.

Lemma scaled_fraction (x : Z) : scaled B x == inject_Z (255 * x) / inject_Z (2 ^ B - 1).
Proof.
  unfold scaled. rewrite denominator_full, inject_Z_mult.
  change (inject_Z 255) with 255.
  field. exact inject_full_nonzero.
Qed.

Lemma scaled_mono (x y : Z) : (x <= y)%Z -> scaled B x <= scaled B y.
Proof.
  intros Hxy. unfold scaled.
  apply Qplus_le_compat; [|apply Qle_refl].
  apply Qmult_le_l.
  - apply Qlt_shift_div_l; [apply denominator_pos|]. reflexivity.
  - apply Qplus_le_compat; [|apply Qle_refl]. rewrite <- Zle_Qle. exact Hxy.
Qed.

End Scale.

Section Truncation.

Local Open Scope Q_scope.

(** [astype_int] is a function of the number, not of the fraction that
    writes it. *)
Lemma astype_int_comp (q r : Q) : q == r -> astype_int q = astype_int r.
Proof.
  unfold Qeq, astype_int. destruct q as [n d], r as [m e].
  cbn [Qnum Qden]. intros H.
  rewrite <- (Z.quot_mul_cancel_r n (Z.pos d) (Z.pos e)) by lia.
  rewrite <- (Z.quot_mul_cancel_r m (Z.pos e) (Z.pos d)) by lia.
  rewrite H. f_equal. lia.
Qed.

Lemma astype_int_fraction (a b : Z) :
  (0 < b)%Z -> astype_int (inject_Z a / inject_Z b) = trunc_div a b.
Proof.
  intros Hb. destruct b as [|p|p]; try lia.
  rewrite <- (astype_int_comp (a # p)); [reflexivity|].
  apply Qmake_Qdiv.
Qed.

Lemma astype_int_scaled (B x : Z) :
  (1 <= B)%Z -> astype_int (scaled B x) = trunc_div (255 * x) (2 ^ B - 1).
Proof.
  intros HB. rewrite (astype_int_comp _ _ (scaled_fraction B HB x)).
  apply astype_int_fraction. apply full_scale_pos. exact HB.
Qed.

End Truncation.

(** C2: for a bit depth [B >= 1], [scale_bit_image(x, B, 0, 0, 255)], in
    exact arithmetic, is 0 at [x = 0], 255 at [x = 2^B - 1], and does not
    decrease as [x] grows from 0 to [2^B - 1]. *)
Theorem scale_bit_image_range (B : Z) :
  (1 <= B)%Z ->
  exists f : Z -> Q,
    (forall x, scale_bit_image (Scalar x) B 0 0 255 = Ok (Scalar (f x)))
    /\ (f 0%Z == 0)%Q
    /\ (f (2 ^ B - 1)%Z == 255)%Q
    /\ (forall x y, (0 <= x)%Z -> (x <= y)%Z -> (y <= 2 ^ B - 1)%Z -> (f x <= f y)%Q).
Proof.
  intros HB. exists (scaled B). split; [|split; [|split]].
  - intros x. apply (scale_bit_image_map B HB (Scalar x)).
  - unfold scaled. change (inject_Z 0) with 0%Q. ring.
  - rewrite (scaled_fraction B HB).
    rewrite inject_Z_mult. change (inject_Z 255) with 255%Q. field.
    apply inject_full_nonzero. exact HB.
  - intros x y _ Hxy _. apply scaled_mono; assumption.
Qed.

Lemma scale_bit_image_range_witness :
  exists f : Z -> Q,
    (forall x, scale_bit_image (Scalar x) 12 0 0 255 = Ok (Scalar (f x)))
    /\ (f 0%Z == 0)%Q
    /\ (f (2 ^ 12 - 1)%Z == 255)%Q
    /\ (forall x y, (0 <= x)%Z -> (x <= y)%Z -> (y <= 2 ^ 12 - 1)%Z -> (f x <= f y)%Q).
Proof. apply (scale_bit_image_range 12). lia. Defined.

Section Binary64.

Lemma all_from_spec (fuel : nat) (x : Z) (p : Z -> bool) :
  all_from fuel x p = true ->
  forall y, (x <= y < x + Z.of_nat fuel)%Z -> p y = true.
Proof.
  revert x. induction fuel as [|k IH]; intros x H y Hy; [lia|].
  cbn [all_from] in H. apply andb_true_iff in H. destruct H as [Hx H].
  destruct (Z.eq_dec y x) as [->|Hne]; [exact Hx|].
  apply (IH (x + 1)%Z H). lia.
Qed.

Lemma rescale_agrees_depths : all_from 16 1 rescale_agrees = true.
Proof. vm_compute. reflexivity. Qed.

Lemma multiples_agree_depths : all_from 16 1 multiples_agree = true.
Proof. vm_compute. reflexivity. Qed.

Lemma pow2_iter (k : positive) : Z.pos (Pos.iter xO 1%positive k) = (2 ^ Z.pos k)%Z.
Proof.
  induction k as [|k IH] using Pos.peano_ind.
  - reflexivity.
  - rewrite Pos.iter_succ, Pos2Z.inj_succ, Z.pow_succ_r by lia.
    rewrite <- IH. reflexivity.
Qed.

(** Dropping the fraction, on a rational. *)
Lemma quot_truncates (n : Z) (d : positive) : truncates (n # d) (Z.quot n (Z.pos d)).
Proof.
  pose proof (Z.quot_rem' n (Z.pos d)) as Hqr.
  unfold truncates, Qle, Qlt. cbn [Qnum Qden inject_Z Qplus Qminus Qopp].
  rewrite !Z.mul_1_r, ?Pos.mul_1_l. split.
  - intros Hn. assert (Hn' : (0 <= n)%Z) by lia.
    pose proof (Z.rem_bound_pos n (Z.pos d) Hn' ltac:(lia)). nia.
  - intros Hn. assert (Hn' : (n <= 0)%Z) by lia.
    pose proof (Z.rem_bound_pos_neg n (Z.pos d) ltac:(lia) Hn'). nia.
Qed.

(** [F64.trunc] drops the fraction of the number the double stands for. *)
Lemma trunc_truncates (f : spec_float) : truncates (F64.to_Q f) (F64.trunc f).
Proof.
  assert (Hint : forall n : Z, truncates (inject_Z n) n).
  { intros n. pose proof (quot_truncates n 1) as H.
    rewrite Z.quot_1_r in H. exact H. }
  destruct f as [s|s| |s m e]; try apply (Hint 0%Z).
  unfold F64.to_Q, F64.trunc. destruct e as [|e|k].
  - destruct s; cbn [cond_Zopp]; rewrite ?Z.mul_opp_l; apply Hint.
  - destruct s; cbn [cond_Zopp]; rewrite ?Z.mul_opp_l; apply Hint.
  - pose proof (quot_truncates (cond_Zopp s (Z.pos m)) (Pos.iter xO 1%positive k)) as H.
    rewrite pow2_iter in H.
    replace (Z.quot (cond_Zopp s (Z.pos m)) (2 ^ Z.pos k))
      with (cond_Zopp s (Z.shiftr (Z.pos m) (Z.pos k))) in H; [exact H|].
    rewrite Z.shiftr_div_pow2 by lia.
    rewrite <- Z.quot_div_nonneg by lia.
    destruct s; cbn [cond_Zopp]; [|reflexivity].
    rewrite Z.quot_opp_l by lia. reflexivity.
Qed.

Lemma nd_map_ext_in {A B} (p : A -> bool) (f g : A -> B) (a : ndarray A) :
  Nd.forallb p a = true -> (forall x, p x = true -> f x = g x) ->
  Nd.map f a = Nd.map g a.
Proof.
  intros Hp Hfg. induction a as [x|l IH] using ndarray_nested_ind.
  - cbn [Nd.map]. rewrite (Hfg x Hp). reflexivity.
  - cbn [Nd.map]. f_equal. cbn [Nd.forallb] in Hp.
    induction IH as [|x l Hx _ IHl]; [reflexivity|].
    cbn [List.forallb] in Hp. apply andb_true_iff in Hp. destruct Hp as [Hpx Hpl].
    cbn [List.map]. rewrite (Hx Hpx), (IHl Hpl). reflexivity.
Qed.

Lemma nd_forallb_map {A B} (p : A -> bool) (q : B -> bool) (f : A -> B) (a : ndarray A) :
  Nd.forallb p a = true -> (forall x, p x = true -> q (f x) = true) ->
  Nd.forallb q (Nd.map f a) = true.
Proof.
  intros Hp Hq. induction a as [x|l IH] using ndarray_nested_ind.
  - cbn [Nd.map Nd.forallb]. apply Hq. exact Hp.
  - cbn [Nd.map Nd.forallb]. cbn [Nd.forallb] in Hp.
    induction IH as [|x l Hx _ IHl]; [reflexivity|].
    cbn [List.forallb] in Hp. apply andb_true_iff in Hp. destruct Hp as [Hpx Hpl].
    cbn [List.map List.forallb]. rewrite (Hx Hpx), (IHl Hpl). reflexivity.
Qed.

Lemma fits_int64_bounds (f : spec_float) :
  F64.is_finite f = true -> (- 2 ^ 63 <= F64.trunc f < 2 ^ 63)%Z ->
  F64.fits_int64 f = true.
Proof.
  intros Hf [Hlo Hhi]. unfold F64.fits_int64. rewrite Hf.
  rewrite (proj2 (Z.leb_le _ _) Hlo), (proj2 (Z.ltb_lt _ _) Hhi). reflexivity.
Qed.

(** With the script's bounds and an integer bit depth from 1 to 16 the
    rescale fails nowhere. *)
Lemma scale_f64_script (plane : ndarray Z) (B : Z) :
  (1 <= B <= 16)%Z ->
  scale_bit_image_f64 plane (NInt B) (NInt 0) (NInt 0) (NInt 255)
  = Ok (Nd.map (scaled_f64 B) plane).
Proof.
  intros HB.
  pose proof (all_from_spec _ _ _ rescale_agrees_depths B ltac:(lia)) as Hq.
  unfold rescale_agrees in Hq. apply andb_true_iff in Hq. destruct Hq as [Hq _].
  unfold scale_bit_image_f64, py_pow2.
  rewrite (proj2 (Z.leb_le 0 B)) by lia. cbn [py_sub]. unfold py_truediv.
  pose proof (full_scale_pos B ltac:(lia)) as Hpos.
  rewrite (proj2 (Z.eqb_neq (2 ^ B - 1 - 0) 0)) by lia.
  rewrite Hq. reflexivity.
Qed.

(** The slice of a plane whose samples all satisfy [p], when the double
    of each such sample is finite with the integer part [g]. *)
Lemma slice_of_pointwise (image by_channel plane : ndarray Z) (channel z : nat) (B : Z)
    (p : Z -> bool) (g : Z -> Z) :
  (1 <= B <= 16)%Z ->
  Nd.getitem image channel = Ok by_channel ->
  Nd.getitem by_channel z = Ok plane ->
  Nd.forallb p plane = true ->
  (forall px, p px = true ->
     F64.is_finite (scaled_f64 B px) = true /\ F64.trunc (scaled_f64 B px) = g px
     /\ (- 2 ^ 63 <= g px < 2 ^ 63)%Z) ->
  slice_of image (IInt B) channel z = Ok (Nd.map g plane).
Proof.
  intros HB Hc Hz Hp Hg. unfold slice_of. rewrite Hc. cbn [rbind]. rewrite Hz.
  cbn [rbind pynum_of_ini]. rewrite (scale_f64_script plane B HB). cbn [rbind].
  unfold astype_int_f64. rewrite (nd_forallb_map p).
  - rewrite nd_map_map. f_equal. apply (nd_map_ext_in p); [exact Hp|].
    intros px Hpx. apply Hg. exact Hpx.
  - exact Hp.
  - intros px Hpx. destruct (Hg px Hpx) as (Hf & Ht & Hb).
    apply fits_int64_bounds; [exact Hf|]. rewrite Ht. exact Hb.
Qed.

(** What the exhaustive checks say of one sample. *)
Lemma scaled_f64_in_depth (B px : Z) :
  (1 <= B <= 16)%Z -> in_depth B px = true ->
  F64.is_finite (scaled_f64 B px) = true
  /\ F64.trunc (scaled_f64 B px) = trunc_div (255 * px) (2 ^ B - 1).
Proof.
  intros HB Hpx.
  pose proof (all_from_spec _ _ _ rescale_agrees_depths B ltac:(lia)) as H.
  unfold rescale_agrees in H. apply andb_true_iff in H. destruct H as [_ H].
  unfold in_depth in Hpx. apply andb_true_iff in Hpx. destruct Hpx as [Hlo Hhi].
  apply Z.leb_le in Hlo. apply Z.leb_le in Hhi.
  assert (Hpow : (0 < 2 ^ B)%Z) by (apply Z.pow_pos_nonneg; lia).
  pose proof (all_from_spec _ _ _ H px ltac:(rewrite Z2Nat.id by lia; lia)) as Hx.
  cbv beta zeta in Hx. apply andb_true_iff in Hx. destruct Hx as [Hf Ht].
  apply Z.eqb_eq in Ht. split; [exact Hf | exact Ht].
Qed.

Lemma scaled_f64_multiple (B k : Z) :
  (1 <= B <= 16)%Z -> (-256 <= k <= 256)%Z ->
  F64.is_finite (scaled_f64 B (k * (2 ^ B - 1))) = true
  /\ F64.trunc (scaled_f64 B (k * (2 ^ B - 1))) = (255 * k)%Z.
Proof.
  intros HB Hk.
  pose proof (all_from_spec _ _ _ multiples_agree_depths B ltac:(lia)) as H.
  unfold multiples_agree in H.
  pose proof (all_from_spec _ _ _ H k ltac:(lia)) as Hx.
  cbv beta zeta in Hx. apply andb_true_iff in Hx. destruct Hx as [Hf Ht].
  apply Z.eqb_eq in Ht. split; [exact Hf | exact Ht].
Qed.

End Binary64.

(** C9: what [write_slice] hands to the encoder. When it returns, the
    plane [image[channel][z]] was rescaled to an array of doubles, and the
    array saved under the slice's name holds, for each of these doubles,
    its integer part: the number with its fractional part dropped, which
    lies at or below a value that is not negative, at or above one that is
    not positive, and less than one away. Nothing is rounded to the
    nearest integer. *)
Theorem slice_truncated (image : ndarray Z) (nbits : ini_value)
    (base_name channel_path : string) (channel z_len z : nat) (w w' : world) :
  write_slice image nbits base_name channel_path channel z_len z w = (Ok tt, w') ->
  exists by_channel plane bits scaled (trunc : spec_float -> Z),
    Nd.getitem image channel = Ok by_channel
    /\ Nd.getitem by_channel z = Ok plane
    /\ pynum_of_ini nbits = Ok bits
    /\ scale_bit_image_f64 plane bits (NInt 0) (NInt 0) (NInt 255) = Ok scaled
    /\ (forall f, truncates (F64.to_Q f) (trunc f))
    /\ log w' = log w ++ [Imsave (img_file_of base_name channel_path channel z z_len)
                            (Nd.map trunc scaled)]
    /\ fs w' !! img_file_of base_name channel_path channel z z_len
       = Some (File (Png (Nd.map trunc scaled))).
Proof.
  unfold write_slice, bind, lift, slice_of.
  destruct (Nd.getitem image channel) as [by_channel|e] eqn:Hc; [|discriminate].
  cbn [rbind].
  destruct (Nd.getitem by_channel z) as [plane|e] eqn:Hz; [|discriminate].
  cbn [rbind].
  destruct (pynum_of_ini nbits) as [bits|e] eqn:Hb; [|discriminate].
  cbn [rbind].
  destruct (scale_bit_image_f64 plane bits (NInt 0) (NInt 0) (NInt 255))
    as [scaled|e] eqn:Hs; [|discriminate].
  cbn [rbind]. unfold astype_int_f64.
  destruct (Nd.forallb F64.fits_int64 scaled); [|discriminate].
  unfold imsave.
  destruct (writable (fs w) (img_file_of base_name channel_path channel z z_len));
    [|discriminate].
  intros [= <-].
  exists by_channel, plane, bits, scaled, F64.trunc.
  do 4 (split; [first [reflexivity | assumption]|]).
  split; [exact trunc_truncates|]. split; [reflexivity|].
  cbn [emit with_fs fs]. apply lookup_insert_eq.
Qed.

Lemma slice_truncated_witness :
  let w := world_with cz_oif (job (PFloat (13 # 2))) ["/tmp/out/emb/Channel1"] [] in
  let r := write_slice (Arr [Arr [px 6]]) (IInt 3) "emb" "/tmp/out/emb/Channel1" 0 1 0 w in
  (exists by_channel plane bits scaled (trunc : spec_float -> Z),
     Nd.getitem (Arr [Arr [px 6]]) 0 = Ok by_channel
     /\ Nd.getitem by_channel 0 = Ok plane
     /\ pynum_of_ini (IInt 3) = Ok bits
     /\ scale_bit_image_f64 plane bits (NInt 0) (NInt 0) (NInt 255) = Ok scaled
     /\ (forall f, truncates (F64.to_Q f) (trunc f))
     /\ log r.2 = log w ++ [Imsave (img_file_of "emb" "/tmp/out/emb/Channel1" 0 0 1)
                              (Nd.map trunc scaled)]
     /\ fs r.2 !! img_file_of "emb" "/tmp/out/emb/Channel1" 0 0 1
        = Some (File (Png (Nd.map trunc scaled))))
  /\ log r.2 = [Imsave "/tmp/out/emb/Channel1/embc1z0.png" (px 218)].
Proof.
  cbv zeta. split; [|vm_compute; reflexivity].
  apply (slice_truncated (Arr [Arr [px 6]]) (IInt 3) "emb" "/tmp/out/emb/Channel1" 0 1 0
           (world_with cz_oif (job (PFloat (13 # 2))) ["/tmp/out/emb/Channel1"] [])).
  vm_compute. reflexivity.
Defined.

(** At 3 bits the sample 6 becomes a double above 218.5 and is saved as
    218, not as the nearer 219. *)
Example sample_6_at_3_bits :
  exists v, scale_bit_image_f64 (Scalar 6%Z) (NInt 3) (NInt 0) (NInt 0) (NInt 255)
            = Ok (Scalar v)
            /\ (inject_Z 218 + (1 # 2) < F64.to_Q v)%Q
            /\ astype_int_f64 (Scalar v) = Ok (Scalar 218%Z).
Proof. eexists. split; [vm_compute; reflexivity|]. split; vm_compute; reflexivity. Qed.

(** Where binary64 leaves exact arithmetic: at 56 bits the sample
    [2^56 - 2] is not a double, becomes [2^56] and is saved as 255, while
    the integer part of the exact [255 * px / (2^56 - 1)] is 254. *)
Example rounding_at_56_bits :
  slice_of (Arr [Arr [px (2 ^ 56 - 2)]]) (IInt 56) 0 0 = Ok (px 255)
  /\ trunc_div (255 * (2 ^ 56 - 2)) (2 ^ 56 - 1) = 254%Z.
Proof. split; vm_compute; reflexivity. Qed.

(** A float [img_min] next to the full scale: [(2**60 - 1) - 2.0**60] is
    [0.0], and the division raises [ZeroDivisionError]. *)
Example float_img_min_zero_division :
  scale_bit_image_f64 (Scalar 1%Z) (NInt 60) (NFloat (F64.of_int (2 ^ 60))) (NInt 0)
    (NInt 255)
  = Raise ZeroDivisionError.
Proof. vm_compute. reflexivity. Qed.

(* ===================================================================== *)
(** * Axes *)
(* ===================================================================== *)

(** With channels on the first axis and depths on the second, the slice
    is made from the plane the volume holds at that channel and depth. *)
Lemma slice_of_channel_then_depth (image plane : ndarray Z) (nbits : ini_value)
    (channel z : nat) :
  plane_at image 0 channel 1 z = Some plane ->
  slice_of image nbits channel z
  = rbind (pynum_of_ini nbits) (fun bits =>
      rbind (scale_bit_image_f64 plane bits (NInt 0) (NInt 0) (NInt 255)) astype_int_f64).
Proof.
  unfold plane_at, slice_of. cbn [Nat.ltb Nat.leb Nat.sub].
  destruct image as [x|l]; [discriminate|]. cbn [take_axis Nd.getitem].
  destruct (nth_error l channel) as [bc|]; [|discriminate].
  cbn [mbind option_bind rbind].
  destruct bc as [x|l']; [discriminate|]. cbn [take_axis Nd.getitem].
  intros ->. reflexivity.
Qed.

(** C3 fails on the code: for a volume with axes [ZCYX] the script finds
    the channel axis at position 1 and the depth axis at position 0, and
    the plane at channel 0 and depth 1 holds the sample 20; the slice it
    writes as channel 1, depth 1 ([...c1z1.png]) is [image[0][1]], which
    holds the sample 11 of depth 0 and channel 1. *)
Theorem slice_ignores_axis_positions :
  let w := world_with zc_oif (job (PFloat (13 # 2))) [] [] in
  Dict.get (axes_dict_of (tiffs_axes zc_oif)) "C" = Some 1
  /\ Dict.get (axes_dict_of (tiffs_axes zc_oif)) "Z" = Some 0
  /\ plane_at zc_volume 1 0 0 1 = Some (px 20)
  /\ slice_of zc_volume (IInt 8) 0 1 = Ok (px 11)
  /\ In (Imsave "/tmp/out/emb/Channel1/embc1z1.png" (px 11))
        (log (main const_float_str ["job.json"] w).2).
Proof. vm_compute. repeat split; auto 20. Qed.

(** With three depths and two channels on axes [ZCYX] the same indexing
    runs out of range: the process ends with status 1 after the slices
    [image[0][0]] and [image[0][1]], without a record. *)
Example unequal_axes_index_error :
  let w := world_with zc_oif_3x2 (job (PFloat (13 # 2))) [] [] in
  let '(status, w') := run const_float_str ["job.json"] w in
  status = Some 1%Z
  /\ log w' = [ Makedirs "/tmp/out/emb"; Makedirs "/tmp/out/emb/Channel1";
                Imsave "/tmp/out/emb/Channel1/embc1z0.png" (px 10);
                Imsave "/tmp/out/emb/Channel1/embc1z1.png" (px 11) ]
  /\ slice_of zc_volume_3x2 (IInt 8) 0 2 = Raise IndexError.
Proof. vm_compute. repeat split. Qed.

(* ===================================================================== *)
(** * The metadata record *)
(* ===================================================================== *)

Lemma get_in_keys {V} (d : Dict.t V) (k : string) :
  In k (Dict.keys d) -> exists v, Dict.get d k = Some v.
Proof.
  induction d as [|[k' v'] d IH]; [intros []|].
  intros Hin. cbn [Dict.get]. destruct (String.eqb k' k) eqn:E; [eauto|].
  destruct Hin as [Hk|Hin]; [|auto].
  cbn [fst] in Hk. subst k'. rewrite String.eqb_refl in E. discriminate.
Qed.

(** Sorting gives the one sorted rearrangement. *)
Lemma sort_permutation_sorted (l l0 : list string) :
  l ≡ₚ l0 -> Sorted String.le l0 -> sort l = l0.
Proof.
  intros Hp Hs. unfold sort. apply (Sorted_unique String.le).
  - apply Sorted_merge_sort. apply _.
  - exact Hs.
  - rewrite merge_sort_Permutation. exact Hp.
Qed.

(** What is read from the container comes after the entries already in
    the record. *)
Lemma oif_metadata_extends (float_str : Q -> string)
    (mf : Dict.t (Dict.t ini_value)) (md md' : Dict.t pyval) (nbits : ini_value) :
  oif_metadata float_str mf md = Ok (md', nbits) ->
  exists dt h w dp,
    md' = Dict.set (Dict.set (Dict.set (Dict.set md "CaptureDateTime" dt)
                      "HeightConvert" (PStr h)) "WidthConvert" (PStr w))
            "DepthConvert" (PStr dp).
Proof.
  unfold oif_metadata.
  repeat match goal with
         | |- context [rbind ?r _] =>
             destruct r; cbn [rbind]; [|discriminate]
         end.
  match goal with |- context [match ?l with [] => _ | _ :: _ => _ end] =>
    destruct l; [discriminate|] end.
  repeat match goal with
         | |- context [rbind ?r _] =>
             destruct r; cbn [rbind]; [|discriminate]
         end.
  intros [= <- _]. eauto.
Qed.

(* ===================================================================== *)
(** * The command line *)
(* ===================================================================== *)

Section Getopt.

Lemma do_shorts_help (s : string) (opts opts' : list getopt.opt) :
  Forall is_help opts -> getopt.do_shorts opts s = Ok opts' -> Forall is_help opts'.
Proof.
  revert opts. induction s as [|c s IH]; intros opts Hall.
  - cbn [getopt.do_shorts]. intros [= <-]. exact Hall.
  - cbn [getopt.do_shorts]. destruct (Ascii.eqb c "h"); [|discriminate].
    apply IH. apply Forall_app. split; [exact Hall|]. repeat constructor.
Qed.

Lemma do_longs_help (s : string) (opts opts' : list getopt.opt) :
  Forall is_help opts -> getopt.do_longs opts s = Ok opts' -> Forall is_help opts'.
Proof.
  intros Hall. unfold getopt.do_longs. destruct (getopt.split_eq s) as [name optarg].
  destruct (Str.startswith "help" name); [|discriminate].
  destruct optarg; [discriminate|]. intros [= <-].
  apply Forall_app. split; [exact Hall|]. repeat constructor.
Qed.

(** Every option [getopt] returns is the help flag. *)
Lemma loop_help (args args' : list string) (opts opts' : list getopt.opt) :
  Forall is_help opts -> getopt.loop opts args = Ok (opts', args') -> Forall is_help opts'.
Proof.
  revert opts. induction args as [|a rest IH]; intros opts Hall.
  - cbn [getopt.loop]. intros [= <- _]. exact Hall.
  - cbn [getopt.loop].
    destruct (Str.startswith a "-" && negb (String.eqb a "-")).
    + destruct (String.eqb a "--"); [intros [= <- _]; exact Hall|].
      destruct (Str.startswith a "--").
      * destruct (getopt.do_longs opts _) as [o|e] eqn:E; [|discriminate].
        cbn [rbind]. apply IH. eapply do_longs_help; eassumption.
      * destruct (getopt.do_shorts opts _) as [o|e] eqn:E; [|discriminate].
        cbn [rbind]. apply IH. eapply do_shorts_help; eassumption.
    + intros [= <- _]. exact Hall.
Qed.

Lemma getopt_help (argv args : list string) (opts : list getopt.opt) :
  getopt.getopt argv = Ok (opts, args) -> Forall is_help opts.
Proof. apply loop_help. constructor. Qed.

Lemma do_shorts_error (s : string) (opts : list getopt.opt) (e : exn) :
  getopt.do_shorts opts s = Raise e -> is_getopt_error e.
Proof.
  revert opts. induction s as [|c s IH]; intros opts; cbn [getopt.do_shorts].
  - discriminate.
  - destruct (Ascii.eqb c "h"); [apply IH|]. intros [= <-]. exact I.
Qed.

Lemma do_longs_error (s : string) (opts : list getopt.opt) (e : exn) :
  getopt.do_longs opts s = Raise e -> is_getopt_error e.
Proof.
  unfold getopt.do_longs. destruct (getopt.split_eq s) as [name optarg].
  destruct (Str.startswith "help" name); [|intros [= <-]; exact I].
  destruct optarg; [intros [= <-]; exact I|discriminate].
Qed.

(** [getopt] fails with [GetoptError] only. *)
Lemma getopt_error (argv : list string) (e : exn) :
  getopt.getopt argv = Raise e -> is_getopt_error e.
Proof.
  unfold getopt.getopt. generalize (@nil getopt.opt) as opts.
  induction argv as [|a rest IH]; intros opts; cbn [getopt.loop]; [discriminate|].
  destruct (Str.startswith a "-" && negb (String.eqb a "-")); [|discriminate].
  destruct (String.eqb a "--"); [discriminate|].
  destruct (Str.startswith a "--").
  - destruct (getopt.do_longs opts _) as [o|e'] eqn:E; cbn [rbind].
    + apply IH.
    + intros [= <-]. eapply do_longs_error; eassumption.
  - destruct (getopt.do_shorts opts _) as [o|e'] eqn:E; cbn [rbind].
    + apply IH.
    + intros [= <-]. eapply do_shorts_error; eassumption.
Qed.

Lemma getopt_positional (a : string) :
  Str.startswith a "-" = false -> getopt.getopt [a] = Ok ([], [a]).
Proof. intros H. unfold getopt.getopt. cbn [getopt.loop]. rewrite H. reflexivity. Qed.

End Getopt.

Section CommandLine.

Local Open Scope py_scope.

Variable float_str : Q -> string.

Lemma help_loop (o : getopt.opt) (opts : list getopt.opt) (w : world) :
  is_help o ->
  for_ (o :: opts) (fun oa =>
      if mem oa.1 ["-h"; "--help"] then usage ;; sys_exit (Some 0%Z)
      else ret tt) w
  = (Raise (SystemExit (Some 0%Z)), emit (Print usage_msg) w).
Proof.
  intros Ho. unfold is_help in Ho. cbn [for_]. unfold bind at 1. rewrite Ho.
  reflexivity.
Qed.

(** C10 (as amended): when [getopt] rejects the arguments the process
    prints the failure notice and the usage and exits with status 1; when
    a help flag is among the options read it prints the usage and exits
    with status 0, as for [-h] and [--help] alone; with no option and
    anything but one positional argument ending in [.json] it prints the
    usage and ends with status 0; with such an argument it runs the job. *)
Theorem command_line (argv : list string) (w : world) :
  match getopt.getopt argv with
  | Raise _ =>
      run float_str argv w
      = (Some 1%Z, emit (Print usage_msg) (emit (Print "Failure retrieving parameters.") w))
  | Ok (_ :: _, _) =>
      run float_str argv w = (Some 0%Z, emit (Print usage_msg) w)
  | Ok ([], [a]) =>
      if Str.endswith a ".json" then main float_str argv w = run_job float_str a w
      else run float_str argv w = (Some 0%Z, emit (Print usage_msg) w)
  | Ok ([], _) =>
      run float_str argv w = (Some 0%Z, emit (Print usage_msg) w)
  end
  /\ run float_str ["-h"] w = (Some 0%Z, emit (Print usage_msg) w)
  /\ run float_str ["--help"] w = (Some 0%Z, emit (Print usage_msg) w).
Proof.
  split; [|split; reflexivity].
  unfold run, main.
  destruct (getopt.getopt argv) as [[opts args]|e] eqn:E.
  - destruct opts as [|o opts].
    + destruct args as [|a [|b args]]; try reflexivity.
      destruct (Str.endswith a ".json"); reflexivity.
    + apply getopt_help in E. inversion E as [|? ? Ho _]; subst.
      unfold bind at 1. rewrite (help_loop o opts w Ho). reflexivity.
  - apply getopt_error in E. destruct e; try contradiction. reflexivity.
Qed.

End CommandLine.

(** C10 as stated fails: without arguments the process prints the usage
    and ends with status 0. *)
Lemma usage_without_arguments_exits_zero :
  ~ (forall (argv : list string) (w : world),
       (forall a, argv <> [a]) ->
       exists n, (run const_float_str argv w).1 = Some n /\ n <> 0%Z).
Proof.
  intros H.
  destruct (H [] (world_with cz_oif (job PNone) [] [])) as (n & Hn & Hnz); [discriminate|].
  vm_compute in Hn. congruence.
Qed.

Example command_line_samples :
  let w := world_with cz_oif (job PNone) [] [] in
  (run const_float_str ["-x"] w).1 = Some 1%Z
  /\ (run const_float_str ["--help=yes"] w).1 = Some 1%Z
  /\ (run const_float_str ["-h"; "-x"] w).1 = Some 1%Z
  /\ (run const_float_str ["--he"; "job.json"] w).1 = Some 0%Z
  /\ (run const_float_str ["job.txt"] w).1 = Some 0%Z
  /\ (run const_float_str ["job.json"; "-h"] w).1 = Some 0%Z.
Proof. vm_compute. repeat split. Qed.

(* ===================================================================== *)
(** * Prompts *)
(* ===================================================================== *)

Section Prompts.

Local Open Scope py_scope.

Lemma bind_assoc {A B C} (m : M A) (f : A -> M B) (g : B -> M C) (w : world) :
  bind (bind m f) g w = bind m (fun x => bind (f x) g) w.
Proof. unfold bind. destruct (m w) as [[a|e] w']; reflexivity. Qed.

Lemma parent_decline {A} (p answer : string) (rest : list string) (w : world)
    (k : unit -> M A) :
  is_Some (fs w !! p) -> stdin w = answer :: rest -> declines answer = true ->
  bind (parent_dir_step p) k w
  = (Raise (SystemExit None), answered (potentially_msg p) rest w).
Proof.
  intros Hex Hin Hno. unfold parent_dir_step, bind, path_exists, input.
  rewrite bool_decide_eq_true_2 by exact Hex. cbn [negb].
  rewrite Hin, Hno. reflexivity.
Qed.

Lemma parent_accept (p answer : string) (rest : list string) (w : world) :
  is_Some (fs w !! p) -> stdin w = answer :: rest -> declines answer = false ->
  parent_dir_step p w = (Ok tt, answered (potentially_msg p) rest w).
Proof.
  intros Hex Hin Hyes. unfold parent_dir_step, bind, path_exists, input.
  rewrite bool_decide_eq_true_2 by exact Hex. cbn [negb].
  rewrite Hin, Hyes. reflexivity.
Qed.

Lemma channel_decline {A} (p answer : string) (rest : list string) (w : world)
    (k : unit -> M A) :
  is_Some (fs w !! p) -> stdin w = answer :: rest -> declines answer = true ->
  bind (channel_dir_step p) k w
  = (Raise (SystemExit None), answered (overwrite_msg p) rest w).
Proof.
  intros Hex Hin Hno. unfold channel_dir_step, bind, path_exists, input.
  rewrite bool_decide_eq_true_2 by exact Hex. cbn [negb].
  rewrite Hin, Hno. reflexivity.
Qed.

Lemma inside_self (p : string) : inside p p = true.
Proof. unfold inside. rewrite String.eqb_refl. reflexivity. Qed.

Lemma channel_accept (p answer : string) (rest : list string) (w : world) :
  fs w !! p = Some Dir -> stdin w = answer :: rest -> declines answer = false ->
  channel_dir_step p w
  = (Ok tt, {| fs := emptied p (fs w); stdin := rest;
               log := log w ++ [Prompt (overwrite_msg p); Rmtree p; Makedirs p] |}).
Proof.
  intros Hdir Hin Hyes. unfold channel_dir_step, bind, path_exists, input.
  rewrite bool_decide_eq_true_2 by (rewrite Hdir; eauto). cbn [negb].
  rewrite Hin, Hyes. unfold ret, rmtree. cbn [fs]. rewrite Hdir.
  unfold makedirs. cbn [fs emit with_fs log stdin].
  rewrite map_lookup_filter_None_2.
  - unfold emptied, emit, with_fs, overwrite_msg. cbn [fs stdin log].
    rewrite <- !List.app_assoc. reflexivity.
  - right. intros x _. cbn. rewrite inside_self. discriminate.
Qed.

Lemma emptied_inside (p q : string) (m : gmap string node) :
  q <> p -> inside p q = true -> emptied p m !! q = None.
Proof.
  intros Hne Hin. unfold emptied. rewrite lookup_insert_ne by congruence.
  apply map_lookup_filter_None_2. right. intros x _. cbn. rewrite Hin. discriminate.
Qed.

Lemma emptied_outside (p q : string) (m : gmap string node) :
  inside p q = false -> emptied p m !! q = m !! q.
Proof.
  intros Hout. unfold emptied.
  assert (q <> p) by (intros ->; rewrite inside_self in Hout; discriminate).
  rewrite lookup_insert_ne by congruence.
  destruct (m !! q) as [x|] eqn:E.
  - apply map_lookup_filter_Some_2; [exact E | exact Hout].
  - apply map_lookup_filter_None_2. left. exact E.
Qed.

End Prompts.

Section Overwrite.

Local Open Scope py_scope.

(** C6 (as amended): at either prompt, for the parent directory or for a
    channel directory, an answer other than [y] or [yes] raises
    [SystemExit] without a code, whatever was to follow: nothing more is
    done, and the exit status of the process is 0. *)
Theorem decline_terminates {A} (p answer : string) (rest : list string) (w : world)
    (k : unit -> M A) :
  is_Some (fs w !! p) -> stdin w = answer :: rest -> declines answer = true ->
  bind (parent_dir_step p) k w
    = (Raise (SystemExit None), answered (potentially_msg p) rest w)
  /\ bind (channel_dir_step p) k w
    = (Raise (SystemExit None), answered (overwrite_msg p) rest w)
  /\ exit_status (@Raise A (SystemExit None)) = Some 0%Z.
Proof.
  intros Hex Hin Hno. split; [|split].
  - apply (parent_decline p answer); assumption.
  - apply (channel_decline p answer); assumption.
  - reflexivity.
Qed.

(** C7: for a channel directory that exists, an answer that declines
    ends the process with the file system as it was and no slice written;
    an answer that accepts removes the directory with all that lies below
    it and creates it again, and only then are the slices of the channel
    written, the rest of the file system being as before. An accepted
    prompt for the parent directory leaves the file system as it is. *)
Theorem channel_overwrite {A} (image : ndarray Z) (nbits : ini_value)
    (base_name base_dir : string) (z_idx channel : nat)
    (answer : string) (rest : list string) (w : world) (k : unit -> M A) :
  let p := path.join base_dir ("Channel" +:+ Str.str (channel + 1)) in
  fs w !! p = Some Dir -> stdin w = answer :: rest ->
  (declines answer = true ->
     bind (channel_step image nbits base_name base_dir z_idx channel) k w
     = (Raise (SystemExit None),
        {| fs := fs w; stdin := rest; log := log w ++ [Prompt (overwrite_msg p)] |}))
  /\ (declines answer = false ->
        let w' := {| fs := emptied p (fs w); stdin := rest;
                     log := log w ++ [Prompt (overwrite_msg p); Rmtree p; Makedirs p] |} in
        channel_step image nbits base_name base_dir z_idx channel w
        = (z_len <- lift (shape_at image z_idx) ;;
           for_ (seq 0 z_len) (write_slice image nbits base_name p channel z_len)) w'
        /\ (forall q, q <> p -> inside p q = true -> fs w' !! q = None)
        /\ (forall q, inside p q = false -> fs w' !! q = fs w !! q))
  /\ (forall (base answer' : string) (rest' : list string) (w0 : world),
        is_Some (fs w0 !! base) -> stdin w0 = answer' :: rest' ->
        declines answer' = false ->
        parent_dir_step base w0
        = (Ok tt, {| fs := fs w0; stdin := rest';
                     log := log w0 ++ [Prompt (potentially_msg base)] |})).
Proof.
  intros p Hdir Hin. split; [|split].
  - intros Hno. unfold channel_step. fold p. rewrite bind_assoc.
    apply (channel_decline p answer rest w); [rewrite Hdir; eauto | exact Hin | exact Hno].
  - intros Hyes w'. split; [|split].
    + unfold channel_step. fold p. unfold bind at 1.
      rewrite (channel_accept p answer rest w Hdir Hin Hyes). reflexivity.
    + intros q Hne Hq. apply emptied_inside; assumption.
    + intros q Hq. apply emptied_outside; assumption.
  - intros base answer' rest' w0 Hex Hin0 Hyes.
    apply (parent_accept base answer'); assumption.
Qed.

(** The whole of [oif_to_dir_tree] ends at a declined prompt for the
    parent directory. *)
Lemma oif_to_dir_tree_parent_decline (float_str : Q -> string)
    (in_file out_dir prefix answer : string) (stains : list pyval)
    (person hpf treatment : pyval) (oif : oif_file) (md : Dict.t pyval)
    (nbits : ini_value) (rest : list string) (w : world) :
  let base_dir :=
    path.join out_dir (prefix +:+ path.splitext_root (path.basename in_file)) in
  fs w !! in_file = Some (File (Oif oif)) ->
  oif_metadata float_str (mainfile oif) (initial_metadata stains person hpf treatment)
    = Ok (md, nbits) ->
  is_Some (fs w !! base_dir) -> stdin w = answer :: rest -> declines answer = true ->
  oif_to_dir_tree float_str (PStr in_file) stains person hpf treatment
    (PStr out_dir) (PStr prefix) w
  = (Raise (SystemExit None), answered (potentially_msg base_dir) rest w).
Proof.
  intros base_dir Hoif Hmd Hex Hin Hno.
  unfold oif_to_dir_tree. unfold bind at 1. unfold OifFile. rewrite Hoif.
  unfold bind at 1. unfold lift at 1. rewrite Hmd.
  unfold bind at 1. unfold lift at 1. cbn [as_str].
  unfold bind at 1. unfold lift at 1.
  unfold bind at 1. unfold lift at 1.
  apply (parent_decline base_dir answer); assumption.
Qed.

End Overwrite.

Lemma decline_terminates_witness :
  let w := world_with cz_oif (job (PFloat (13 # 2))) ["/tmp/out/emb"] ["n"] in
  bind (parent_dir_step "/tmp/out/emb") (fun _ => ret tt) w
    = (Raise (SystemExit None), answered (potentially_msg "/tmp/out/emb") [] w)
  /\ bind (channel_dir_step "/tmp/out/emb") (fun _ => ret tt) w
    = (Raise (SystemExit None), answered (overwrite_msg "/tmp/out/emb") [] w)
  /\ exit_status (@Raise unit (SystemExit None)) = Some 0%Z.
Proof.
  apply (decline_terminates "/tmp/out/emb" "n" []
           (world_with cz_oif (job (PFloat (13 # 2))) ["/tmp/out/emb"] ["n"])
           (fun _ => ret tt)).
  - exists Dir. reflexivity.
  - reflexivity.
  - reflexivity.
Defined.

(** C6 as stated fails: the operator declines at the prompt for the
    parent directory and the process ends with status 0. *)
Lemma decline_exit_status_zero :
  let w := world_with cz_oif (job (PFloat (13 # 2))) ["/tmp/out/emb"] ["n"] in
  let '(status, w') := run const_float_str ["job.json"] w in
  status = Some 0%Z
  /\ log w' = [Prompt (potentially_msg "/tmp/out/emb")]
  /\ fs w' = fs w.
Proof. vm_compute. repeat split. Qed.

Example decline_at_second_channel :
  let w := world_with cz_oif (job (PFloat (13 # 2))) ["/tmp/out/emb/Channel2"] ["No"] in
  let '(status, w') := run const_float_str ["job.json"] w in
  status = Some 0%Z
  /\ log w' = [ Makedirs "/tmp/out/emb"; Makedirs "/tmp/out/emb/Channel1";
                Imsave "/tmp/out/emb/Channel1/embc1z0.png" (px 0);
                Imsave "/tmp/out/emb/Channel1/embc1z1.png" (px 100);
                Imsave "/tmp/out/emb/Channel1/embc1z2.png" (px 255);
                Prompt (overwrite_msg "/tmp/out/emb/Channel2") ].
Proof. vm_compute. repeat split. Qed.

Lemma channel_overwrite_witness :
  let w := world_with cz_oif (job (PFloat (13 # 2)))
             ["/tmp/out/emb/Channel2"; "/tmp/out/emb"] ["y"] in
  let p := path.join "/tmp/out/emb" ("Channel" +:+ Str.str (1 + 1)) in
  (declines "y" = true ->
     bind (channel_step cz_volume (IInt 8) "emb" "/tmp/out/emb" 1 1)
       (fun _ => ret tt) w
     = (Raise (SystemExit None),
        {| fs := fs w; stdin := []; log := log w ++ [Prompt (overwrite_msg p)] |}))
  /\ (declines "y" = false ->
        let w' := {| fs := emptied p (fs w); stdin := [];
                     log := log w ++ [Prompt (overwrite_msg p); Rmtree p; Makedirs p] |} in
        channel_step cz_volume (IInt 8) "emb" "/tmp/out/emb" 1 1 w
        = bind (lift (shape_at cz_volume 1))
            (fun z_len =>
               for_ (seq 0 z_len) (write_slice cz_volume (IInt 8) "emb" p 1 z_len)) w'
        /\ (forall q, q <> p -> inside p q = true -> fs w' !! q = None)
        /\ (forall q, inside p q = false -> fs w' !! q = fs w !! q))
  /\ (forall (base answer' : string) (rest' : list string) (w0 : world),
        is_Some (fs w0 !! base) -> stdin w0 = answer' :: rest' ->
        declines answer' = false ->
        parent_dir_step base w0
        = (Ok tt, {| fs := fs w0; stdin := rest';
                     log := log w0 ++ [Prompt (potentially_msg base)] |})).
Proof.
  apply (channel_overwrite cz_volume (IInt 8) "emb" "/tmp/out/emb" 1 1 "y" []
           (world_with cz_oif (job (PFloat (13 # 2)))
              ["/tmp/out/emb/Channel2"; "/tmp/out/emb"] ["y"])
           (fun _ => ret tt)).
  - reflexivity.
  - reflexivity.
Defined.

Example overwrite_accepted :
  let old := "/tmp/out/emb/Channel1/old.png" in
  let w0 := world_with cz_oif (job (PFloat (13 # 2)))
              ["/tmp/out/emb/Channel1"; "/tmp/out/emb"] ["yes"; "Y"] in
  let w := with_fs (<[old := File (Bytes "old")]> (fs w0)) w0 in
  let '(status, w') := run const_float_str ["job.json"] w in
  status = Some 0%Z
  /\ fs w' !! old = None
  /\ fs w' !! "/tmp/out/emb/Channel1/embc1z0.png" = Some (File (Png (px 0)))
  /\ firstn 5 (log w')
     = [ Prompt (potentially_msg "/tmp/out/emb");
         Prompt (overwrite_msg "/tmp/out/emb/Channel1");
         Rmtree "/tmp/out/emb/Channel1"; Makedirs "/tmp/out/emb/Channel1";
         Imsave "/tmp/out/emb/Channel1/embc1z0.png" (px 0) ].
Proof. vm_compute. repeat split. Qed.

(* ===================================================================== *)
(** * The job descriptor *)
(* ===================================================================== *)

Section DictFacts.

Context {V : Type}.

Lemma dict_get_set_ne (d : Dict.t V) (k k' : string) (v : V) :
  k <> k' -> Dict.get (Dict.set d k v) k' = Dict.get d k'.
Proof.
  intros Hne. induction d as [|[k0 v0] d IH]; cbn [Dict.set Dict.get].
  - apply String.eqb_neq in Hne. rewrite Hne. reflexivity.
  - destruct (String.eqb k0 k) eqn:E; cbn [Dict.get].
    + apply String.eqb_eq in E. subst k0.
      apply String.eqb_neq in Hne. rewrite Hne. reflexivity.
    + destruct (String.eqb k0 k'); [reflexivity | exact IH].
Qed.

Lemma dict_set_absent (d : Dict.t V) (k k' : string) (v : V) :
  Dict.get d k' = None -> k <> k' -> Dict.get (Dict.set d k v) k' = None.
Proof. intros H Hne. rewrite dict_get_set_ne by exact Hne. exact H. Qed.

End DictFacts.

Section MissingKey.

Local Open Scope py_scope.

Variable float_str : Q -> string.

(** The default for [out_dir] adds no key. *)
Lemma default_out_dir_dict (d : Dict.t pyval) :
  match Dict.get d "out_dir" with
  | None => default_out_dir (PDict d) = Raise (KeyError "out_dir")
  | Some _ =>
      exists d', default_out_dir (PDict d) = Ok (PDict d')
                 /\ forall k, Dict.get d k = None -> Dict.get d' k = None
  end.
Proof.
  unfold default_out_dir, getitem, Dict.getitem.
  destruct (Dict.get d "out_dir") as [v|] eqn:E; [|reflexivity].
  cbn [rbind].
  assert (Hset : exists d', setitem (PDict d) "out_dir" (PStr ".") = Ok (PDict d')
                 /\ forall k, Dict.get d k = None -> Dict.get d' k = None).
  { eexists. split; [reflexivity|]. intros k Hk. apply dict_set_absent; [exact Hk|].
    intros <-. congruence. }
  assert (Hsame : exists d', Ok (PDict d) = Ok (PDict d')
                 /\ forall k, Dict.get d k = None -> Dict.get d' k = None).
  { exists d. split; [reflexivity | auto]. }
  destruct v as [ |b|z|q|s|l|d0]; try exact Hsame.
  destruct s as [|c s]; [exact Hset | exact Hsame].
Qed.

Lemma stains_of_fatal (v : pyval) (ks : list string) (e : exn) :
  stains_of v ks = Raise e -> fatal e.
Proof.
  induction ks as [|k ks IH]; cbn [stains_of]; [discriminate|].
  destruct (getitem v k) as [s|e'] eqn:E; cbn [rbind].
  - destruct (stains_of v ks) as [l|e'']; cbn [rbind]; [discriminate|].
    intros [= <-]. apply IH. reflexivity.
  - intros [= <-]. destruct v; try (injection E as <-; reflexivity).
    cbn [getitem] in E. unfold Dict.getitem in E.
    destruct (Dict.get d k); [discriminate|]. injection E as <-. reflexivity.
Qed.

(** The seven keys are read before [oif_to_dir_tree] is entered. *)
Lemma run_job_missing_key (descriptor : string) (d : Dict.t pyval) (w : world) :
  fs w !! descriptor = Some (File (Json (PDict d))) ->
  (exists k, In k expected_keys /\ Dict.get d k = None) ->
  exists e, run_job float_str descriptor w = (Raise e, w) /\ fatal e.
Proof.
  intros Hfs (k & Hk & Hmiss).
  unfold run_job, bind, json_load_from, lift. rewrite Hfs.
  pose proof (default_out_dir_dict d) as Hd.
  destruct (Dict.get d "out_dir") as [v0|] eqn:E0.
  2:{ rewrite Hd. eexists. split; reflexivity. }
  destruct Hd as (d' & -> & Hkeep). specialize (Hkeep k Hmiss).
  cbn [getitem]. unfold Dict.getitem.
  destruct (Dict.get d' "stains") as [stains|] eqn:E1; [|eexists; split; reflexivity].
  destruct (keys stains) as [ks|e] eqn:Eks.
  2:{ destruct stains; try discriminate; injection Eks as <-; eexists; split; reflexivity. }
  destruct (stains_of stains (sort ks)) as [l|e] eqn:Est.
  2:{ exists e. split; [reflexivity | eapply stains_of_fatal; eassumption]. }
  destruct (Dict.get d' "oif_file") as [?|] eqn:E2; [|eexists; split; reflexivity].
  destruct (Dict.get d' "person") as [?|] eqn:E3; [|eexists; split; reflexivity].
  destruct (Dict.get d' "hpf") as [?|] eqn:E4; [|eexists; split; reflexivity].
  destruct (Dict.get d' "treatment") as [?|] eqn:E5; [|eexists; split; reflexivity].
  destruct (Dict.get d' "out_dir") as [?|] eqn:E6; [|eexists; split; reflexivity].
  destruct (Dict.get d' "prefix") as [?|] eqn:E7; [|eexists; split; reflexivity].
  exfalso. unfold expected_keys in Hk. cbn [In] in Hk.
  destruct Hk as [<-|[<-|[<-|[<-|[<-|[<-|[<-|[]]]]]]]]; congruence.
Qed.

(** C1 (as amended): for a descriptor file holding a JSON object in which
    one of the seven keys is missing, the process ends with status 1, by
    the uncaught error of the lookup, with the world as it was: no
    directory is created, no file is written, nothing goes to standard
    output and the operator is not asked. The values under the keys are
    not checked. *)
Theorem missing_key_exits_clean (descriptor : string) (d : Dict.t pyval) (w : world) :
  Str.startswith descriptor "-" = false ->
  Str.endswith descriptor ".json" = true ->
  fs w !! descriptor = Some (File (Json (PDict d))) ->
  (exists k, In k expected_keys /\ Dict.get d k = None) ->
  run float_str [descriptor] w = (Some 1%Z, w).
Proof.
  intros Hdash Hjson Hfs Hmiss.
  unfold run, main. rewrite (getopt_positional _ Hdash). cbn [for_].
  unfold bind at 1. unfold ret at 1. rewrite Hjson.
  destruct (run_job_missing_key descriptor d w Hfs Hmiss) as (e & -> & He).
  unfold fatal in He. cbn [exit_status] in *.
  destruct e; try discriminate He; try reflexivity.
  destruct code; [|discriminate]. injection He as ->. reflexivity.
Qed.

End MissingKey.

Lemma missing_key_exits_clean_witness :
  let w := world_with cz_oif (PDict job_fields_no_treatment) [] [] in
  run const_float_str ["job.json"] w = (Some 1%Z, w).
Proof.
  apply (missing_key_exits_clean const_float_str "job.json" job_fields_no_treatment).
  - reflexivity.
  - reflexivity.
  - reflexivity.
  - exists "treatment". split; [vm_compute; auto 10 | reflexivity].
Defined.

(** C1 as stated fails: a descriptor whose [hpf] is a string is not what
    the script documents, and yet the run ends with status 0 after
    creating the directories and writing the record. *)
Lemma malformed_hpf_still_written :
  let bad := job (PStr "six") in
  let w := world_with cz_oif bad [] [] in
  let '(status, w') := run const_float_str ["job.json"] w in
  descriptor_ok bad = false
  /\ status = Some 0%Z
  /\ fs w' !! "/tmp/out/emb/Channel1" = Some Dir
  /\ In (Makedirs "/tmp/out/emb") (log w')
  /\ exists md, fs w' !! "/tmp/out/emb/metadata.json" = Some (File (Json (PDict md)))
                /\ Dict.get md "HPF" = Some (PStr "six").
Proof. vm_compute. repeat split; auto 20. eexists. split; reflexivity. Qed.

(** The validator the script defines, had it been called: it passes a
    descriptor that lacks five of the seven keys. *)
Example check_input_dict_accepts_missing_keys :
  let d := PDict [("out_dir", PStr ""); ("prefix", PNone)] in
  let w := world_with cz_oif d [] [] in
  check_input_dict d w = (Ok (PDict [("out_dir", PStr "."); ("prefix", PStr "")]), w).
Proof. reflexivity. Qed.

Example end_to_end :
  let w := world_with cz_oif (job (PFloat (13 # 2))) [] [] in
  let '(status, w') := run const_float_str ["job.json"] w in
  status = Some 0%Z
  /\ log w'
     = [ Makedirs "/tmp/out/emb"; Makedirs "/tmp/out/emb/Channel1";
         Imsave "/tmp/out/emb/Channel1/embc1z0.png" (px 0);
         Imsave "/tmp/out/emb/Channel1/embc1z1.png" (px 100);
         Imsave "/tmp/out/emb/Channel1/embc1z2.png" (px 255);
         Makedirs "/tmp/out/emb/Channel2";
         Imsave "/tmp/out/emb/Channel2/embc2z0.png" (px 10);
         Imsave "/tmp/out/emb/Channel2/embc2z1.png" (px 200);
         Imsave "/tmp/out/emb/Channel2/embc2z2.png" (px 254);
         JsonDump "/tmp/out/emb/metadata.json"
           (PDict [ ("Person", PStr "A"); ("HPF", PFloat (13 # 2));
                    ("Treatment", PStr "none");
                    ("Channel1", PDict [("Stain", PStr "dapi")]);
                    ("Channel2", PDict [("Stain", PStr "gfp")]);
                    ("CaptureDateTime", PStr "2017-03-01 10:00:00");
                    ("HeightConvert", PStr "0.5 um");
                    ("WidthConvert", PStr "0.5 um");
                    ("DepthConvert", PStr "2 um") ]) ].
Proof. vm_compute. repeat split. Qed.

(* ===================================================================== *)
(** * Further properties: file names *)
(* ===================================================================== *)

Section Names.

Lemma str_app_inv_tail (s t u : string) : s +:+ u = t +:+ u -> s = t.
Proof.
  intros H.
  assert (Hlen : String.length s = String.length t).
  { apply (f_equal String.length) in H. rewrite !length_app in H. lia. }
  revert t H Hlen. induction s as [|c s IH]; intros [|d t] H Hlen;
    cbn [String.length] in Hlen; try lia.
  - reflexivity.
  - rewrite !app_cons in H. injection H as -> H. f_equal. apply IH; [exact H | lia].
Qed.

Lemma str_app_inv_head (s t u : string) : s +:+ t = s +:+ u -> t = u.
Proof.
  induction s as [|c s IH]; [intros H; exact H|].
  rewrite !app_cons. intros [= H]. apply IH. exact H.
Qed.

Lemma str_inj (n m : nat) : Str.str n = Str.str m -> n = m.
Proof. intros H. apply (f_equal value) in H. rewrite !str_value in H. exact H. Qed.

(** X1: two depth indices of a channel never share a file name, whatever
    the length of the Z axis: no slice overwrites another. *)
Theorem img_file_distinct (base_name channel_path : string) (channel L z1 z2 : nat) :
  z1 <> z2 ->
  img_file_of base_name channel_path channel z1 L
  <> img_file_of base_name channel_path channel z2 L.
Proof.
  intros Hne H. apply Hne.
  destruct (img_file_shape base_name channel_path channel L) as [pre Hpre].
  rewrite !Hpre in H.
  apply str_app_inv_head in H. apply str_app_inv_tail in H.
  apply (f_equal value) in H. rewrite !z_to_string_value in H. exact H.
Qed.

Lemma img_file_distinct_witness :
  img_file_of "emb" "/tmp/out/emb/Channel1" 0 3 10
  <> img_file_of "emb" "/tmp/out/emb/Channel1" 0 13 10.
Proof. apply (img_file_distinct "emb" "/tmp/out/emb/Channel1" 0 10 3 13). lia. Defined.

(** X2: [z_to_string] pads and never truncates: for any value and any
    maximum its result is made of digits, reads back as the value, and is
    as long as the longer of [str(value)] and [str(max_value)]. *)
Theorem z_to_string_never_truncates (z L : nat) :
  digits (z_to_string z L)
  /\ value (z_to_string z L) = z
  /\ String.length (z_to_string z L)
     = Nat.max (String.length (Str.str z)) (String.length (Str.str L)).
Proof.
  split; [apply z_to_string_digits|]. split; [apply z_to_string_value|].
  rewrite z_to_string_padded. unfold zero_padded.
  rewrite length_app, length_repeat_char. lia.
Qed.

End Names.

(* ===================================================================== *)
(** * Further properties: rescaling *)
(* ===================================================================== *)

Section ScaleMore.

Local Open Scope Q_scope.

Lemma nd_shape_map {A B} (f : A -> B) (a : ndarray A) :
  Nd.shape (Nd.map f a) = Nd.shape a.
Proof.
  induction a as [x|l IH] using ndarray_nested_ind; [reflexivity|].
  cbn [Nd.map Nd.shape]. rewrite length_map. f_equal.
  destruct IH as [|x l Hx _]; [reflexivity|]. cbn [List.map]. exact Hx.
Qed.

(** X3: on integers, with [bits >= 0], [scale_bit_image] raises
    [ZeroDivisionError] exactly when [img_min] is the full scale
    [2**bits - 1]; an array that it returns has the shape of the image.
    The script, which passes [img_min = 0], meets it for a bit depth of
    0. *)
Theorem scale_bit_image_zero_division (image : ndarray Z) (bits img_min new_min new_max : Z) :
  (0 <= bits)%Z ->
  (scale_bit_image_f64 image (NInt bits) (NInt img_min) (NInt new_min) (NInt new_max)
     = Raise ZeroDivisionError
   <-> img_min = (2 ^ bits - 1)%Z)
  /\ (forall out,
        scale_bit_image_f64 image (NInt bits) (NInt img_min) (NInt new_min) (NInt new_max)
          = Ok out ->
        Nd.shape out = Nd.shape image)
  /\ (forall volume by_channel channel z,
        Nd.getitem volume channel = Ok by_channel ->
        Nd.getitem by_channel z = Ok image ->
        slice_of volume (IInt 0) channel z = Raise ZeroDivisionError).
Proof.
  intros Hbits. split; [|split].
  - unfold scale_bit_image_f64, py_pow2.
    rewrite (proj2 (Z.leb_le 0 bits) Hbits). cbn [py_sub]. unfold py_truediv.
    destruct (2 ^ bits - 1 - img_min =? 0)%Z eqn:E.
    + apply Z.eqb_eq in E. split; [intros _; lia | reflexivity].
    + apply Z.eqb_neq in E. split; [|intros H; lia].
      destruct (F64.is_finite _); [|discriminate].
      unfold py_float. destruct (F64.is_finite _); discriminate.
  - intros out. unfold scale_bit_image_f64, py_pow2.
    rewrite (proj2 (Z.leb_le 0 bits) Hbits). cbn [py_sub]. unfold py_truediv.
    destruct (2 ^ bits - 1 - img_min =? 0)%Z; [discriminate|].
    destruct (F64.is_finite _); [|discriminate].
    unfold py_float. destruct (F64.is_finite _); [|discriminate].
    intros [= <-]. apply nd_shape_map.
  - intros volume by_channel channel z Hc Hz. unfold slice_of.
    rewrite Hc. cbn [rbind]. rewrite Hz. reflexivity.
Qed.

Lemma scale_bit_image_zero_division_witness :
  (scale_bit_image_f64 (px 7) (NInt 8) (NInt 255) (NInt 0) (NInt 255)
     = Raise ZeroDivisionError
   <-> 255%Z = (2 ^ 8 - 1)%Z)
  /\ (forall out,
        scale_bit_image_f64 (px 7) (NInt 8) (NInt 255) (NInt 0) (NInt 255) = Ok out ->
        Nd.shape out = Nd.shape (px 7))
  /\ (forall volume by_channel channel z,
        Nd.getitem volume channel = Ok by_channel ->
        Nd.getitem by_channel z = Ok (px 7) ->
        slice_of volume (IInt 0) channel z = Raise ZeroDivisionError).
Proof. apply (scale_bit_image_zero_division (px 7) 8 255 0 255). lia. Defined.

(** X4: for any bit depth, any [img_min] below the full scale and any
    [new_min <= new_max], a sample between [img_min] and the full scale is
    mapped between [new_min] and [new_max] (in exact arithmetic), as the
    docstring of [scale_bit_image] says of its result. *)
Theorem scale_bit_image_within_range (x bits : Z) (img_min new_min new_max : Q) :
  img_min < pow2 bits - 1 ->
  new_min <= new_max ->
  img_min <= inject_Z x -> inject_Z x <= pow2 bits - 1 ->
  exists q, scale_bit_image (Scalar x) bits img_min new_min new_max = Ok (Scalar q)
            /\ new_min <= q /\ q <= new_max.
Proof.
  intros Hlt Hmm Hlo Hhi.
  set (D := pow2 bits - 1 - img_min).
  assert (HD : 0 < D).
  { unfold D. rewrite <- (Qplus_opp_r img_min).
    apply Qplus_lt_le_compat; [exact Hlt | apply Qle_refl]. }
  unfold scale_bit_image. fold D.
  destruct (Qeq_bool D 0) eqn:E.
  { apply Qeq_bool_eq in E. rewrite E in HD. discriminate. }
  eexists. split; [reflexivity|].
  set (t := inject_Z x - img_min).
  assert (Ht0 : 0 <= t).
  { unfold t. rewrite <- (Qplus_opp_r img_min).
    apply Qplus_le_compat; [exact Hlo | apply Qle_refl]. }
  assert (HtD : t <= D).
  { unfold t, D. apply Qplus_le_compat; [exact Hhi | apply Qle_refl]. }
  assert (Hr0 : 0 <= t / D)
    by (apply Qle_shift_div_l; [exact HD | rewrite Qmult_0_l; exact Ht0]).
  assert (Hr1 : t / D <= 1)
    by (apply Qle_shift_div_r; [exact HD | rewrite Qmult_1_l; exact HtD]).
  assert (Hw : 0 <= new_max - new_min).
  { rewrite <- (Qplus_opp_r new_min).
    apply Qplus_le_compat; [exact Hmm | apply Qle_refl]. }
  assert (Heq : (new_max - new_min) / D * t + new_min
                == (new_max - new_min) * (t / D) + new_min).
  { field. intros H. rewrite H in HD. discriminate. }
  rewrite Heq. split.
  - rewrite <- (Qplus_0_l new_min) at 1. apply Qplus_le_compat; [|apply Qle_refl].
    apply Qmult_le_0_compat; assumption.
  - assert (H1 : (new_max - new_min) * (t / D) <= (new_max - new_min) * 1).
    { apply Qmult_le_compat_nonneg; split; try assumption; apply Qle_refl. }
    assert (H2 : (new_max - new_min) * 1 + new_min == new_max) by ring.
    apply Qle_trans with ((new_max - new_min) * 1 + new_min).
    + apply Qplus_le_compat; [exact H1 | apply Qle_refl].
    + rewrite H2. apply Qle_refl.
Qed.

Lemma scale_bit_image_within_range_witness :
  exists q, scale_bit_image (Scalar 100%Z) 8%Z 10 (1 # 2) 1 = Ok (Scalar q)
            /\ (1 # 2) <= q /\ q <= 1.
Proof.
  apply (scale_bit_image_within_range 100%Z 8%Z 10 (1 # 2) 1); vm_compute; congruence.
Defined.

End ScaleMore.

Section Written.

Lemma trunc_div_range (B px : Z) :
  (1 <= B)%Z -> (0 <= px <= 2 ^ B - 1)%Z ->
  (0 <= trunc_div (255 * px) (2 ^ B - 1) <= 255)%Z.
Proof.
  intros HB [Hlo Hhi]. pose proof (full_scale_pos B HB) as Hpos.
  unfold trunc_div. rewrite Z.quot_div_nonneg by lia. split.
  - apply Z.div_pos; lia.
  - apply Z.div_le_upper_bound; lia.
Qed.

(** X5: for a bit depth from 1 to 16 and a plane whose samples lie
    between 0 and the full scale [2^B - 1], the slice computed in binary64
    holds for each sample the integer part of the exact
    [255 * px / (2^B - 1)], which is what the exact reading of
    [scale_bit_image] followed by the same truncation gives; every sample
    of the slice lies between 0 and 255, 0 is written as 0 and the full
    scale as 255. *)
Theorem written_sample_bounds (image by_channel plane : ndarray Z) (channel z : nat)
    (B : Z) :
  (1 <= B <= 16)%Z ->
  Nd.getitem image channel = Ok by_channel ->
  Nd.getitem by_channel z = Ok plane ->
  Nd.forallb (in_depth B) plane = true ->
  exists out exact,
    slice_of image (IInt B) channel z = Ok out
    /\ out = Nd.map (fun px => trunc_div (255 * px) (2 ^ B - 1)) plane
    /\ scale_bit_image plane B 0 0 255 = Ok exact
    /\ out = Nd.map astype_int exact
    /\ Nd.forallb (fun t => (0 <=? t)%Z && (t <=? 255)%Z) out = true
    /\ trunc_div (255 * 0) (2 ^ B - 1) = 0%Z
    /\ trunc_div (255 * (2 ^ B - 1)) (2 ^ B - 1) = 255%Z.
Proof.
  intros HB Hc Hz Hp. pose proof (full_scale_pos B ltac:(lia)) as Hpos.
  assert (Hin : forall px, in_depth B px = true -> (0 <= px <= 2 ^ B - 1)%Z).
  { intros px H. unfold in_depth in H. apply andb_true_iff in H.
    destruct H as [Hlo Hhi]. apply Z.leb_le in Hlo. apply Z.leb_le in Hhi. lia. }
  exists (Nd.map (fun px => trunc_div (255 * px) (2 ^ B - 1)) plane),
         (Nd.map (scaled B) plane).
  split; [|split; [reflexivity|split; [|split; [|split; [|split]]]]].
  - apply (slice_of_pointwise image by_channel plane channel z B (in_depth B));
      try assumption.
    intros px Hpx. destruct (scaled_f64_in_depth B px HB Hpx) as [Hf Ht].
    split; [exact Hf|]. split; [exact Ht|].
    pose proof (trunc_div_range B px ltac:(lia) (Hin px Hpx)). lia.
  - apply scale_bit_image_map. lia.
  - rewrite nd_map_map. apply nd_map_ext. intros px. symmetry.
    apply astype_int_scaled. lia.
  - apply (nd_forallb_map (in_depth B)); [exact Hp|].
    intros px Hpx. pose proof (trunc_div_range B px ltac:(lia) (Hin px Hpx)) as [H0 H1].
    apply andb_true_iff. split; apply Z.leb_le; assumption.
  - unfold trunc_div. rewrite Z.mul_0_r. apply Z.quot_0_l. lia.
  - unfold trunc_div. apply Z.quot_mul. lia.
Qed.

Lemma written_sample_bounds_witness :
  exists out exact,
    slice_of (Arr [Arr [Arr [Arr [Scalar 0; Scalar 6; Scalar 4095]]]]%Z) (IInt 12) 0 0
      = Ok out
    /\ out = Nd.map (fun px => trunc_div (255 * px) (2 ^ 12 - 1))
               (Arr [Arr [Scalar 0; Scalar 6; Scalar 4095]]%Z)
    /\ scale_bit_image (Arr [Arr [Scalar 0; Scalar 6; Scalar 4095]]%Z) 12 0 0 255
       = Ok exact
    /\ out = Nd.map astype_int exact
    /\ Nd.forallb (fun t => (0 <=? t)%Z && (t <=? 255)%Z) out = true
    /\ trunc_div (255 * 0) (2 ^ 12 - 1) = 0%Z
    /\ trunc_div (255 * (2 ^ 12 - 1)) (2 ^ 12 - 1) = 255%Z.
Proof.
  apply (written_sample_bounds
           (Arr [Arr [Arr [Arr [Scalar 0; Scalar 6; Scalar 4095]]]]%Z)
           (Arr [Arr [Arr [Scalar 0; Scalar 6; Scalar 4095]]]%Z)
           (Arr [Arr [Scalar 0; Scalar 6; Scalar 4095]]%Z) 0 0 12).
  - lia.
  - reflexivity.
  - reflexivity.
  - vm_compute. reflexivity.
Defined.

(** X6: the rescale does not clip. For a bit depth from 1 to 16, a plane
    whose samples are multiples [k * (2^B - 1)] of the full scale, with
    [k] from -256 to 256, is saved with [255 * k] for each: twice the full
    scale becomes 510, and a negative sample a negative number. *)
Theorem scale_does_not_clip (image by_channel plane : ndarray Z) (channel z : nat)
    (B : Z) :
  (1 <= B <= 16)%Z ->
  Nd.getitem image channel = Ok by_channel ->
  Nd.getitem by_channel z = Ok plane ->
  Nd.forallb (full_scale_multiple B) plane = true ->
  slice_of image (IInt B) channel z
  = Ok (Nd.map (fun px => 255 * (px / (2 ^ B - 1)))%Z plane).
Proof.
  intros HB Hc Hz Hp. pose proof (full_scale_pos B ltac:(lia)) as Hpos.
  apply (slice_of_pointwise image by_channel plane channel z B (full_scale_multiple B));
    try assumption.
  intros px Hpx. unfold full_scale_multiple in Hpx. cbv zeta in Hpx.
  apply andb_true_iff in Hpx. destruct Hpx as [Hpx Hhi].
  apply andb_true_iff in Hpx. destruct Hpx as [Hmod Hlo].
  apply Z.eqb_eq in Hmod. apply Z.leb_le in Hlo. apply Z.leb_le in Hhi.
  set (d := (2 ^ B - 1)%Z) in *.
  assert (Hk : px = (px / d * d)%Z).
  { rewrite Z.mul_comm. apply Z.div_exact; lia. }
  assert (Hkb : (-256 <= px / d <= 256)%Z).
  { split.
    - apply Z.div_le_lower_bound; lia.
    - apply Z.div_le_upper_bound; lia. }
  destruct (scaled_f64_multiple B (px / d) HB Hkb) as [Hf Ht].
  fold d in Hf, Ht. rewrite <- Hk in Hf, Ht.
  split; [exact Hf|]. split; [exact Ht|]. lia.
Qed.

Lemma scale_does_not_clip_witness :
  slice_of (Arr [Arr [Arr [Arr [Scalar 8190; Scalar (-4095); Scalar 0]]]]%Z) (IInt 12) 0 0
  = Ok (Nd.map (fun px => 255 * (px / (2 ^ 12 - 1)))%Z
          (Arr [Arr [Scalar 8190; Scalar (-4095); Scalar 0]]%Z)).
Proof.
  apply (scale_does_not_clip
           (Arr [Arr [Arr [Arr [Scalar 8190; Scalar (-4095); Scalar 0]]]]%Z)
           (Arr [Arr [Arr [Scalar 8190; Scalar (-4095); Scalar 0]]]%Z)
           (Arr [Arr [Scalar 8190; Scalar (-4095); Scalar 0]]%Z) 0 0 12).
  - lia.
  - reflexivity.
  - reflexivity.
  - vm_compute. reflexivity.
Defined.

Example twice_the_full_scale :
  slice_of (Arr [Arr [px 8190]]) (IInt 12) 0 0 = Ok (px 510).
Proof. vm_compute. reflexivity. Qed.

End Written.

(* ===================================================================== *)
(** * Further properties: axes and settings *)
(* ===================================================================== *)

Section DictMore.

Context {V : Type}.

Lemma dict_get_set_eq (d : Dict.t V) (k : string) (v : V) :
  Dict.get (Dict.set d k v) k = Some v.
Proof.
  induction d as [|[k' v'] d IH]; cbn [Dict.set Dict.get].
  - rewrite String.eqb_refl. reflexivity.
  - destruct (String.eqb k' k) eqn:E; cbn [Dict.get].
    + rewrite String.eqb_refl. reflexivity.
    + rewrite E. exact IH.
Qed.

Lemma dict_set_fresh (d : Dict.t V) (k : string) (v : V) :
  Dict.get d k = None -> Dict.set d k v = d ++ [(k, v)].
Proof.
  induction d as [|[k' v'] d IH]; [reflexivity|].
  cbn [Dict.get Dict.set]. destruct (String.eqb k' k); [discriminate|].
  intros H. rewrite IH by exact H. reflexivity.
Qed.

Lemma dict_get_app_one (d : Dict.t V) (k k' : string) (v : V) :
  Dict.get d k' = None ->
  Dict.get (d ++ [(k, v)]) k' = if String.eqb k k' then Some v else None.
Proof.
  induction d as [|[k0 v0] d IH]; [reflexivity|].
  cbn [Dict.get app]. destruct (String.eqb k0 k'); [discriminate|]. exact IH.
Qed.

Lemma dict_get_app_none (d e : Dict.t V) (k : string) :
  Dict.get d k = None -> Dict.get (d ++ e) k = Dict.get e k.
Proof.
  induction d as [|[k0 v0] d IH]; [reflexivity|].
  cbn [Dict.get app]. destruct (String.eqb k0 k); [discriminate|]. exact IH.
Qed.

Lemma dict_keys_set_present (d : Dict.t V) (k : string) (v v' : V) :
  Dict.get d k = Some v -> Dict.keys (Dict.set d k v') = Dict.keys d.
Proof.
  induction d as [|[k0 v0] d IH]; [discriminate|].
  cbn [Dict.get Dict.set]. destruct (String.eqb k0 k) eqn:E.
  - intros _. apply String.eqb_eq in E. subst. reflexivity.
  - intros H. cbn [Dict.keys map fst]. f_equal. apply IH. exact H.
Qed.

End DictMore.

Section Axes.

Lemma axes_fold_get (c : ascii) (l : list ascii) (a : nat) (d : Dict.t nat) :
  Dict.get (fold_left (fun d '(i, x) => Dict.set d (String x "") i)
              (combine (seq a (length l)) l) d) (String c "")
  = match last_index c l with
    | Some i => Some (a + i)
    | None => Dict.get d (String c "")
    end.
Proof.
  revert a d. induction l as [|x l IH]; intros a d; [reflexivity|].
  cbn [length seq combine fold_left last_index]. rewrite IH.
  destruct (last_index c l) as [i|]; [f_equal; lia|].
  destruct (Ascii.eqb x c) eqn:E.
  - apply Ascii.eqb_eq in E. subst x. rewrite dict_get_set_eq. f_equal. lia.
  - apply dict_get_set_ne. intros [= H]. subst x.
    rewrite Ascii.eqb_refl in E. discriminate.
Qed.

Lemma axes_dict_of_get (axes : string) (c : ascii) :
  Dict.get (axes_dict_of axes) (String c "") = last_index c (list_ascii_of_string axes).
Proof.
  unfold axes_dict_of, enumerate. rewrite axes_fold_get.
  destruct (last_index c _); reflexivity.
Qed.

Lemma last_index_spec (c : ascii) (l : list ascii) :
  match last_index c l with
  | Some i => nth_error l i = Some c /\ forall j, i < j -> nth_error l j <> Some c
  | None => forall j, nth_error l j <> Some c
  end.
Proof.
  induction l as [|x l IH]; cbn [last_index].
  - intros [|j]; discriminate.
  - destruct (last_index c l) as [i|].
    + destruct IH as [Hi Hlast]. split; [exact Hi|].
      intros [|j] Hj; [lia|]. cbn [nth_error]. apply Hlast. lia.
    + destruct (Ascii.eqb x c) eqn:E.
      * apply Ascii.eqb_eq in E. subst x. split; [reflexivity|].
        intros [|j] Hj; [lia|]. cbn [nth_error]. apply IH.
      * intros [|j]; cbn [nth_error]; [|apply IH].
        intros [= H]. subst x. rewrite Ascii.eqb_refl in E. discriminate.
Qed.

Lemma last_index_none (c : ascii) (l : list ascii) :
  (forall j, nth_error l j <> Some c) -> last_index c l = None.
Proof.
  intros H. pose proof (last_index_spec c l) as Hs.
  destruct (last_index c l) as [i|]; [|reflexivity].
  destruct Hs as [Hi _]. exfalso. exact (H i Hi).
Qed.

(** X7: the position the script finds for an axis label is that of its
    last occurrence in [tiffs.axes]; a label is not found exactly when it
    does not occur. *)
Theorem axis_position_is_last_occurrence (axes : string) (c : ascii) :
  match Dict.get (axes_dict_of axes) (String c "") with
  | Some i =>
      nth_error (list_ascii_of_string axes) i = Some c
      /\ forall j, i < j -> nth_error (list_ascii_of_string axes) j <> Some c
  | None => forall j, nth_error (list_ascii_of_string axes) j <> Some c
  end.
Proof. rewrite axes_dict_of_get. apply last_index_spec. Qed.

End Axes.

Section ZAxis.

Lemma z_axis_head (l : list ascii) (a : nat) :
  hd_error (map (fun ix : nat * ascii => Str.str ix.1)
              (List.filter (fun ix : nat * ascii => Ascii.eqb ix.2 "Z")
                 (combine (seq a (length l)) l)))
  = option_map (fun i => Str.str (a + i)) (first_index "Z" l).
Proof.
  revert a. induction l as [|x l IH]; intros a; [reflexivity|].
  cbn [length seq combine List.filter first_index snd fst].
  destruct (Ascii.eqb x "Z").
  - cbn [map hd_error option_map fst]. do 2 f_equal. lia.
  - rewrite IH. destruct (first_index "Z" l) as [i|]; [|reflexivity].
    cbn [option_map]. do 2 f_equal. lia.
Qed.

Lemma z_axis_none (s : string) :
  first_index "Z" (list_ascii_of_string s) = None -> z_axis_of (IStr s) = Ok [].
Proof.
  intros H. cbn [z_axis_of]. unfold enumerate.
  pose proof (z_axis_head (list_ascii_of_string s) 0) as Hhd. rewrite H in Hhd.
  destruct (map _ (List.filter _ _)); [reflexivity | discriminate].
Qed.

Variable float_str : Q -> string.

(** X8: when the settings are read with success, the axis order is a
    string with a [Z]; the depth scale of the record is made of [Interval]
    and [UnitName] of the section named after the position of the first
    [Z], and the bit depth is [ValidBitCounts] of the reference section. *)
Theorem oif_metadata_reads_first_z (mf : Dict.t (Dict.t ini_value))
    (md md' : Dict.t pyval) (nbits : ini_value) :
  oif_metadata float_str mf md = Ok (md', nbits) ->
  exists reference axis_common s i axis interval unit_name,
    Dict.get mf "Reference Image Parameter" = Some reference
    /\ Dict.get reference "ValidBitCounts" = Some nbits
    /\ Dict.get mf "Axis Parameter Common" = Some axis_common
    /\ Dict.get axis_common "AxisOrder" = Some (IStr s)
    /\ first_index "Z" (list_ascii_of_string s) = Some i
    /\ Dict.get mf ("Axis " +:+ Str.str i +:+ " Parameters Common") = Some axis
    /\ Dict.get axis "Interval" = Some interval
    /\ Dict.get axis "UnitName" = Some unit_name
    /\ Dict.get md' "DepthConvert"
       = Some (PStr (format_ini float_str interval +:+ " "
                     +:+ format_ini float_str unit_name)).
Proof.
  unfold oif_metadata, Dict.getitem.
  destruct (Dict.get mf "Acquisition Parameters Common") as [acq|]; [|discriminate].
  cbn [rbind].
  destruct (Dict.get acq "ImageCaputreDate") as [dt|]; [|discriminate]. cbn [rbind].
  destruct (Dict.get mf "Reference Image Parameter") as [reference|] eqn:Eref;
    [|discriminate].
  cbn [rbind].
  destruct (Dict.get reference "HeightConvertValue") as [hv|]; [|discriminate].
  cbn [rbind].
  destruct (Dict.get reference "HeightUnit") as [hu|]; [|discriminate]. cbn [rbind].
  destruct (Dict.get reference "WidthConvertValue") as [wv|]; [|discriminate].
  cbn [rbind].
  destruct (Dict.get reference "WidthUnit") as [wu|]; [|discriminate]. cbn [rbind].
  destruct (Dict.get reference "ValidBitCounts") as [nb|] eqn:Enb; [|discriminate].
  cbn [rbind].
  destruct (Dict.get mf "Axis Parameter Common") as [ac|] eqn:Eac; [|discriminate].
  cbn [rbind].
  destruct (Dict.get ac "AxisOrder") as [ao|] eqn:Eao; [|discriminate]. cbn [rbind].
  destruct ao as [z|q|s]; try discriminate. cbn [z_axis_of rbind].
  pose proof (z_axis_head (list_ascii_of_string s) 0) as Hhd. unfold enumerate.
  destruct (map _ (List.filter _ _)) as [|z0 zs] eqn:Ez; [intros H; discriminate H|].
  cbn [hd_error] in Hhd.
  destruct (first_index "Z" (list_ascii_of_string s)) as [i|] eqn:Ei; [|discriminate].
  cbn [option_map] in Hhd. injection Hhd as ->. cbn [Nat.add].
  destruct (Dict.get mf ("Axis " +:+ Str.str i +:+ " Parameters Common"))
    as [axis|] eqn:Eax; cbn [rbind]; [|discriminate].
  destruct (Dict.get axis "Interval") as [iv|] eqn:Eiv; cbn [rbind]; [|discriminate].
  destruct (Dict.get axis "UnitName") as [un|] eqn:Eun; cbn [rbind]; [|discriminate].
  intros [= <- <-].
  exists reference, ac, s, i, axis, iv, un.
  repeat (split; [first [assumption | reflexivity]|]). apply dict_get_set_eq.
Qed.

Lemma oif_metadata_no_z (mf : Dict.t (Dict.t ini_value)) (md : Dict.t pyval)
    (axis_common : Dict.t ini_value) (s : string) :
  has_setting mf "Acquisition Parameters Common" "ImageCaputreDate" ->
  has_setting mf "Reference Image Parameter" "HeightConvertValue" ->
  has_setting mf "Reference Image Parameter" "HeightUnit" ->
  has_setting mf "Reference Image Parameter" "WidthConvertValue" ->
  has_setting mf "Reference Image Parameter" "WidthUnit" ->
  has_setting mf "Reference Image Parameter" "ValidBitCounts" ->
  Dict.get mf "Axis Parameter Common" = Some axis_common ->
  Dict.get axis_common "AxisOrder" = Some (IStr s) ->
  first_index "Z" (list_ascii_of_string s) = None ->
  oif_metadata float_str mf md = Raise IndexError.
Proof.
  intros (acq & dt & Ha & Hdt) (r1 & hv & Hr1 & Hhv) (r2 & hu & Hr2 & Hhu)
    (r3 & wv & Hr3 & Hwv) (r4 & wu & Hr4 & Hwu) (r5 & nb & Hr5 & Hnb) Hac Hao Hz.
  rewrite Hr1 in Hr2, Hr3, Hr4, Hr5.
  injection Hr2 as <-. injection Hr3 as <-. injection Hr4 as <-. injection Hr5 as <-.
  unfold oif_metadata, Dict.getitem.
  rewrite Ha. cbn [rbind]. rewrite Hdt. cbn [rbind]. rewrite Hr1. cbn [rbind].
  rewrite Hhv. cbn [rbind]. rewrite Hhu. cbn [rbind]. rewrite Hwv. cbn [rbind].
  rewrite Hwu. cbn [rbind]. rewrite Hnb. cbn [rbind]. rewrite Hac. cbn [rbind].
  rewrite Hao. cbn [rbind]. rewrite (z_axis_none s Hz). reflexivity.
Qed.

Lemma oif_to_dir_tree_metadata_error (in_file : string) (stains : list pyval)
    (person hpf treatment out_dir prefix : pyval) (oif : oif_file) (w : world) (e : exn) :
  fs w !! in_file = Some (File (Oif oif)) ->
  oif_metadata float_str (mainfile oif) (initial_metadata stains person hpf treatment)
    = Raise e ->
  oif_to_dir_tree float_str (PStr in_file) stains person hpf treatment out_dir prefix w
  = (Raise e, w).
Proof.
  intros Hoif Hmd. unfold oif_to_dir_tree. unfold bind at 1. unfold OifFile.
  rewrite Hoif. unfold bind at 1. unfold lift at 1. rewrite Hmd. reflexivity.
Qed.

(** X9: when the axis order of the settings has no [Z] (the settings read
    before it being there), [oif_to_dir_tree] raises [IndexError] with the
    world as it was: no directory is created. *)
Theorem missing_z_axis_index_error (in_file : string) (stains : list pyval)
    (person hpf treatment out_dir prefix : pyval) (oif : oif_file) (w : world)
    (axis_common : Dict.t ini_value) (s : string) :
  fs w !! in_file = Some (File (Oif oif)) ->
  has_setting (mainfile oif) "Acquisition Parameters Common" "ImageCaputreDate" ->
  has_setting (mainfile oif) "Reference Image Parameter" "HeightConvertValue" ->
  has_setting (mainfile oif) "Reference Image Parameter" "HeightUnit" ->
  has_setting (mainfile oif) "Reference Image Parameter" "WidthConvertValue" ->
  has_setting (mainfile oif) "Reference Image Parameter" "WidthUnit" ->
  has_setting (mainfile oif) "Reference Image Parameter" "ValidBitCounts" ->
  Dict.get (mainfile oif) "Axis Parameter Common" = Some axis_common ->
  Dict.get axis_common "AxisOrder" = Some (IStr s) ->
  first_index "Z" (list_ascii_of_string s) = None ->
  oif_to_dir_tree float_str (PStr in_file) stains person hpf treatment out_dir prefix w
  = (Raise IndexError, w).
Proof.
  intros Hoif H1 H2 H3 H4 H5 H6 Hac Hao Hz.
  apply (oif_to_dir_tree_metadata_error in_file stains person hpf treatment
           out_dir prefix oif w IndexError Hoif).
  apply (oif_metadata_no_z _ _ axis_common s); assumption.
Qed.

(** X10: once the container is open and its settings are read, a [prefix]
    or an [out_dir] that is not a string (such as [null] in the
    descriptor) raises [TypeError] with the world as it was. *)
Theorem non_string_prefix_type_error (in_file : string) (stains : list pyval)
    (person hpf treatment out_dir prefix : pyval) (oif : oif_file) (w : world)
    (md : Dict.t pyval) (nbits : ini_value) :
  fs w !! in_file = Some (File (Oif oif)) ->
  oif_metadata float_str (mainfile oif) (initial_metadata stains person hpf treatment)
    = Ok (md, nbits) ->
  is_str prefix && is_str out_dir = false ->
  oif_to_dir_tree float_str (PStr in_file) stains person hpf treatment out_dir prefix w
  = (Raise TypeError, w).
Proof.
  intros Hoif Hmd Hty. unfold oif_to_dir_tree. unfold bind at 1. unfold OifFile.
  rewrite Hoif. unfold bind at 1. unfold lift at 1. rewrite Hmd.
  unfold bind at 1. unfold lift at 1.
  destruct prefix; try reflexivity. cbn [as_str].
  unfold bind at 1. unfold lift at 1. cbn [as_str].
  unfold bind at 1. unfold lift at 1.
  destruct out_dir; try reflexivity. discriminate Hty.
Qed.

(** X11: a volume whose [tiffs.axes] has no [C], or has a [C] and no [Z],
    makes [oif_to_dir_tree] raise [ValueError] only after the parent
    directory, here absent before the run, has been created: the
    directory is left behind. *)
Theorem missing_axis_after_parent_dir (in_file out_dir prefix : string)
    (stains : list pyval) (person hpf treatment : pyval) (oif : oif_file) (w : world)
    (md : Dict.t pyval) (nbits : ini_value) :
  let base_dir :=
    path.join out_dir (prefix +:+ path.splitext_root (path.basename in_file)) in
  let w' := emit (Makedirs base_dir) (with_fs (<[base_dir := Dir]> (fs w)) w) in
  fs w !! in_file = Some (File (Oif oif)) ->
  oif_metadata float_str (mainfile oif) (initial_metadata stains person hpf treatment)
    = Ok (md, nbits) ->
  fs w !! base_dir = None ->
  ((forall j, nth_error (list_ascii_of_string (tiffs_axes oif)) j <> Some "C"%char) ->
   oif_to_dir_tree float_str (PStr in_file) stains person hpf treatment
     (PStr out_dir) (PStr prefix) w
   = (Raise (ValueError "Error: No channel axis found."), w'))
  /\ (forall i, Dict.get (axes_dict_of (tiffs_axes oif)) "C" = Some i ->
      (forall j, nth_error (list_ascii_of_string (tiffs_axes oif)) j <> Some "Z"%char) ->
      oif_to_dir_tree float_str (PStr in_file) stains person hpf treatment
        (PStr out_dir) (PStr prefix) w
      = (Raise (ValueError "Error: No z-axis found."), w')).
Proof.
  intros base_dir w' Hoif Hmd Hfresh.
  split.
  - intros Hno. unfold oif_to_dir_tree. unfold bind at 1. unfold OifFile.
    rewrite Hoif. unfold bind at 1. unfold lift at 1. rewrite Hmd.
    unfold bind at 1. unfold lift at 1. cbn [as_str].
    unfold bind at 1. unfold lift at 1.
    unfold bind at 1. unfold lift at 1.
    fold base_dir. unfold bind at 1. unfold parent_dir_step.
    unfold bind at 1. unfold path_exists. rewrite Hfresh.
    rewrite bool_decide_eq_false_2 by (intros [x Hx]; discriminate).
    cbn [negb]. unfold makedirs. rewrite Hfresh. fold w'.
    unfold bind at 1. unfold lift at 1.
    rewrite axes_dict_of_get.
    rewrite (last_index_none _ _ Hno). reflexivity.
  - intros i Hc Hno. unfold oif_to_dir_tree. unfold bind at 1. unfold OifFile.
    rewrite Hoif. unfold bind at 1. unfold lift at 1. rewrite Hmd.
    unfold bind at 1. unfold lift at 1. cbn [as_str].
    unfold bind at 1. unfold lift at 1.
    unfold bind at 1. unfold lift at 1.
    fold base_dir. unfold bind at 1. unfold parent_dir_step.
    unfold bind at 1. unfold path_exists. rewrite Hfresh.
    rewrite bool_decide_eq_false_2 by (intros [x Hx]; discriminate).
    cbn [negb]. unfold makedirs. rewrite Hfresh. fold w'.
    unfold bind at 1. unfold lift at 1. rewrite Hc.
    unfold bind at 1. unfold lift at 1.
    rewrite axes_dict_of_get.
    rewrite (last_index_none _ _ Hno). reflexivity.
Qed.

End ZAxis.

Lemma oif_metadata_reads_first_z_witness :
  exists md' nbits,
    oif_metadata const_float_str (settings 8) [] = Ok (md', nbits)
    /\ exists reference axis_common s i axis interval unit_name,
    Dict.get (settings 8) "Reference Image Parameter" = Some reference
    /\ Dict.get reference "ValidBitCounts" = Some nbits
    /\ Dict.get (settings 8) "Axis Parameter Common" = Some axis_common
    /\ Dict.get axis_common "AxisOrder" = Some (IStr s)
    /\ first_index "Z" (list_ascii_of_string s) = Some i
    /\ Dict.get (settings 8) ("Axis " +:+ Str.str i +:+ " Parameters Common") = Some axis
    /\ Dict.get axis "Interval" = Some interval
    /\ Dict.get axis "UnitName" = Some unit_name
    /\ Dict.get md' "DepthConvert"
       = Some (PStr (format_ini const_float_str interval +:+ " "
                     +:+ format_ini const_float_str unit_name)).
Proof.
  eexists. eexists. split; [reflexivity|].
  apply (oif_metadata_reads_first_z const_float_str (settings 8) []). reflexivity.
Defined.

Lemma missing_z_axis_index_error_witness :
  let w := world_with no_z_oif (job (PFloat (13 # 2))) [] [] in
  oif_to_dir_tree const_float_str (PStr "/data/emb.oif")
    [PStr "dapi"; PStr "gfp"] (PStr "A") (PFloat (13 # 2)) (PStr "none")
    (PStr "/tmp/out") (PStr "") w
  = (Raise IndexError, w).
Proof.
  apply (missing_z_axis_index_error const_float_str "/data/emb.oif"
           [PStr "dapi"; PStr "gfp"] (PStr "A") (PFloat (13 # 2)) (PStr "none")
           (PStr "/tmp/out") (PStr "") no_z_oif
           (world_with no_z_oif (job (PFloat (13 # 2))) [] [])
           [("AxisOrder", IStr "XYCT")] "XYCT");
    try reflexivity; do 2 eexists; split; reflexivity.
Defined.

Lemma non_string_prefix_type_error_witness :
  let w := world_with cz_oif (job (PFloat (13 # 2))) [] [] in
  oif_to_dir_tree const_float_str (PStr "/data/emb.oif")
    [PStr "dapi"; PStr "gfp"] (PStr "A") (PFloat (13 # 2)) (PStr "none")
    (PStr "/tmp/out") PNone w
  = (Raise TypeError, w).
Proof.
  eapply (non_string_prefix_type_error const_float_str "/data/emb.oif"
            [PStr "dapi"; PStr "gfp"] (PStr "A") (PFloat (13 # 2)) (PStr "none")
            (PStr "/tmp/out") PNone cz_oif
            (world_with cz_oif (job (PFloat (13 # 2))) [] [])); reflexivity.
Defined.

Lemma missing_axis_after_parent_dir_witness :
  let w := world_with no_c_oif (job (PFloat (13 # 2))) [] [] in
  let base_dir :=
    path.join "/tmp/out" ("" +:+ path.splitext_root (path.basename "/data/emb.oif")) in
  let w' := emit (Makedirs base_dir) (with_fs (<[base_dir := Dir]> (fs w)) w) in
  ((forall j, nth_error (list_ascii_of_string (tiffs_axes no_c_oif)) j <> Some "C"%char) ->
   oif_to_dir_tree const_float_str (PStr "/data/emb.oif")
     [PStr "dapi"; PStr "gfp"] (PStr "A") (PFloat (13 # 2)) (PStr "none")
     (PStr "/tmp/out") (PStr "") w
   = (Raise (ValueError "Error: No channel axis found."), w'))
  /\ (forall i, Dict.get (axes_dict_of (tiffs_axes no_c_oif)) "C" = Some i ->
      (forall j, nth_error (list_ascii_of_string (tiffs_axes no_c_oif)) j <> Some "Z"%char) ->
      oif_to_dir_tree const_float_str (PStr "/data/emb.oif")
        [PStr "dapi"; PStr "gfp"] (PStr "A") (PFloat (13 # 2)) (PStr "none")
        (PStr "/tmp/out") (PStr "") w
      = (Raise (ValueError "Error: No z-axis found."), w')).
Proof.
  eapply (missing_axis_after_parent_dir const_float_str "/data/emb.oif" "/tmp/out" ""
            [PStr "dapi"; PStr "gfp"] (PStr "A") (PFloat (13 # 2)) (PStr "none")
            no_c_oif (world_with no_c_oif (job (PFloat (13 # 2))) [] []));
    reflexivity.
Defined.

Example missing_channel_axis_run :
  let w := world_with no_c_oif (job (PFloat (13 # 2))) [] [] in
  let '(status, w') := run const_float_str ["job.json"] w in
  status = Some 1%Z /\ log w' = [Makedirs "/tmp/out/emb"]
  /\ fs w' !! "/tmp/out/emb" = Some Dir.
Proof. vm_compute. repeat split. Qed.

(* ===================================================================== *)
(** * Further properties: the record and the stains *)
(* ===================================================================== *)

Section Record.

Lemma channel_key_eqb (i j : nat) :
  String.eqb (channel_key i) (channel_key j) = (i =? j).
Proof.
  destruct (Nat.eqb_spec i j) as [->|Hne]; [apply String.eqb_refl|].
  apply String.eqb_neq. unfold channel_key. intros H.
  apply str_app_inv_head in H. apply str_inj in H. lia.
Qed.

(** While the keys to come are absent, each stain is appended. *)
Lemma channel_fold (l : list pyval) (a : nat) (d : Dict.t pyval) :
  (forall j, a <= j -> Dict.get d (channel_key j) = None) ->
  fold_left
    (fun metadata '(i, each) =>
       Dict.set metadata ("Channel" +:+ Str.str (i + 1)) (PDict [("Stain", each)]))
    (combine (seq a (length l)) l) d
  = d ++ map channel_entry (combine (seq a (length l)) l).
Proof.
  revert a d. induction l as [|x l IH]; intros a d Hfresh.
  - cbn. rewrite app_nil_r. reflexivity.
  - cbn [length seq combine fold_left map].
    fold (channel_key a). rewrite dict_set_fresh by (apply Hfresh; lia).
    rewrite IH.
    + rewrite <- List.app_assoc. reflexivity.
    + intros j Hj. rewrite dict_get_app_one by (apply Hfresh; lia).
      rewrite channel_key_eqb. destruct (Nat.eqb_spec a j); [lia | reflexivity].
Qed.

Lemma channel_entries_get (l : list pyval) (a i : nat) :
  Dict.get (map channel_entry (combine (seq a (length l)) l)) (channel_key (a + i))
  = (fun each => PDict [("Stain", each)]) <$> nth_error l i.
Proof.
  revert a i. induction l as [|x l IH]; intros a i.
  - destruct i; reflexivity.
  - cbn [length seq combine map Dict.get channel_entry fst snd].
    rewrite channel_key_eqb. destruct i as [|i].
    + rewrite Nat.add_0_r, Nat.eqb_refl. reflexivity.
    + destruct (Nat.eqb_spec a (a + S i)); [lia|].
      replace (a + S i) with (S a + i) by lia. apply IH.
Qed.

Lemma initial_metadata_shape (stains : list pyval) (person hpf treatment : pyval) :
  initial_metadata stains person hpf treatment
  = [("Person", person); ("HPF", hpf); ("Treatment", treatment)]
    ++ map channel_entry (enumerate stains).
Proof.
  unfold initial_metadata, enumerate. cbn [Dict.set String.eqb Ascii.eqb Bool.eqb].
  apply channel_fold. intros j _. reflexivity.
Qed.

(** X12: for any number of stains, the record starts with [Person], [HPF]
    and [Treatment] as given, followed by one entry per stain in the
    order of the list: the stain at position [i] (from 0) is found under
    [Channel<i+1>], and no entry replaces another. *)
Theorem initial_metadata_entries (stains : list pyval) (person hpf treatment : pyval) :
  initial_metadata stains person hpf treatment
  = [("Person", person); ("HPF", hpf); ("Treatment", treatment)]
    ++ map channel_entry (enumerate stains)
  /\ (forall i each, nth_error stains i = Some each ->
        Dict.get (initial_metadata stains person hpf treatment)
          ("Channel" +:+ Str.str (i + 1)) = Some (PDict [("Stain", each)]))
  /\ Dict.get (initial_metadata stains person hpf treatment) "Person" = Some person
  /\ Dict.get (initial_metadata stains person hpf treatment) "HPF" = Some hpf
  /\ Dict.get (initial_metadata stains person hpf treatment) "Treatment" = Some treatment.
Proof.
  pose proof (initial_metadata_shape stains person hpf treatment) as Hshape.
  split; [exact Hshape|]. rewrite Hshape.
  split; [|repeat split; reflexivity].
  intros i each Hi. rewrite dict_get_app_none by reflexivity.
  pose proof (channel_entries_get stains 0 i) as H. cbn [Nat.add] in H.
  unfold enumerate. fold (channel_key i). rewrite H, Hi. reflexivity.
Qed.

End Record.

Section Stains.

Lemma stains_of_keys (d : Dict.t pyval) (ks : list string) :
  Forall (fun k => In k (Dict.keys d)) ks ->
  exists l, stains_of (PDict d) ks = Ok l
            /\ Forall2 (fun k v => Dict.get d k = Some v) ks l.
Proof.
  induction 1 as [|k ks Hk _ IH].
  - exists []. split; [reflexivity | constructor].
  - destruct (get_in_keys d k Hk) as [v Hv]. destruct IH as (l & Hl & Hall).
    exists (v :: l). split.
    + cbn [stains_of getitem]. unfold Dict.getitem. rewrite Hv. cbn [rbind].
      rewrite Hl. reflexivity.
    + constructor; assumption.
Qed.

Example ten_stains_order :
  sort ["1"; "2"; "3"; "4"; "5"; "6"; "7"; "8"; "9"; "10"]
  = ["1"; "10"; "2"; "3"; "4"; "5"; "6"; "7"; "8"; "9"].
Proof. reflexivity. Qed.

End Stains.

(* ===================================================================== *)
(** * Further properties: [check_input_dict] *)
(* ===================================================================== *)

Section Validator.

Local Open Scope py_scope.

Lemma default_out_dir_ok (d : Dict.t pyval) (o : pyval) :
  Dict.get d "out_dir" = Some o ->
  default_out_dir (PDict d) = Ok (PDict (normalized_out_dir d)).
Proof.
  intros H. unfold default_out_dir, normalized_out_dir, getitem, Dict.getitem.
  rewrite H. cbn [rbind]. destruct o as [ |b|z|q|s|l|d0]; try reflexivity.
  destruct s; reflexivity.
Qed.

Lemma forallb_id_map {A} (f : A -> bool) (l : list A) :
  forallb id (map f l) = forallb f l.
Proof. induction l as [|x l IH]; [reflexivity|]. cbn. rewrite IH. reflexivity. Qed.

(** The validator, case by case. *)
Lemma check_input_dict_eq (d : Dict.t pyval) (w : world) :
  check_input_dict (PDict d) w
  = match Dict.get d "out_dir" with
    | None => (Raise (KeyError "out_dir"), after_key_check d w)
    | Some _ =>
        match Dict.get (normalized_out_dir d) "prefix" with
        | None => (Raise (KeyError "prefix"), after_key_check d w)
        | Some _ =>
            (Ok (PDict (normalized_prefix (normalized_out_dir d))), after_key_check d w)
        end
    end.
Proof.
  unfold check_input_dict. unfold bind at 1. unfold lift at 1. cbn [keys].
  unfold bind at 1. rewrite forallb_id_map. fold (known_keys d).
  assert (Hw : (if negb (known_keys d) then usage else ret tt) w
               = (Ok tt, after_key_check d w)).
  { unfold after_key_check. destruct (known_keys d); reflexivity. }
  rewrite Hw. unfold bind at 1. unfold lift at 1.
  destruct (Dict.get d "out_dir") as [o|] eqn:Eo.
  - rewrite (default_out_dir_ok d o Eo). unfold bind at 1. unfold lift at 1.
    cbn [getitem]. unfold Dict.getitem, normalized_prefix.
    destruct (Dict.get (normalized_out_dir d) "prefix") as [p|]; [|reflexivity].
    destruct p; reflexivity.
  - unfold default_out_dir. cbn [getitem]. unfold Dict.getitem. rewrite Eo. reflexivity.
Qed.

Lemma normalized_out_dir_get (d : Dict.t pyval) (k : string) :
  k <> "out_dir" -> Dict.get (normalized_out_dir d) k = Dict.get d k.
Proof.
  intros Hk. unfold normalized_out_dir.
  destruct (Dict.get d "out_dir") as [[ | | | |[|c s]| | ]|]; try reflexivity.
  apply dict_get_set_ne. congruence.
Qed.

Lemma normalized_prefix_get (d : Dict.t pyval) (k : string) :
  k <> "prefix" -> Dict.get (normalized_prefix d) k = Dict.get d k.
Proof.
  intros Hk. unfold normalized_prefix.
  destruct (Dict.get d "prefix") as [[ | | | | | | ]|]; try reflexivity.
  apply dict_get_set_ne. congruence.
Qed.

Lemma normalized_out_dir_self (d : Dict.t pyval) (o : pyval) :
  Dict.get d "out_dir" = Some o ->
  exists o', Dict.get (normalized_out_dir d) "out_dir" = Some o' /\ o' <> PStr "".
Proof.
  intros H. unfold normalized_out_dir. rewrite H.
  destruct o as [ |b|z|q|s|l|d0]; try (eexists; split; [exact H | discriminate]).
  destruct s as [|c s].
  - exists (PStr "."). split; [apply dict_get_set_eq | discriminate].
  - eexists; split; [exact H | discriminate].
Qed.

Lemma normalized_prefix_self (d : Dict.t pyval) (p : pyval) :
  Dict.get d "prefix" = Some p ->
  exists p', Dict.get (normalized_prefix d) "prefix" = Some p' /\ p' <> PNone.
Proof.
  intros H. unfold normalized_prefix. rewrite H.
  destruct p; try (eexists; split; [exact H | discriminate]).
  exists (PStr ""). split; [apply dict_get_set_eq | discriminate].
Qed.

Lemma normalized_keys (d : Dict.t pyval) :
  Dict.keys (normalized_prefix (normalized_out_dir d)) = Dict.keys d.
Proof.
  transitivity (Dict.keys (normalized_out_dir d)).
  - unfold normalized_prefix.
    destruct (Dict.get (normalized_out_dir d) "prefix") as [[ | | | | | | ]|] eqn:E;
      try reflexivity.
    eapply dict_keys_set_present. exact E.
  - unfold normalized_out_dir.
    destruct (Dict.get d "out_dir") as [[ | | | |[|c s]| | ]|] eqn:E; try reflexivity.
    eapply dict_keys_set_present. exact E.
Qed.

Lemma normalized_out_dir_fixed (d : Dict.t pyval) (o : pyval) :
  Dict.get d "out_dir" = Some o -> o <> PStr "" -> normalized_out_dir d = d.
Proof.
  intros H Hne. unfold normalized_out_dir. rewrite H.
  destruct o as [ |b|z|q|s|l|d0]; try reflexivity. destruct s; [congruence | reflexivity].
Qed.

Lemma normalized_prefix_fixed (d : Dict.t pyval) (p : pyval) :
  Dict.get d "prefix" = Some p -> p <> PNone -> normalized_prefix d = d.
Proof.
  intros H Hne. unfold normalized_prefix. rewrite H. destruct p; congruence.
Qed.

(** X14: on a JSON object [check_input_dict] never ends the process: it
    prints the usage when a key is not expected and goes on. It asks for
    [out_dir] first and for [prefix] next: without [out_dir] it raises
    [KeyError('out_dir')], whether [prefix] is there or not; with [out_dir]
    and without [prefix] it raises [KeyError('prefix')]; with both it
    returns. The other five keys are not asked for. *)
Theorem check_input_dict_requires_two_keys (d : Dict.t pyval) (w : world) :
  let '(r, w') := check_input_dict (PDict d) w in
  w' = after_key_check d w
  /\ match Dict.get d "out_dir", Dict.get d "prefix" with
     | None, _ => r = Raise (KeyError "out_dir")
     | Some _, None => r = Raise (KeyError "prefix")
     | Some _, Some _ => exists v, r = Ok v
     end.
Proof.
  rewrite check_input_dict_eq.
  destruct (Dict.get d "out_dir") as [o|] eqn:Eo.
  - rewrite normalized_out_dir_get by discriminate.
    destruct (Dict.get d "prefix") as [p|] eqn:Ep.
    + split; [reflexivity|]. eexists. reflexivity.
    + split; reflexivity.
  - split; reflexivity.
Qed.

(** X15: the descriptor [check_input_dict] returns has the keys of the one
    it was given, in their order, an [out_dir] that is not the empty
    string and a [prefix] that is not [None]; all other values are
    unchanged, and so are the file system and the standard input. *)
Theorem check_input_dict_normalizes (d : Dict.t pyval) (w w' : world) (v : pyval) :
  check_input_dict (PDict d) w = (Ok v, w') ->
  exists d', v = PDict d'
    /\ (exists o, Dict.get d' "out_dir" = Some o /\ o <> PStr "")
    /\ (exists p, Dict.get d' "prefix" = Some p /\ p <> PNone)
    /\ (forall k, k <> "out_dir" -> k <> "prefix" -> Dict.get d' k = Dict.get d k)
    /\ Dict.keys d' = Dict.keys d
    /\ fs w' = fs w /\ stdin w' = stdin w.
Proof.
  rewrite check_input_dict_eq.
  destruct (Dict.get d "out_dir") as [o|] eqn:Eo; [|discriminate].
  destruct (Dict.get (normalized_out_dir d) "prefix") as [p|] eqn:Ep; [|discriminate].
  intros [= <- <-]. eexists. split; [reflexivity|].
  split; [|split; [|split; [|split; [|split]]]].
  - destruct (normalized_out_dir_self d o Eo) as (o' & Ho' & Hne).
    exists o'. split; [|exact Hne]. rewrite normalized_prefix_get by discriminate. exact Ho'.
  - apply (normalized_prefix_self _ p Ep).
  - intros k Hk1 Hk2. rewrite normalized_prefix_get by exact Hk2.
    apply normalized_out_dir_get. exact Hk1.
  - apply normalized_keys.
  - unfold after_key_check. destruct (known_keys d); reflexivity.
  - unfold after_key_check. destruct (known_keys d); reflexivity.
Qed.

(** X16: [check_input_dict] changes nothing in a descriptor it has
    returned: applied to its own result it returns it again. *)
Theorem check_input_dict_idempotent (d : Dict.t pyval) (w w' : world) (v : pyval) :
  check_input_dict (PDict d) w = (Ok v, w') ->
  exists w'', check_input_dict v w' = (Ok v, w'') /\ fs w'' = fs w.
Proof.
  intros H. pose proof H as H0. rewrite check_input_dict_eq in H0.
  destruct (Dict.get d "out_dir") as [o|] eqn:Eo; [|discriminate].
  destruct (Dict.get (normalized_out_dir d) "prefix") as [p|] eqn:Ep; [|discriminate].
  injection H0 as <- <-.
  set (d' := normalized_prefix (normalized_out_dir d)).
  destruct (normalized_out_dir_self d o Eo) as (o' & Ho' & Hneo).
  destruct (normalized_prefix_self _ p Ep) as (p' & Hp' & Hnep). fold d' in Hp'.
  assert (Hod : Dict.get d' "out_dir" = Some o').
  { unfold d'. rewrite normalized_prefix_get by discriminate. exact Ho'. }
  assert (Hfix1 : normalized_out_dir d' = d')
    by (eapply normalized_out_dir_fixed; eassumption).
  assert (Hfix2 : normalized_prefix d' = d')
    by (eapply normalized_prefix_fixed; eassumption).
  eexists. rewrite check_input_dict_eq, Hod, Hfix1, Hp', Hfix2.
  split; [reflexivity|].
  unfold after_key_check. destruct (known_keys d'), (known_keys d); reflexivity.
Qed.

End Validator.

Lemma check_input_dict_normalizes_witness :
  let d := [("out_dir", PStr ""); ("bogus", PInt 1); ("prefix", PNone)] in
  let w := world_with cz_oif (PDict d) [] [] in
  exists d', PDict [("out_dir", PStr "."); ("bogus", PInt 1); ("prefix", PStr "")] = PDict d'
    /\ (exists o, Dict.get d' "out_dir" = Some o /\ o <> PStr "")
    /\ (exists p, Dict.get d' "prefix" = Some p /\ p <> PNone)
    /\ (forall k, k <> "out_dir" -> k <> "prefix" -> Dict.get d' k = Dict.get d k)
    /\ Dict.keys d' = Dict.keys d
    /\ fs (emit (Print usage_msg) w) = fs w /\ stdin (emit (Print usage_msg) w) = stdin w.
Proof.
  apply (check_input_dict_normalizes
           [("out_dir", PStr ""); ("bogus", PInt 1); ("prefix", PNone)]
           (world_with cz_oif
              (PDict [("out_dir", PStr ""); ("bogus", PInt 1); ("prefix", PNone)]) [] [])).
  reflexivity.
Defined.

Lemma check_input_dict_idempotent_witness :
  let d := [("out_dir", PStr ""); ("bogus", PInt 1); ("prefix", PNone)] in
  let v := PDict [("out_dir", PStr "."); ("bogus", PInt 1); ("prefix", PStr "")] in
  let w := world_with cz_oif (PDict d) [] [] in
  exists w'', check_input_dict v (emit (Print usage_msg) w) = (Ok v, w'')
              /\ fs w'' = fs w.
Proof.
  apply (check_input_dict_idempotent
           [("out_dir", PStr ""); ("bogus", PInt 1); ("prefix", PNone)]
           (world_with cz_oif
              (PDict [("out_dir", PStr ""); ("bogus", PInt 1); ("prefix", PNone)]) [] [])).
  reflexivity.
Defined.

(* ===================================================================== *)
(** * Further properties: a run that succeeds *)
(* ===================================================================== *)

Section Inversion.

Local Open Scope py_scope.

Lemma bind_ok_inv {A B} (m : M A) (k : A -> M B) (w w' : world) (b : B) :
  bind m k w = (Ok b, w') ->
  exists a w1, m w = (Ok a, w1) /\ k a w1 = (Ok b, w').
Proof.
  unfold bind. destruct (m w) as [[a|e] w1]; [|discriminate].
  intros H. exists a, w1. split; [reflexivity | exact H].
Qed.

Lemma lift_ok_inv {A} (r : result A) (w w' : world) (a : A) :
  lift r w = (Ok a, w') -> r = Ok a /\ w' = w.
Proof. unfold lift. intros [= -> ->]. split; reflexivity. Qed.

Lemma json_dump_to_ok (p : string) (v : pyval) (w w' : world) :
  json_dump_to p v w = (Ok tt, w') ->
  log w' = log w ++ [JsonDump p v] /\ fs w' !! p = Some (File (Json v))
  /\ stdin w' = stdin w.
Proof.
  unfold json_dump_to. destruct (writable (fs w) p); [|discriminate].
  intros [= <-]. cbn [emit with_fs log fs stdin].
  split; [reflexivity|]. split; [apply lookup_insert_eq | reflexivity].
Qed.

Variable float_str : Q -> string.

(** X17: when [oif_to_dir_tree] returns, its [in_file], [out_dir] and
    [prefix] were strings, and the last thing it did was to write the
    record to [metadata.json] in the parent directory; the record holds
    [Person], [HPF] and [Treatment] as they were given. *)
Theorem successful_run_writes_record (in_file : pyval) (stains : list pyval)
    (person hpf treatment out_dir prefix : pyval) (w w' : world) :
  oif_to_dir_tree float_str in_file stains person hpf treatment out_dir prefix w
    = (Ok tt, w') ->
  exists in_file_s out_dir_s prefix_s md earlier,
    in_file = PStr in_file_s /\ out_dir = PStr out_dir_s /\ prefix = PStr prefix_s
    /\ let base_dir :=
         path.join out_dir_s
           (prefix_s +:+ path.splitext_root (path.basename in_file_s)) in
       let record := path.join base_dir "metadata.json" in
       log w' = earlier ++ [JsonDump record (PDict md)]
       /\ fs w' !! record = Some (File (Json (PDict md)))
       /\ Dict.get md "Person" = Some person
       /\ Dict.get md "HPF" = Some hpf
       /\ Dict.get md "Treatment" = Some treatment.
Proof.
  unfold oif_to_dir_tree. intros H.
  apply bind_ok_inv in H. destruct H as (oif & w1 & Hoif & H).
  apply bind_ok_inv in H. destruct H as ([md nbits] & w2 & Hmd & H).
  apply lift_ok_inv in Hmd. destruct Hmd as [Hmd ->]. cbn [fst snd] in H.
  apply bind_ok_inv in H. destruct H as (prefix_s & w3 & Hp & H).
  apply lift_ok_inv in Hp. destruct Hp as [Hp ->].
  apply bind_ok_inv in H. destruct H as (in_file_s & w4 & Hi & H).
  apply lift_ok_inv in Hi. destruct Hi as [Hi ->].
  apply bind_ok_inv in H. destruct H as (out_dir_s & w5 & Ho & H).
  apply lift_ok_inv in Ho. destruct Ho as [Ho ->].
  apply bind_ok_inv in H. destruct H as ([] & w6 & _ & H).
  apply bind_ok_inv in H. destruct H as (ci & w7 & _ & H).
  apply bind_ok_inv in H. destruct H as (zi & w8 & _ & H).
  apply bind_ok_inv in H. destruct H as (nc & w9 & _ & H).
  apply bind_ok_inv in H. destruct H as ([] & w10 & _ & H).
  apply json_dump_to_ok in H. destruct H as (Hlog & Hfs & _).
  destruct prefix; try discriminate Hp. injection Hp as ->.
  destruct in_file; try discriminate Hi. injection Hi as ->.
  destruct out_dir; try discriminate Ho. injection Ho as ->.
  exists in_file_s, out_dir_s, prefix_s, md, (log w10).
  split; [reflexivity|]. split; [reflexivity|]. split; [reflexivity|].
  cbn zeta. split; [exact Hlog|]. split; [exact Hfs|].
  apply oif_metadata_extends in Hmd. destruct Hmd as (dt & h & wv & dp & ->).
  rewrite !dict_get_set_ne by discriminate.
  rewrite initial_metadata_shape. repeat split; reflexivity.
Qed.

End Inversion.

Lemma successful_run_writes_record_witness :
  let w := world_with cz_oif (job (PFloat (13 # 2))) [] [] in
  let r := oif_to_dir_tree const_float_str (PStr "/data/emb.oif")
             [PStr "dapi"; PStr "gfp"] (PStr "A") (PFloat (13 # 2)) (PStr "none")
             (PStr "/tmp/out") (PStr "") w in
  r.1 = Ok tt
  /\ exists in_file_s out_dir_s prefix_s md earlier,
    PStr "/data/emb.oif" = PStr in_file_s /\ PStr "/tmp/out" = PStr out_dir_s
    /\ PStr "" = PStr prefix_s
    /\ let base_dir :=
         path.join out_dir_s
           (prefix_s +:+ path.splitext_root (path.basename in_file_s)) in
       let record := path.join base_dir "metadata.json" in
       log r.2 = earlier ++ [JsonDump record (PDict md)]
       /\ fs r.2 !! record = Some (File (Json (PDict md)))
       /\ Dict.get md "Person" = Some (PStr "A")
       /\ Dict.get md "HPF" = Some (PFloat (13 # 2))
       /\ Dict.get md "Treatment" = Some (PStr "none").
Proof.
  cbv zeta. split; [vm_compute; reflexivity|].
  apply (successful_run_writes_record const_float_str (PStr "/data/emb.oif")
           [PStr "dapi"; PStr "gfp"] (PStr "A") (PFloat (13 # 2)) (PStr "none")
           (PStr "/tmp/out") (PStr "")
           (world_with cz_oif (job (PFloat (13 # 2))) [] [])).
  vm_compute. reflexivity.
Defined.

(* ===================================================================== *)
(** * Further properties: the output tree *)
(* ===================================================================== *)

Section PathFacts.

Lemma no_sep_app (s t : string) : no_sep (s +:+ t) = no_sep s && no_sep t.
Proof.
  induction s as [|c s IH]; [reflexivity|].
  rewrite app_cons. cbn [no_sep]. rewrite IH, andb_assoc. reflexivity.
Qed.

Lemma no_sep_digits (s : string) : digits s -> no_sep s = true.
Proof.
  induction s as [|c s IH]; [reflexivity|]. intros [Hc Hs]. cbn [no_sep].
  rewrite (IH Hs), andb_true_r. apply negb_true_iff. apply Ascii.eqb_neq.
  intros ->. unfold is_digit in Hc. vm_compute in Hc. lia.
Qed.

Lemma rsplit_no_sep (s : string) : no_sep s = true -> Str.rsplit_sep s = None.
Proof.
  induction s as [|c s IH]; [reflexivity|]. cbn [no_sep Str.rsplit_sep].
  intros H. apply andb_true_iff in H. destruct H as [Hc Hs].
  rewrite (IH Hs). apply negb_true_iff in Hc. rewrite Hc. reflexivity.
Qed.

Lemma rsplit_join (a b : string) :
  no_sep b = true -> Str.rsplit_sep (a +:+ "/" +:+ b) = Some (a, b).
Proof.
  intros Hb. induction a as [|c a IH].
  - change ("" +:+ "/" +:+ b) with (String "/" b). cbn [Str.rsplit_sep].
    rewrite (rsplit_no_sep b Hb). reflexivity.
  - rewrite app_cons. cbn [Str.rsplit_sep]. rewrite IH. reflexivity.
Qed.

Lemma dirname_join (a b : string) :
  no_sep b = true -> path.dirname (a +:+ "/" +:+ b) = a.
Proof. intros Hb. unfold path.dirname. rewrite rsplit_join by exact Hb. reflexivity. Qed.

Lemma rev_app_app (s t u : string) :
  String.rev_app (s +:+ t) u = String.rev_app t (String.rev_app s u).
Proof.
  revert u. induction s as [|c s IH]; intros u; [reflexivity|].
  rewrite app_cons. cbn [String.rev_app]. apply IH.
Qed.

Lemma rev_snoc (s : string) (c : ascii) :
  String.rev (s +:+ String c "") = String c (String.rev s).
Proof. unfold String.rev. rewrite rev_app_app. reflexivity. Qed.

Lemma snoc_of_nonempty (s : string) :
  s <> "" -> exists s' c, s = s' +:+ String c "".
Proof.
  induction s as [|c s IH]; [congruence|]. intros _.
  destruct s as [|d s].
  - exists "", c. reflexivity.
  - destruct IH as (s' & c' & Hs); [discriminate|].
    exists (String c s'), c'. rewrite app_cons, <- Hs. reflexivity.
Qed.

Lemma endswith_no_sep (x s : string) :
  s <> "" -> no_sep s = true -> Str.endswith (x +:+ s) "/" = false.
Proof.
  intros Hne Hs. destruct (snoc_of_nonempty s Hne) as (s' & c & ->).
  rewrite no_sep_app in Hs. apply andb_true_iff in Hs. destruct Hs as [_ Hc].
  cbn [no_sep] in Hc. rewrite andb_true_r in Hc. apply negb_true_iff in Hc.
  unfold Str.endswith. rewrite <- str_app_assoc, rev_snoc.
  change (String.rev "/") with "/". cbn [String.prefix].
  destruct (ascii_dec "/" c) as [E|E]; [|reflexivity].
  subst c. discriminate Hc.
Qed.

Lemma startswith_no_sep (s : string) :
  no_sep s = true -> Str.startswith s "/" = false.
Proof.
  destruct s as [|c s]; [reflexivity|]. cbn [no_sep]. intros H.
  apply andb_true_iff in H. destruct H as [Hc _]. apply negb_true_iff in Hc.
  rewrite startswith_sep. exact Hc.
Qed.

Lemma join_plain (a b : string) :
  a <> "" -> Str.endswith a "/" = false -> no_sep b = true ->
  path.join a b = a +:+ "/" +:+ b.
Proof.
  intros Ha He Hb. unfold path.join. rewrite (startswith_no_sep b Hb), He.
  destruct (String.eqb_spec a ""); [congruence | reflexivity].
Qed.

Lemma prefix_app (a b : string) : String.prefix a (a +:+ b) = true.
Proof.
  induction a as [|c a IH]; [apply prefix_nil|].
  rewrite app_cons. cbn [String.prefix]. destruct (ascii_dec c c); [exact IH | congruence].
Qed.

Lemma prefix_refl (a : string) : String.prefix a a = true.
Proof.
  induction a as [|c a IH]; [reflexivity|].
  cbn [String.prefix]. destruct (ascii_dec c c); [exact IH | congruence].
Qed.

Lemma app_nonempty_neq (a b : string) : b <> "" -> a +:+ b <> a.
Proof.
  intros Hb H. apply (f_equal String.length) in H. rewrite length_app in H.
  destruct b; [congruence|]. cbn [String.length] in H. lia.
Qed.

Lemma digits_app_inv (s t : string) : digits (s +:+ t) -> digits s /\ digits t.
Proof.
  induction s as [|c s IH]; [intros H; split; [exact I | exact H]|].
  rewrite app_cons. intros [Hc H]. destruct (IH H) as [Hs Ht].
  split; [split; assumption | exact Ht].
Qed.

End PathFacts.

Section Replay.

Lemma after_nil (w : world) : after [] w = w.
Proof. destruct w. unfold after. cbn. rewrite List.app_nil_r. reflexivity. Qed.

Lemma after_app (l1 l2 : list event) (w : world) :
  after (l1 ++ l2) w = after l2 (after l1 w).
Proof.
  unfold after, replay. cbn [fs stdin log].
  rewrite fold_left_app, List.app_assoc. reflexivity.
Qed.

Lemma after_cons (e : event) (l : list event) (w : world) :
  after (e :: l) w = after l (after [e] w).
Proof. apply (after_app [e] l). Qed.

Lemma makedirs_fresh (p : string) (w : world) :
  fs w !! p = None -> makedirs p w = (Ok tt, after [Makedirs p] w).
Proof. intros H. unfold makedirs. rewrite H. reflexivity. Qed.

Lemma imsave_writable (p : string) (img : ndarray Z) (w : world) :
  writable (fs w) p = true -> imsave p img w = (Ok tt, after [Imsave p img] w).
Proof. intros H. unfold imsave. rewrite H. reflexivity. Qed.

Lemma json_dump_writable (p : string) (v : pyval) (w : world) :
  writable (fs w) p = true -> json_dump_to p v w = (Ok tt, after [JsonDump p v] w).
Proof. intros H. unfold json_dump_to. rewrite H. reflexivity. Qed.

Lemma writable_in_dir (m : gmap string node) (d b : string) :
  no_sep b = true -> m !! d = Some Dir -> m !! (d +:+ "/" +:+ b) <> Some Dir ->
  writable m (d +:+ "/" +:+ b) = true.
Proof.
  intros Hb Hd Hp. unfold writable. rewrite (dirname_join d b Hb), Hd.
  rewrite orb_true_r.
  destruct (m !! (d +:+ "/" +:+ b)) as [[|c]|]; [congruence | reflexivity | reflexivity].
Qed.

(** Saving images adds no directory and leaves all other paths alone. *)
Lemma slices_lookup_dir (f : nat -> string) (g : nat -> ndarray Z) (zs : list nat)
    (m : gmap string node) (q : string) :
  replay (map (fun z => Imsave (f z) (g z)) zs) m !! q = Some Dir -> m !! q = Some Dir.
Proof.
  revert m. induction zs as [|z zs IH]; intros m; [intros H; exact H|].
  cbn [map replay fold_left apply_event]. intros H. apply IH in H.
  destruct (decide (f z = q)) as [E|Hne].
  - rewrite E, lookup_insert_eq in H. discriminate H.
  - rewrite lookup_insert_ne in H by exact Hne. exact H.
Qed.

Lemma slices_lookup_other (f : nat -> string) (g : nat -> ndarray Z) (zs : list nat)
    (m : gmap string node) (q : string) :
  (forall z, In z zs -> f z <> q) ->
  replay (map (fun z => Imsave (f z) (g z)) zs) m !! q = m !! q.
Proof.
  revert m. induction zs as [|z zs IH]; intros m Hq; [reflexivity|].
  cbn [map replay fold_left apply_event]. fold (replay (map (fun z => Imsave (f z) (g z)) zs)).
  rewrite IH by (intros z' Hz'; apply Hq; right; exact Hz').
  apply lookup_insert_ne. apply Hq. left. reflexivity.
Qed.

(** Every image saved under its own name is there at the end. *)
Lemma slices_lookup_in (f : nat -> string) (g : nat -> ndarray Z) (zs : list nat)
    (m : gmap string node) (z : nat) :
  (forall z1 z2, f z1 = f z2 -> z1 = z2) -> In z zs ->
  replay (map (fun z => Imsave (f z) (g z)) zs) m !! f z = Some (File (Png (g z))).
Proof.
  intros Hinj. revert m. induction zs as [|z0 zs IH]; intros m Hin; [destruct Hin|].
  cbn [map replay fold_left apply_event]. fold (replay (map (fun z => Imsave (f z) (g z)) zs)).
  destruct (in_dec Nat.eq_dec z zs) as [Hz|Hz]; [apply IH; exact Hz|].
  destruct Hin as [->|Hin]; [|contradiction].
  rewrite slices_lookup_other.
  - apply lookup_insert_eq.
  - intros z' Hz' E. apply Hinj in E. subst z'. contradiction.
Qed.

End Replay.

Section Volume.

Lemma rsplit_sep_none (s : string) : Str.rsplit_sep s = None -> no_sep s = true.
Proof.
  induction s as [|c s IH]; [reflexivity|]. cbn [Str.rsplit_sep no_sep].
  destruct (Str.rsplit_sep s) as [[h t]|]; [discriminate|].
  destruct (Ascii.eqb c "/"); [discriminate|]. intros _. rewrite IH; reflexivity.
Qed.

Lemma rsplit_sep_tail (s h t : string) :
  Str.rsplit_sep s = Some (h, t) -> no_sep t = true.
Proof.
  revert h. induction s as [|c s IH]; intros h; [discriminate|].
  cbn [Str.rsplit_sep].
  destruct (Str.rsplit_sep s) as [[h' t']|] eqn:E.
  - intros [= _ <-]. apply (IH h'). reflexivity.
  - destruct (Ascii.eqb c "/"); [|discriminate].
    intros [= _ <-]. apply rsplit_sep_none. exact E.
Qed.

Lemma basename_no_sep (p : string) :
  no_sep (path.basename p) = true.
Proof.
  unfold path.basename.
  destruct (Str.rsplit_sep p) as [[h t]|] eqn:E.
  - apply (rsplit_sep_tail p h t E).
  - apply rsplit_sep_none. exact E.
Qed.

Lemma rsplit_dot_head (s h t : string) :
  Str.rsplit_dot s = Some (h, t) -> no_sep s = true -> no_sep h = true.
Proof.
  revert h t. induction s as [|c s IH]; intros h t; [discriminate|].
  cbn [Str.rsplit_dot no_sep]. intros H Hs.
  apply andb_true_iff in Hs. destruct Hs as [Hc Hs].
  destruct (Str.rsplit_dot s) as [[h' t']|].
  - injection H as <- _. cbn [no_sep]. rewrite Hc, (IH h' t' eq_refl Hs). reflexivity.
  - destruct (Ascii.eqb c "."); [|discriminate]. injection H as <- _. reflexivity.
Qed.

Lemma splitext_root_no_sep (p : string) :
  no_sep p = true -> no_sep (path.splitext_root p) = true.
Proof.
  intros Hp. unfold path.splitext_root.
  destruct (Str.rsplit_dot p) as [[h t]|] eqn:E; [|exact Hp].
  destruct (Str.all_dots h); [exact Hp|]. apply (rsplit_dot_head p h t E Hp).
Qed.

(** The name of the parent directory holds no separator but those of
    the prefix. *)
Lemma base_name_no_sep (prefix in_file : string) :
  no_sep prefix = true ->
  no_sep (prefix +:+ path.splitext_root (path.basename in_file)) = true.
Proof.
  intros Hp. rewrite no_sep_app, Hp. apply splitext_root_no_sep, basename_no_sep.
Qed.

Lemma digits_split (s t x y : string) (d : ascii) :
  digits s -> digits t -> ~ is_digit d ->
  s +:+ String d x = t +:+ String d y -> s = t.
Proof.
  intros Hs Ht Hd. revert t Ht. induction s as [|c s IH]; intros [|c' t] Ht H.
  - reflexivity.
  - rewrite str_app_nil_l, app_cons in H. injection H as -> _.
    destruct Ht as [Hc _]. contradiction.
  - rewrite str_app_nil_l, app_cons in H. injection H as <- _.
    destruct Hs as [Hc _]. contradiction.
  - rewrite !app_cons in H. injection H as -> H.
    destruct Hs as [_ Hs]. destruct Ht as [_ Ht].
    rewrite (IH Hs t Ht H). reflexivity.
Qed.

Lemma str_nonempty (n : nat) : Str.str n <> "".
Proof.
  intros H. assert (Hlen : 0 < String.length (Str.str n)) by (apply decimal_spec; lia).
  rewrite H in Hlen. cbn in Hlen. lia.
Qed.

(** The image files of two channels differ, wherever the tree is put. *)
Lemma img_file_channel_inj (base_name base_dir : string) (L c z c' z' : nat) :
  img_file_of base_name (channel_path_of base_dir c) c z L
  = img_file_of base_name (channel_path_of base_dir c') c' z' L ->
  c = c'.
Proof.
  unfold img_file_of, channel_path_of.
  destruct (join_common_prefix base_dir "C" "hannel") as [pre Hpre].
  change ("Channel" +:+ Str.str (c + 1)) with (String "C" "hannel" +:+ Str.str (c + 1)).
  change ("Channel" +:+ Str.str (c' + 1)) with (String "C" "hannel" +:+ Str.str (c' + 1)).
  rewrite !Hpre.
  assert (Hhead : exists k b, base_name +:+ "c" = String k b).
  { destruct base_name as [|k b]; [exists "c"%char, "" | exists k, (b +:+ "c")];
      reflexivity. }
  destruct Hhead as (k & b & Hkb).
  assert (Hname : forall n zs,
    (base_name +:+ "c" +:+ Str.str n +:+ "z" +:+ zs) +:+ ".png"
    = String k b +:+ Str.str n +:+ String "z" (zs +:+ ".png")).
  { intros n zs. rewrite <- Hkb, !str_app_assoc. reflexivity. }
  rewrite !Hname.
  assert (Hz : ~ is_digit "z") by (unfold is_digit; vm_compute; lia).
  assert (Hs : ~ is_digit "/") by (unfold is_digit; vm_compute; lia).
  unfold path.join. rewrite !app_cons, !startswith_sep.
  destruct (Ascii.eqb k "/").
  - intros H. injection H as H. apply str_app_inv_head in H.
    apply digits_split in H; [|apply str_digits | apply str_digits | exact Hz].
    apply str_inj in H. lia.
  - assert (Hend : forall n, String.eqb (pre +:+ Str.str n) ""
                              || Str.endswith (pre +:+ Str.str n) "/" = false).
    { intros n. apply orb_false_iff. split.
      - apply String.eqb_neq. intros H. apply (f_equal String.length) in H.
        rewrite length_app in H. pose proof (str_nonempty n) as Hn.
        destruct (Str.str n); [congruence|]. cbn [String.length] in H. lia.
      - apply endswith_no_sep; [apply str_nonempty|].
        apply no_sep_digits, str_digits. }
    rewrite !Hend. rewrite !str_app_assoc. intros H.
    apply str_app_inv_head in H.
    change ("/" +:+ String k (b +:+ Str.str (c + 1) +:+ String "z" (z_to_string z L +:+ ".png")))
      with (String "/" (String k (b +:+ Str.str (c + 1) +:+ String "z" (z_to_string z L +:+ ".png")))) in H.
    change ("/" +:+ String k (b +:+ Str.str (c' + 1) +:+ String "z" (z_to_string z' L +:+ ".png")))
      with (String "/" (String k (b +:+ Str.str (c' + 1) +:+ String "z" (z_to_string z' L +:+ ".png")))) in H.
    apply digits_split in H; [|apply str_digits | apply str_digits | exact Hs].
    apply str_inj in H. lia.
Qed.

Lemma img_file_depth_inj (base_name channel_path : string) (L c z1 z2 : nat) :
  img_file_of base_name channel_path c z1 L
  = img_file_of base_name channel_path c z2 L -> z1 = z2.
Proof.
  destruct (img_file_shape base_name channel_path c L) as [pre Hpre].
  rewrite !Hpre. intros H.
  apply str_app_inv_head in H. apply str_app_inv_tail in H.
  apply (f_equal value) in H. rewrite !z_to_string_value in H. exact H.
Qed.

End Volume.

Section FreshTree.

Variables (image : ndarray Z) (nbits : ini_value) (base_name base_dir : string).
Variables (z_idx n_channels z_len : nat) (img : nat -> nat -> ndarray Z).

Hypothesis Hbase_name : no_sep base_name = true.
Hypothesis Hbase_dir : base_dir <> "".
Hypothesis Hbase_end : Str.endswith base_dir "/" = false.
Hypothesis Hz_len : shape_at image z_idx = Ok z_len.
Hypothesis Hslices : forall c z, c < n_channels -> z < z_len ->
  slice_of image nbits c z = Ok (img c z).

Lemma channel_string_no_sep (c : nat) : no_sep (channel_string_of c) = true.
Proof.
  unfold channel_string_of. rewrite no_sep_app, (no_sep_digits _ (str_digits _)). reflexivity.
Qed.

Lemma png_name_no_sep (c z : nat) : no_sep (png_name_of base_name c z z_len) = true.
Proof.
  unfold png_name_of.
  rewrite !no_sep_app, Hbase_name, (no_sep_digits _ (str_digits _)),
    (no_sep_digits _ (z_to_string_digits _ _)).
  reflexivity.
Qed.

Lemma channel_path_eq (c : nat) :
  channel_path_of base_dir c = base_dir +:+ "/" +:+ channel_string_of c.
Proof.
  unfold channel_path_of. apply join_plain; [assumption | assumption |].
  apply channel_string_no_sep.
Qed.

Lemma img_file_eq (c z : nat) :
  img_file_of base_name (channel_path_of base_dir c) c z z_len
  = channel_path_of base_dir c +:+ "/" +:+ png_name_of base_name c z z_len.
Proof.
  unfold img_file_of. apply join_plain.
  - rewrite channel_path_eq. destruct base_dir; [congruence | discriminate].
  - rewrite channel_path_eq.
    change (base_dir +:+ "/" +:+ channel_string_of c)
      with (base_dir +:+ ("/" +:+ channel_string_of c)).
    rewrite <- str_app_assoc. apply endswith_no_sep; [discriminate|].
    apply channel_string_no_sep.
  - apply png_name_no_sep.
Qed.

Lemma channel_path_prefix (c : nat) : String.prefix base_dir (channel_path_of base_dir c) = true.
Proof. rewrite channel_path_eq. apply prefix_app. Qed.

Lemma img_file_prefix (c z : nat) :
  String.prefix base_dir (img_file_of base_name (channel_path_of base_dir c) c z z_len) = true.
Proof. rewrite img_file_eq, channel_path_eq, str_app_assoc. apply prefix_app. Qed.

Lemma channel_path_not_base (c : nat) : channel_path_of base_dir c <> base_dir.
Proof. rewrite channel_path_eq. apply app_nonempty_neq. discriminate. Qed.

Lemma img_file_not_base (c z : nat) :
  img_file_of base_name (channel_path_of base_dir c) c z z_len <> base_dir.
Proof.
  rewrite img_file_eq, channel_path_eq, str_app_assoc. apply app_nonempty_neq. discriminate.
Qed.

Lemma channel_path_inj (c c' : nat) :
  channel_path_of base_dir c = channel_path_of base_dir c' -> c = c'.
Proof.
  rewrite !channel_path_eq. intros H. apply str_app_inv_head in H.
  unfold channel_string_of in H.
  change ("/" +:+ "Channel" +:+ Str.str (c + 1))
    with ("/Channel" +:+ Str.str (c + 1)) in H.
  change ("/" +:+ "Channel" +:+ Str.str (c' + 1))
    with ("/Channel" +:+ Str.str (c' + 1)) in H.
  apply str_app_inv_head, str_inj in H. lia.
Qed.

Lemma img_file_not_channel_path (c z c' : nat) :
  img_file_of base_name (channel_path_of base_dir c) c z z_len
  <> channel_path_of base_dir c'.
Proof.
  rewrite img_file_eq, !channel_path_eq, str_app_assoc. intros H.
  apply str_app_inv_head in H. unfold channel_string_of in H.
  change (("/" +:+ "Channel" +:+ Str.str (c + 1)) +:+ "/" +:+ png_name_of base_name c z z_len)
    with ("/Channel" +:+ (Str.str (c + 1) +:+ "/" +:+ png_name_of base_name c z z_len)) in H.
  change ("/" +:+ "Channel" +:+ Str.str (c' + 1))
    with ("/Channel" +:+ Str.str (c' + 1)) in H.
  apply str_app_inv_head in H.
  pose proof (str_digits (c' + 1)) as Hd. rewrite <- H in Hd.
  apply digits_app_inv in Hd. destruct Hd as [_ [Hsep _]].
  unfold is_digit in Hsep. vm_compute in Hsep. lia.
Qed.


Lemma metadata_path_eq :
  path.join base_dir "metadata.json" = base_dir +:+ "/" +:+ "metadata.json".
Proof. apply join_plain; [assumption | assumption | reflexivity]. Qed.

Lemma metadata_path_not_channel (c : nat) :
  path.join base_dir "metadata.json" <> channel_path_of base_dir c.
Proof.
  rewrite metadata_path_eq, channel_path_eq. intros H.
  apply str_app_inv_head in H. discriminate H.
Qed.

Lemma metadata_path_not_base : path.join base_dir "metadata.json" <> base_dir.
Proof. rewrite metadata_path_eq. apply app_nonempty_neq. discriminate. Qed.

(** Under the invariant neither an image file nor the record is a
    directory. *)
Lemma tree_inv_img_file (a : nat) (m : gmap string node) (c z : nat) :
  tree_inv base_dir a m ->
  m !! img_file_of base_name (channel_path_of base_dir c) c z z_len <> Some Dir.
Proof.
  intros (_ & Hdirs & _) H.
  destruct (Hdirs _ H (img_file_prefix c z)) as [E | [c' E]].
  - exact (img_file_not_base c z E).
  - exact (img_file_not_channel_path c z c' E).
Qed.

Lemma tree_inv_metadata (a : nat) (m : gmap string node) :
  tree_inv base_dir a m -> m !! path.join base_dir "metadata.json" <> Some Dir.
Proof.
  intros (_ & Hdirs & _) H.
  assert (Hp : String.prefix base_dir (path.join base_dir "metadata.json") = true).
  { rewrite metadata_path_eq. apply prefix_app. }
  destruct (Hdirs _ H Hp) as [E | [c' E]].
  - exact (metadata_path_not_base E).
  - exact (metadata_path_not_channel c' E).
Qed.

(** The loop over the depths of channel [c], from depth [a] on. *)
Lemma slices_loop (c : nat) (Hc : c < n_channels) (n a : nat) (w : world) :
  a + n <= z_len ->
  fs w !! channel_path_of base_dir c = Some Dir ->
  (forall z, fs w !! img_file_of base_name (channel_path_of base_dir c) c z z_len
             <> Some Dir) ->
  for_ (seq a n) (write_slice image nbits base_name (channel_path_of base_dir c) c z_len) w
  = (Ok tt, after (slices_log base_name (channel_path_of base_dir c) z_len (img c) c
                     (seq a n)) w).
Proof.
  revert a w. induction n as [|n IH]; intros a w Han Hdir Hfiles.
  - cbn [seq for_ slices_log map]. rewrite after_nil. reflexivity.
  - cbn [seq for_ slices_log map]. rewrite after_cons.
    unfold bind at 1. unfold write_slice at 1. unfold bind at 1, lift.
    rewrite (Hslices c a Hc) by lia.
    rewrite imsave_writable.
    + apply IH; [lia | |].
      * cbn [after fs replay fold_left apply_event].
        rewrite lookup_insert_ne; [exact Hdir|]. apply img_file_not_channel_path.
      * intros z. cbn [after fs replay fold_left apply_event].
        destruct (decide (img_file_of base_name (channel_path_of base_dir c) c a z_len
                          = img_file_of base_name (channel_path_of base_dir c) c z z_len))
          as [E|E].
        -- rewrite E, lookup_insert_eq. discriminate.
        -- rewrite lookup_insert_ne by exact E. apply Hfiles.
    + rewrite img_file_eq. apply writable_in_dir.
      * apply png_name_no_sep.
      * exact Hdir.
      * rewrite <- img_file_eq. apply Hfiles.
Qed.

(** One channel on a tree that does not hold it yet. *)
Lemma channel_fresh (c : nat) (Hc : c < n_channels) (w : world) :
  tree_inv base_dir c (fs w) ->
  channel_step image nbits base_name base_dir z_idx c w
  = (Ok tt, after (channel_log base_name base_dir z_len img c) w).
Proof.
  intros Hinv. pose proof Hinv as (Hbase & Hdirs & Hnone).
  unfold channel_log. rewrite after_cons.
  unfold channel_step. fold (channel_path_of base_dir c).
  unfold bind at 1. unfold channel_dir_step. unfold bind at 1, path_exists.
  rewrite (Hnone c) by lia.
  rewrite bool_decide_eq_false_2 by (intros [x Hx]; discriminate Hx).
  cbn [negb]. rewrite makedirs_fresh by (apply Hnone; lia).
  unfold bind at 1, lift. rewrite Hz_len.
  cbv beta.
  apply (slices_loop c Hc z_len 0); [lia | |].
  - cbn [after fs replay fold_left apply_event]. apply lookup_insert_eq.
  - intros z. cbn [after fs replay fold_left apply_event].
    rewrite lookup_insert_ne by (apply not_eq_sym, img_file_not_channel_path).
    apply (tree_inv_img_file c). exact Hinv.
Qed.

(** A channel written, the invariant holds for the next one. *)
Lemma tree_inv_step (c : nat) (m : gmap string node) :
  tree_inv base_dir c m ->
  tree_inv base_dir (S c) (replay (channel_log base_name base_dir z_len img c) m).
Proof.
  intros (Hbase & Hdirs & Hnone).
  unfold channel_log. cbn [replay fold_left apply_event].
  fold (replay (slices_log base_name (channel_path_of base_dir c) z_len (img c) c
                  (seq 0 z_len))).
  unfold slices_log.
  split; [|split].
  - rewrite slices_lookup_other by (intros z _; apply img_file_not_base).
    rewrite lookup_insert_ne by apply channel_path_not_base. exact Hbase.
  - intros q Hq Hpre. apply slices_lookup_dir in Hq.
    destruct (decide (channel_path_of base_dir c = q)) as [E|E].
    + right. exists c. symmetry. exact E.
    + rewrite lookup_insert_ne in Hq by exact E. apply Hdirs; assumption.
  - intros c' Hc'.
    rewrite slices_lookup_other by (intros z _; apply img_file_not_channel_path).
    rewrite lookup_insert_ne.
    + apply Hnone. lia.
    + intros E. apply channel_path_inj in E. lia.
Qed.

(** The loop over the channels, from channel [a] on. *)
Lemma channels_loop (n a : nat) (w : world) :
  a + n <= n_channels ->
  tree_inv base_dir a (fs w) ->
  for_ (seq a n) (channel_step image nbits base_name base_dir z_idx) w
  = (Ok tt, after (concat (map (channel_log base_name base_dir z_len img) (seq a n))) w)
  /\ tree_inv base_dir (a + n)
       (replay (concat (map (channel_log base_name base_dir z_len img) (seq a n))) (fs w)).
Proof.
  revert a w. induction n as [|n IH]; intros a w Han Hinv.
  - cbn [seq for_ map concat]. rewrite after_nil, Nat.add_0_r. split; [reflexivity | exact Hinv].
  - cbn [seq for_ map concat]. rewrite after_app.
    unfold bind at 1. rewrite channel_fresh by (lia || exact Hinv).
    destruct (IH (S a) (after (channel_log base_name base_dir z_len img a) w)) as [Hrun Hinv'].
    + lia.
    + apply tree_inv_step. exact Hinv.
    + split; [exact Hrun|].
      unfold replay. rewrite fold_left_app.
      replace (a + S n) with (S a + n) by lia. exact Hinv'.
Qed.


Lemma metadata_path_not_img_file (c z : nat) :
  path.join base_dir "metadata.json"
  <> img_file_of base_name (channel_path_of base_dir c) c z z_len.
Proof.
  rewrite metadata_path_eq, img_file_eq, channel_path_eq, str_app_assoc. intros H.
  apply str_app_inv_head in H. discriminate H.
Qed.

(** What the operations on one channel leave of other paths. *)
Lemma channel_lookup_other (c : nat) (m : gmap string node) (q : string) :
  channel_path_of base_dir c <> q ->
  (forall z, img_file_of base_name (channel_path_of base_dir c) c z z_len <> q) ->
  replay (channel_log base_name base_dir z_len img c) m !! q = m !! q.
Proof.
  intros Hq Hfiles. unfold channel_log. cbn [replay fold_left apply_event].
  fold (replay (slices_log base_name (channel_path_of base_dir c) z_len (img c) c
                  (seq 0 z_len))).
  unfold slices_log. rewrite slices_lookup_other by (intros z _; apply Hfiles).
  apply lookup_insert_ne. exact Hq.
Qed.

Lemma channels_lookup_other (cs : list nat) (m : gmap string node) (q : string) :
  (forall c, In c cs -> channel_path_of base_dir c <> q) ->
  (forall c z, In c cs ->
     img_file_of base_name (channel_path_of base_dir c) c z z_len <> q) ->
  replay (concat (map (channel_log base_name base_dir z_len img) cs)) m !! q = m !! q.
Proof.
  revert m. induction cs as [|c cs IH]; intros m Hq Hfiles; [reflexivity|].
  cbn [map concat]. unfold replay. rewrite fold_left_app.
  fold (replay (channel_log base_name base_dir z_len img c) m).
  fold (replay (concat (map (channel_log base_name base_dir z_len img) cs))).
  rewrite IH.
  - apply channel_lookup_other; [apply Hq | intros z; apply Hfiles]; left; reflexivity.
  - intros c' Hc'. apply Hq. right. exact Hc'.
  - intros c' z Hc'. apply Hfiles. right. exact Hc'.
Qed.

Lemma channel_lookup_own (c : nat) (m : gmap string node) :
  replay (channel_log base_name base_dir z_len img c) m !! channel_path_of base_dir c
    = Some Dir
  /\ forall z, z < z_len ->
       replay (channel_log base_name base_dir z_len img c) m
         !! img_file_of base_name (channel_path_of base_dir c) c z z_len
       = Some (File (Png (img c z))).
Proof.
  unfold channel_log. cbn [replay fold_left apply_event].
  fold (replay (slices_log base_name (channel_path_of base_dir c) z_len (img c) c
                  (seq 0 z_len))).
  unfold slices_log. split.
  - rewrite slices_lookup_other by (intros z _; apply img_file_not_channel_path).
    apply lookup_insert_eq.
  - intros z Hz.
    apply (slices_lookup_in
             (fun z => img_file_of base_name (channel_path_of base_dir c) c z z_len) (img c)).
    + apply img_file_depth_inj.
    + apply in_seq. lia.
Qed.

Lemma channels_lookup_own (cs : list nat) (m : gmap string node) (c : nat) :
  In c cs ->
  replay (concat (map (channel_log base_name base_dir z_len img) cs)) m
    !! channel_path_of base_dir c = Some Dir
  /\ forall z, z < z_len ->
       replay (concat (map (channel_log base_name base_dir z_len img) cs)) m
         !! img_file_of base_name (channel_path_of base_dir c) c z z_len
       = Some (File (Png (img c z))).
Proof.
  revert m. induction cs as [|c0 cs IH]; intros m Hin; [destruct Hin|].
  cbn [map concat]. unfold replay. rewrite fold_left_app.
  fold (replay (channel_log base_name base_dir z_len img c0) m).
  fold (replay (concat (map (channel_log base_name base_dir z_len img) cs))).
  destruct (in_dec Nat.eq_dec c cs) as [Hc|Hc]; [apply IH; exact Hc|].
  destruct Hin as [->|Hin]; [|contradiction].
  destruct (channel_lookup_own c m) as [Hdir Hfiles].
  split.
  - rewrite channels_lookup_other; [exact Hdir | |].
    + intros c' Hc' E. apply channel_path_inj in E. subst c'. contradiction.
    + intros c' z _. apply img_file_not_channel_path.
  - intros z Hz. rewrite channels_lookup_other; [apply Hfiles; exact Hz | |].
    + intros c' _. apply not_eq_sym, img_file_not_channel_path.
    + intros c' z' Hc' E. apply img_file_channel_inj in E. subst c'. contradiction.
Qed.

(** The tree that the operations of a run leave. *)
Lemma tree_log_lookup (md : Dict.t pyval) (m : gmap string node) :
  let m' := replay (tree_log base_name base_dir n_channels z_len img md) m in
  m' !! base_dir = Some Dir
  /\ (forall c, c < n_channels -> m' !! channel_path_of base_dir c = Some Dir)
  /\ (forall c z, c < n_channels -> z < z_len ->
        m' !! img_file_of base_name (channel_path_of base_dir c) c z z_len
        = Some (File (Png (img c z))))
  /\ m' !! path.join base_dir "metadata.json" = Some (File (Json (PDict md))).
Proof.
  cbv zeta. unfold tree_log. cbn [replay fold_left apply_event].
  rewrite fold_left_app. cbn [fold_left apply_event].
  fold (replay (concat (map (channel_log base_name base_dir z_len img) (seq 0 n_channels)))
          (<[base_dir := Dir]> m)).
  split; [|split; [|split]].
  - rewrite lookup_insert_ne by apply metadata_path_not_base.
    rewrite channels_lookup_other.
    + apply lookup_insert_eq.
    + intros c _. apply channel_path_not_base.
    + intros c z _. apply img_file_not_base.
  - intros c Hc. rewrite lookup_insert_ne by apply metadata_path_not_channel.
    apply channels_lookup_own. apply in_seq. lia.
  - intros c z Hc Hz. rewrite lookup_insert_ne by apply metadata_path_not_img_file.
    apply channels_lookup_own; [apply in_seq; lia | exact Hz].
  - apply lookup_insert_eq.
Qed.

End FreshTree.

Section StaysIn.

Variable base_dir : string.

Lemma prefix_trans (a b c : string) :
  String.prefix a b = true -> String.prefix b c = true -> String.prefix a c = true.
Proof.
  revert b c. induction a as [|x a IH]; intros b c; [intros _ _; apply prefix_nil|].
  destruct b as [|y b]; [discriminate|]. destruct c as [|z c]; [discriminate|].
  cbn [String.prefix].
  destruct (ascii_dec x y) as [->|]; [|discriminate].
  destruct (ascii_dec y z) as [->|]; [|discriminate].
  apply IH.
Qed.

Lemma prefix_false_neq (p q : string) :
  String.prefix base_dir p = true -> String.prefix base_dir q = false -> p <> q.
Proof. intros Hp Hq ->. congruence. Qed.

Lemma stays_unchanged {A} (m : M A) :
  (forall w, fs (m w).2 = fs w) -> stays_in base_dir m.
Proof. intros H w q _. rewrite H. reflexivity. Qed.

Lemma stays_lift {A} (r : result A) : stays_in base_dir (lift r).
Proof. apply stays_unchanged. reflexivity. Qed.

Lemma stays_ret {A} (a : A) : stays_in base_dir (ret a).
Proof. apply stays_unchanged. reflexivity. Qed.

Lemma stays_sys_exit {A} (code : option Z) : stays_in base_dir (@sys_exit A code).
Proof. apply stays_unchanged. reflexivity. Qed.

Lemma stays_input (msg : string) : stays_in base_dir (input msg).
Proof. apply stays_unchanged. intros w. unfold input. destruct (stdin w); reflexivity. Qed.

Lemma stays_path_exists (p : string) : stays_in base_dir (path_exists p).
Proof. apply stays_unchanged. reflexivity. Qed.

Lemma stays_OifFile (in_file : pyval) : stays_in base_dir (OifFile in_file).
Proof.
  apply stays_unchanged. intros w. unfold OifFile.
  destruct in_file; try reflexivity.
  destruct (fs w !! _) as [[|[]]|]; reflexivity.
Qed.

Lemma stays_bind {A B} (m : M A) (k : A -> M B) :
  stays_in base_dir m -> (forall a, stays_in base_dir (k a)) ->
  stays_in base_dir (bind m k).
Proof.
  intros Hm Hk w q Hq. unfold bind. specialize (Hm w q Hq).
  destruct (m w) as [[a|e] w1]; cbn [snd] in Hm |- *; [|exact Hm].
  rewrite (Hk a w1 q Hq). exact Hm.
Qed.

Lemma stays_bind_lift {A B} (r : result A) (k : A -> M B) :
  (forall a, r = Ok a -> stays_in base_dir (k a)) ->
  stays_in base_dir (bind (lift r) k).
Proof.
  intros Hk. destruct r as [a|e].
  - intros w. apply (Hk a eq_refl w).
  - intros w q _. reflexivity.
Qed.

Lemma stays_for {A} (l : list A) (body : A -> M unit) :
  (forall x, stays_in base_dir (body x)) -> stays_in base_dir (for_ l body).
Proof.
  intros Hbody. induction l as [|x l IH]; [apply stays_ret|].
  cbn [for_]. apply stays_bind; [apply Hbody | intros _; exact IH].
Qed.

Lemma stays_makedirs (p : string) :
  String.prefix base_dir p = true -> stays_in base_dir (makedirs p).
Proof.
  intros Hp w q Hq. unfold makedirs. destruct (fs w !! p); [reflexivity|].
  cbn [snd emit with_fs fs]. apply lookup_insert_ne. apply prefix_false_neq; assumption.
Qed.

Lemma stays_imsave (p : string) (img : ndarray Z) :
  String.prefix base_dir p = true -> stays_in base_dir (imsave p img).
Proof.
  intros Hp w q Hq. unfold imsave. destruct (writable (fs w) p); [|reflexivity].
  cbn [snd emit with_fs fs]. apply lookup_insert_ne. apply prefix_false_neq; assumption.
Qed.

Lemma stays_json_dump_to (p : string) (v : pyval) :
  String.prefix base_dir p = true -> stays_in base_dir (json_dump_to p v).
Proof.
  intros Hp w q Hq. unfold json_dump_to. destruct (writable (fs w) p); [|reflexivity].
  cbn [snd emit with_fs fs]. apply lookup_insert_ne. apply prefix_false_neq; assumption.
Qed.

Lemma stays_rmtree (p : string) :
  String.prefix base_dir p = true -> stays_in base_dir (rmtree p).
Proof.
  intros Hp w q Hq. unfold rmtree.
  destruct (fs w !! p) as [[|c]|]; try reflexivity.
  cbn [snd emit with_fs fs].
  assert (Hout : inside p q = false).
  { unfold inside. apply orb_false_iff. split.
    - apply String.eqb_neq. apply not_eq_sym, prefix_false_neq; assumption.
    - destruct (String.prefix (p +:+ "/") q) eqn:E; [|reflexivity].
      rewrite (prefix_trans base_dir p q Hp) in Hq; [discriminate|].
      apply (prefix_trans p (p +:+ "/") q); [apply prefix_app | exact E]. }
  destruct (fs w !! q) as [x|] eqn:E.
  - apply map_lookup_filter_Some_2; [exact E | exact Hout].
  - apply map_lookup_filter_None_2. left. exact E.
Qed.

Lemma stays_parent_dir_step :
  stays_in base_dir (parent_dir_step base_dir).
Proof.
  unfold parent_dir_step. apply stays_bind; [apply stays_path_exists|]. intros e.
  destruct (negb e); [apply stays_makedirs, prefix_refl|].
  apply stays_bind; [apply stays_input|]. intros confirm.
  destruct (declines confirm); [apply stays_sys_exit | apply stays_ret].
Qed.

Lemma stays_channel_dir_step (p : string) :
  String.prefix base_dir p = true -> stays_in base_dir (channel_dir_step p).
Proof.
  intros Hp. unfold channel_dir_step.
  apply stays_bind; [apply stays_path_exists|]. intros e.
  destruct (negb e); [apply stays_makedirs; exact Hp|].
  apply stays_bind; [apply stays_input|]. intros confirm.
  apply stays_bind.
  - destruct (declines confirm); [apply stays_sys_exit | apply stays_ret].
  - intros _. apply stays_bind; [apply stays_rmtree; exact Hp|].
    intros _. apply stays_makedirs. exact Hp.
Qed.

End StaysIn.

Section Below.

Lemma join_prefix (a b : string) :
  Str.startswith b "/" = false -> String.prefix a (path.join a b) = true.
Proof.
  intros Hb. unfold path.join. rewrite Hb.
  destruct (String.eqb a "" || Str.endswith a "/"); apply prefix_app.
Qed.

Lemma channel_path_below (base_dir : string) (c : nat) :
  String.prefix base_dir (channel_path_of base_dir c) = true.
Proof. unfold channel_path_of. apply join_prefix. reflexivity. Qed.

Lemma metadata_path_below (base_dir : string) :
  String.prefix base_dir (path.join base_dir "metadata.json") = true.
Proof. apply join_prefix. reflexivity. Qed.

(** An image file lies below the parent directory, also for a
    [base_name] that starts with a separator, which [join] takes alone
    both times. *)
Lemma img_file_below (out_dir base_name : string) (c z L : nat) :
  String.prefix (path.join out_dir base_name)
    (img_file_of base_name (channel_path_of (path.join out_dir base_name) c) c z L) = true.
Proof.
  unfold img_file_of.
  set (rest := "c" +:+ Str.str (c + 1) +:+ "z" +:+ z_to_string z L).
  replace ((base_name +:+ rest) +:+ ".png") with (base_name +:+ rest +:+ ".png")
    by (rewrite str_app_assoc; reflexivity).
  destruct (Str.startswith base_name "/") eqn:Hs.
  - assert (Hj : forall a t, path.join a (base_name +:+ t) = base_name +:+ t).
    { intros a t. unfold path.join. destruct base_name as [|k b]; [discriminate Hs|].
      rewrite app_cons, startswith_sep. rewrite startswith_sep in Hs. rewrite Hs.
      reflexivity. }
    rewrite Hj.
    assert (Hb : path.join out_dir base_name = base_name).
    { unfold path.join. rewrite Hs. reflexivity. }
    rewrite Hb. apply prefix_app.
  - apply (prefix_trans _ (channel_path_of (path.join out_dir base_name) c)).
    + apply channel_path_below.
    + apply join_prefix. destruct base_name as [|k b]; [reflexivity|].
      rewrite app_cons, startswith_sep. rewrite startswith_sep in Hs. exact Hs.
Qed.

Variable float_str : Q -> string.

Lemma stays_oif_to_dir_tree (in_file out_dir prefix : string) (channel_stains : list pyval)
    (person hpf treatment : pyval) :
  stays_in (path.join out_dir (prefix +:+ path.splitext_root (path.basename in_file)))
    (oif_to_dir_tree float_str (PStr in_file) channel_stains person hpf treatment
       (PStr out_dir) (PStr prefix)).
Proof.
  unfold oif_to_dir_tree. cbn [as_str].
  set (base_name := prefix +:+ path.splitext_root (path.basename in_file)).
  set (base_dir := path.join out_dir base_name).
  apply stays_bind; [apply stays_OifFile|]. intros o.
  apply stays_bind; [apply stays_lift|]. intros md_bits.
  apply stays_bind_lift. intros prefix_s [= <-].
  apply stays_bind_lift. intros in_file_s [= <-].
  apply stays_bind_lift. intros out_dir_s [= <-].
  fold base_name. fold base_dir.
  apply stays_bind; [apply stays_parent_dir_step|]. intros _.
  apply stays_bind; [apply stays_lift|]. intros channel_idx.
  apply stays_bind; [apply stays_lift|]. intros z_idx.
  apply stays_bind; [apply stays_lift|]. intros n_channels.
  apply stays_bind.
  - apply stays_for. intros c. unfold channel_step. fold (channel_path_of base_dir c).
    apply stays_bind; [apply stays_channel_dir_step, channel_path_below|]. intros _.
    apply stays_bind; [apply stays_lift|]. intros z_len.
    apply stays_for. intros z. unfold write_slice.
    apply stays_bind; [apply stays_lift|]. intros out_img.
    apply stays_imsave. apply img_file_below.
  - intros _. apply stays_json_dump_to, metadata_path_below.
Qed.

End Below.

Section FreshRun.

Variable float_str : Q -> string.

Lemma join_base_name (out_dir base_name : string) :
  base_name <> "" -> no_sep base_name = true ->
  path.join out_dir base_name <> ""
  /\ Str.endswith (path.join out_dir base_name) "/" = false.
Proof.
  intros Hne Hsep. unfold path.join. rewrite (startswith_no_sep _ Hsep).
  destruct (String.eqb out_dir "" || Str.endswith out_dir "/").
  - split; [|apply endswith_no_sep; assumption].
    intros H. apply (f_equal String.length) in H. rewrite length_app in H.
    destruct base_name; [congruence|]. cbn [String.length] in H. lia.
  - split.
    + intros H. apply (f_equal String.length) in H. rewrite !length_app in H.
      cbn [String.length] in H. lia.
    + change (out_dir +:+ "/" +:+ base_name) with (out_dir +:+ ("/" +:+ base_name)).
      rewrite <- str_app_assoc. apply endswith_no_sep; assumption.
Qed.

(** X18: a run into a place where nothing is yet. When the descriptor
    names an OIF file whose settings can be read, the prefix holds no
    separator, the name of the parent directory is not empty, the file
    system holds nothing whose path starts with the parent directory, the
    axes name [C] and [Z], and every slice [image[c][z]] within the lengths
    of these axes can be taken and scaled, then [oif_to_dir_tree] returns
    without asking anything and without reading from the operator, having
    done exactly this, in this order: create the parent directory; for
    each channel from the first on, create its directory and save one
    image per depth, from depth 0 on; write the record. At the end the
    parent directory and each channel directory are there, each slice is
    in the file of its channel and depth, and [metadata.json] holds the
    record. *)
Theorem fresh_tree_run (in_file out_dir prefix : string) (channel_stains : list pyval)
    (person hpf treatment : pyval) (o : oif_file) (md : Dict.t pyval) (nbits : ini_value)
    (channel_idx z_idx n_channels z_len : nat) (img : nat -> nat -> ndarray Z)
    (w : world) :
  let base_name := prefix +:+ path.splitext_root (path.basename in_file) in
  let base_dir := path.join out_dir base_name in
  fs w !! in_file = Some (File (Oif o)) ->
  oif_metadata float_str (mainfile o)
    (initial_metadata channel_stains person hpf treatment) = Ok (md, nbits) ->
  no_sep prefix = true ->
  base_name <> "" ->
  (forall q, String.prefix base_dir q = true -> fs w !! q = None) ->
  Dict.get (axes_dict_of (tiffs_axes o)) "C" = Some channel_idx ->
  Dict.get (axes_dict_of (tiffs_axes o)) "Z" = Some z_idx ->
  shape_at (asarray o) channel_idx = Ok n_channels ->
  shape_at (asarray o) z_idx = Ok z_len ->
  (forall c z, c < n_channels -> z < z_len ->
     slice_of (asarray o) nbits c z = Ok (img c z)) ->
  let r := oif_to_dir_tree float_str (PStr in_file) channel_stains person hpf treatment
             (PStr out_dir) (PStr prefix) w in
  r = (Ok tt, after (tree_log base_name base_dir n_channels z_len img md) w)
  /\ fs r.2 !! base_dir = Some Dir
  /\ (forall c, c < n_channels -> fs r.2 !! channel_path_of base_dir c = Some Dir)
  /\ (forall c z, c < n_channels -> z < z_len ->
        fs r.2 !! img_file_of base_name (channel_path_of base_dir c) c z z_len
        = Some (File (Png (img c z))))
  /\ fs r.2 !! path.join base_dir "metadata.json" = Some (File (Json (PDict md))).
Proof.
  intros base_name base_dir Hfile Hmd Hprefix Hne Hfresh HC HZ HnC HnZ Hslices.
  pose proof (base_name_no_sep prefix in_file Hprefix) as Hsep. fold base_name in Hsep.
  destruct (join_base_name out_dir base_name Hne Hsep) as [Hbd Hend].
  fold base_dir in Hbd, Hend.
  assert (Hrun :
    oif_to_dir_tree float_str (PStr in_file) channel_stains person hpf treatment
      (PStr out_dir) (PStr prefix) w
    = (Ok tt, after (tree_log base_name base_dir n_channels z_len img md) w)).
  { unfold tree_log. rewrite after_cons, after_app.
    unfold oif_to_dir_tree.
    unfold bind at 1. unfold OifFile. rewrite Hfile.
    unfold bind at 1. unfold lift at 1. rewrite Hmd. cbn [fst snd].
    unfold bind at 1. unfold lift at 1. cbn [as_str].
    unfold bind at 1. unfold lift at 1.
    unfold bind at 1. unfold lift at 1.
    fold base_name. fold base_dir.
    unfold bind at 1. unfold parent_dir_step. unfold bind at 1, path_exists.
    rewrite (Hfresh base_dir) by apply prefix_refl.
    rewrite bool_decide_eq_false_2 by (intros [x Hx]; discriminate Hx).
    cbn [negb]. rewrite makedirs_fresh by (apply Hfresh, prefix_refl).
    unfold bind at 1. unfold lift at 1. rewrite HC.
    unfold bind at 1. unfold lift at 1. rewrite HZ.
    unfold bind at 1. unfold lift at 1. rewrite HnC.
    assert (Hinv : tree_inv base_dir 0 (fs (after [Makedirs base_dir] w))).
    { cbn [after fs replay fold_left apply_event]. split; [|split].
      - apply lookup_insert_eq.
      - intros q Hq Hpre. left.
        destruct (decide (base_dir = q)) as [E|E]; [symmetry; exact E|].
        rewrite lookup_insert_ne, (Hfresh q Hpre) in Hq by exact E. discriminate Hq.
      - intros c _. rewrite lookup_insert_ne.
        + apply Hfresh. apply channel_path_prefix; assumption.
        + apply not_eq_sym, channel_path_not_base; assumption. }
    destruct (channels_loop (asarray o) nbits base_name base_dir z_idx n_channels z_len img
                Hsep Hbd Hend HnZ Hslices n_channels 0 (after [Makedirs base_dir] w))
      as [Hloop Hinv']; [lia | exact Hinv |].
    unfold bind at 1. rewrite Hloop.
    apply json_dump_writable.
    rewrite metadata_path_eq by assumption.
    apply writable_in_dir; [reflexivity | apply Hinv' |].
    rewrite <- metadata_path_eq by assumption.
    apply (tree_inv_metadata base_dir Hbd Hend (0 + n_channels)). exact Hinv'. }
  cbv zeta. rewrite Hrun. split; [reflexivity|].
  cbn [snd after fs].
  apply (tree_log_lookup base_name base_dir n_channels z_len img Hsep Hbd Hend).
Qed.

(** X19: no two slices of a volume share a file: the image files of two
    different pairs of channel and depth differ, whatever the names and
    the place of the tree and whatever the length of the Z axis. *)
Theorem img_files_of_volume_distinct (base_name base_dir : string) (L c z c' z' : nat) :
  (c, z) <> (c', z') ->
  img_file_of base_name (channel_path_of base_dir c) c z L
  <> img_file_of base_name (channel_path_of base_dir c') c' z' L.
Proof.
  intros Hne H. apply Hne.
  pose proof (img_file_channel_inj _ _ _ _ _ _ _ H) as Hc. subst c'.
  apply img_file_depth_inj in H. subst z'. reflexivity.
Qed.

(** X20: [oif_to_dir_tree] changes the file system below the parent
    directory only. Whatever the run does and however it ends, with or
    without prompts, removals or an error, an entry whose path does not
    start with the parent directory is afterwards as it was before. (The
    directories that lead to the parent directory, which [makedirs] makes
    when they are missing, are not entries of the model.) *)
Theorem outside_of_parent_untouched (in_file out_dir prefix : string)
    (channel_stains : list pyval) (person hpf treatment : pyval) (w : world) (q : string) :
  let base_dir :=
    path.join out_dir (prefix +:+ path.splitext_root (path.basename in_file)) in
  String.prefix base_dir q = false ->
  fs (oif_to_dir_tree float_str (PStr in_file) channel_stains person hpf treatment
        (PStr out_dir) (PStr prefix) w).2 !! q
  = fs w !! q.
Proof. intros base_dir Hq. apply (stays_oif_to_dir_tree float_str); exact Hq. Qed.

End FreshRun.

Lemma fresh_tree_run_witness :
  let w := world_with cz_oif (job (PFloat (13 # 2))) [] [] in
  let base_name := "" +:+ path.splitext_root (path.basename "/data/emb.oif") in
  let base_dir := path.join "/tmp/out" base_name in
  let r := oif_to_dir_tree const_float_str (PStr "/data/emb.oif")
             [PStr "dapi"; PStr "gfp"] (PStr "A") (PFloat (13 # 2)) (PStr "none")
             (PStr "/tmp/out") (PStr "") w in
  r = (Ok tt, after (tree_log base_name base_dir 2 3 cz_slice cz_record) w)
  /\ fs r.2 !! base_dir = Some Dir
  /\ (forall c, c < 2 -> fs r.2 !! channel_path_of base_dir c = Some Dir)
  /\ (forall c z, c < 2 -> z < 3 ->
        fs r.2 !! img_file_of base_name (channel_path_of base_dir c) c z 3
        = Some (File (Png (cz_slice c z))))
  /\ fs r.2 !! path.join base_dir "metadata.json"
     = Some (File (Json (PDict cz_record))).
Proof.
  apply (fresh_tree_run const_float_str "/data/emb.oif" "/tmp/out" ""
           [PStr "dapi"; PStr "gfp"] (PStr "A") (PFloat (13 # 2)) (PStr "none")
           cz_oif cz_record (IInt 8) 0 1 2 3 cz_slice
           (world_with cz_oif (job (PFloat (13 # 2))) [] [])).
  - vm_compute. reflexivity.
  - vm_compute. reflexivity.
  - reflexivity.
  - vm_compute. discriminate.
  - intros q Hq. unfold world_with. cbn [fs foldr].
    rewrite !lookup_insert_ne; [apply lookup_empty | |];
      intros <-; vm_compute in Hq; discriminate Hq.
  - vm_compute. reflexivity.
  - vm_compute. reflexivity.
  - vm_compute. reflexivity.
  - vm_compute. reflexivity.
  - intros c z Hc Hz.
    destruct c as [|[|c]]; [| |lia]; destruct z as [|[|[|z]]]; try lia;
      vm_compute; reflexivity.
Defined.

Lemma img_files_of_volume_distinct_witness :
  img_file_of "emb" (channel_path_of "/tmp/out/emb" 0) 0 11 12
  <> img_file_of "emb" (channel_path_of "/tmp/out/emb" 10) 10 1 12.
Proof.
  apply (img_files_of_volume_distinct "emb" "/tmp/out/emb" 12 0 11 10 1). discriminate.
Defined.

Lemma outside_of_parent_untouched_witness :
  let w := world_with cz_oif (job (PFloat (13 # 2)))
             ["/tmp/out/emb"; "/tmp/out/emb/Channel1"] ["y"; "y"] in
  fs (oif_to_dir_tree const_float_str (PStr "/data/emb.oif")
        [PStr "dapi"; PStr "gfp"] (PStr "A") (PFloat (13 # 2)) (PStr "none")
        (PStr "/tmp/out") (PStr "") w).2 !! "/data/emb.oif"
  = fs w !! "/data/emb.oif".
Proof.
  apply (outside_of_parent_untouched const_float_str "/data/emb.oif" "/tmp/out" ""
           [PStr "dapi"; PStr "gfp"] (PStr "A") (PFloat (13 # 2)) (PStr "none")
           (world_with cz_oif (job (PFloat (13 # 2)))
              ["/tmp/out/emb"; "/tmp/out/emb/Channel1"] ["y"; "y"])
           "/data/emb.oif").
  vm_compute. reflexivity.
Defined.

(* ===================================================================== *)
(** * The record of a job *)
(* ===================================================================== *)

Section Job.

Variable float_str : Q -> string.

Lemma normalized_out_dir_value (d : Dict.t pyval) (o : pyval) :
  Dict.get d "out_dir" = Some o ->
  Dict.get (normalized_out_dir d) "out_dir" = Some (defaulted o).
Proof.
  intros H. unfold normalized_out_dir, defaulted. rewrite H.
  destruct o as [ |b|z|q|s|l|d0]; try exact H.
  destruct s as [|c s]; [apply dict_get_set_eq | exact H].
Qed.

(** Lines 219-230 for a descriptor that holds the seven keys, with
    [stains] an object: the call that is made. *)
Lemma run_job_call (descriptor : string) (d st : Dict.t pyval)
    (oif_file person hpf treatment out_dir prefix : pyval) (w : world) :
  fs w !! descriptor = Some (File (Json (PDict d))) ->
  Dict.get d "stains" = Some (PDict st) ->
  Dict.get d "oif_file" = Some oif_file ->
  Dict.get d "person" = Some person ->
  Dict.get d "hpf" = Some hpf ->
  Dict.get d "treatment" = Some treatment ->
  Dict.get d "out_dir" = Some out_dir ->
  Dict.get d "prefix" = Some prefix ->
  exists labels,
    Forall2 (fun k v => Dict.get st k = Some v) (sort (Dict.keys st)) labels
    /\ run_job float_str descriptor w
       = oif_to_dir_tree float_str oif_file labels person hpf treatment
           (defaulted out_dir) prefix w.
Proof.
  intros Hfs Hst Hoif Hperson Hhpf Htreat Hout Hprefix.
  assert (Hperm : sort (Dict.keys st) ≡ₚ Dict.keys st) by apply merge_sort_Permutation.
  destruct (stains_of_keys st (sort (Dict.keys st))) as (labels & Hl & Hall).
  { apply Forall_forall. intros k Hk. apply list_elem_of_In. rewrite <- Hperm. exact Hk. }
  exists labels. split; [exact Hall|].
  unfold run_job. unfold bind at 1. unfold json_load_from. rewrite Hfs.
  unfold bind at 1. unfold lift at 1. rewrite (default_out_dir_ok d out_dir Hout).
  unfold bind at 1. unfold lift at 1. cbn [getitem]. unfold Dict.getitem.
  rewrite (normalized_out_dir_get d "stains") by discriminate. rewrite Hst.
  unfold bind at 1. unfold lift at 1. cbn [keys].
  unfold bind at 1. unfold lift at 1. rewrite Hl.
  unfold bind at 1. unfold lift at 1.
  rewrite (normalized_out_dir_get d "oif_file") by discriminate. rewrite Hoif.
  unfold bind at 1. unfold lift at 1.
  rewrite (normalized_out_dir_get d "person") by discriminate. rewrite Hperson.
  unfold bind at 1. unfold lift at 1.
  rewrite (normalized_out_dir_get d "hpf") by discriminate. rewrite Hhpf.
  unfold bind at 1. unfold lift at 1.
  rewrite (normalized_out_dir_get d "treatment") by discriminate. rewrite Htreat.
  unfold bind at 1. unfold lift at 1.
  rewrite (normalized_out_dir_value d out_dir Hout).
  unfold bind at 1. unfold lift at 1.
  rewrite (normalized_out_dir_get d "prefix") by discriminate. rewrite Hprefix.
  reflexivity.
Qed.


(** X13: for a descriptor that holds the seven keys, with [stains] an
    object, the script calls [oif_to_dir_tree] with the stains taken in
    the order of their keys sorted as strings (so that [10] comes before
    [2]): the list has one label for each key of the sorted list, the
    value stored under that key. The other arguments are the values of
    the descriptor, [out_dir] with [.] for the empty string. *)
Theorem stains_in_key_order (descriptor : string) (d st : Dict.t pyval)
    (oif_file person hpf treatment out_dir prefix : pyval) (w : world) :
  fs w !! descriptor = Some (File (Json (PDict d))) ->
  Dict.get d "stains" = Some (PDict st) ->
  Dict.get d "oif_file" = Some oif_file ->
  Dict.get d "person" = Some person ->
  Dict.get d "hpf" = Some hpf ->
  Dict.get d "treatment" = Some treatment ->
  Dict.get d "out_dir" = Some out_dir ->
  Dict.get d "prefix" = Some prefix ->
  exists labels,
    Forall2 (fun k v => Dict.get st k = Some v) (sort (Dict.keys st)) labels
    /\ Sorted String.le (sort (Dict.keys st))
    /\ sort (Dict.keys st) ≡ₚ Dict.keys st
    /\ run_job float_str descriptor w
       = oif_to_dir_tree float_str oif_file labels person hpf treatment
           (defaulted out_dir) prefix w.
Proof.
  intros Hfs Hst Hoif Hperson Hhpf Htreat Hout Hprefix.
  destruct (run_job_call descriptor d st oif_file person hpf treatment out_dir prefix w
              Hfs Hst Hoif Hperson Hhpf Htreat Hout Hprefix) as (labels & Hall & Hrun).
  exists labels. split; [exact Hall|]. split; [|split; [|exact Hrun]].
  - unfold sort. apply Sorted_merge_sort. apply _.
  - apply merge_sort_Permutation.
Qed.


End Job.

Lemma stains_in_key_order_witness :
  let w := world_with cz_oif (job (PFloat (13 # 2))) [] [] in
  exists labels,
    Forall2 (fun k v => Dict.get [("2", PStr "gfp"); ("1", PStr "dapi")] k = Some v)
      (sort (Dict.keys [("2", PStr "gfp"); ("1", PStr "dapi")])) labels
    /\ Sorted String.le (sort (Dict.keys [("2", PStr "gfp"); ("1", PStr "dapi")]))
    /\ sort (Dict.keys [("2", PStr "gfp"); ("1", PStr "dapi")])
       ≡ₚ Dict.keys [("2", PStr "gfp"); ("1", PStr "dapi")]
    /\ run_job const_float_str "job.json" w
       = oif_to_dir_tree const_float_str (PStr "/data/emb.oif") labels (PStr "A")
           (PFloat (13 # 2)) (PStr "none") (defaulted (PStr "/tmp/out")) (PStr "") w.
Proof.
  apply (stains_in_key_order const_float_str "job.json" (job_fields (PFloat (13 # 2)))
           [("2", PStr "gfp"); ("1", PStr "dapi")]
           (PStr "/data/emb.oif") (PStr "A") (PFloat (13 # 2)) (PStr "none")
           (PStr "/tmp/out") (PStr "")
           (world_with cz_oif (job (PFloat (13 # 2))) [] []));
    reflexivity.
Defined.


